(** * tiktap-api: the job pipeline of [src/index.js]

    [src/index.js] holds two versions of the server.  The first one
    (lines 1-328, module [Remote] below) keeps the audio in memory, searches
    footage by keywords of the generated script and renders on a hosted
    render service that it polls.  The second one (lines 344-695, module
    [Local]) writes audio and footage to a temp directory, searches footage
    by template and muxes with a local encoder.

    The model is a shallow embedding.  An [async] function is a resumable
    task: it runs up to its next [await], and is resumed with the outcome of
    the awaited call in a later turn of the event loop.  What the outside
    world answers (provider replies, exit status of external tools) is a
    record of functions, the [World]. *)

From Stdlib Require Import String Ascii List Arith NArith ZArith Lia Bool DecimalString Sorted.
From Stdlib Require QArith.
From stdpp Require Import base option list gmap strings.

Open Scope string_scope.
Open Scope list_scope.

(** ** JavaScript values and objects used as lookup tables *)
Module JS.

(** A string is a sequence of code units, one [ascii] each; [String.length]
    is the [length] property. *)

(** A value of the JSON request body.  A field that is missing reads as
    [JUndefined].  [JOther repr] stands for a number, an array or an object,
    carried with the string that [ToString] gives for it. *)
Inductive JSVal : Type :=
| JUndefined
| JNull
| JBool (b : bool)
| JStr (s : string)
| JOther (repr : string).

(** [ToString], which is also [ToPropertyKey] on these values. *)
Definition toString (v : JSVal) : string :=
  match v with
  | JUndefined => "undefined"
  | JNull => "null"
  | JBool true => "true"
  | JBool false => "false"
  | JStr s => s
  | JOther repr => repr
  end.

(** [v === 'lit'] for a string literal. *)
Definition strictEq (v : JSVal) (lit : string) : bool :=
  match v with
  | JStr s => String.eqb s lit
  | _ => false
  end.

(** The property names every object literal inherits from
    [Object.prototype]. *)
Definition objectPrototypeKeys : list string :=
  [ "constructor"; "__proto__"; "hasOwnProperty"; "isPrototypeOf";
    "propertyIsEnumerable"; "toLocaleString"; "toString"; "valueOf";
    "__defineGetter__"; "__defineSetter__"; "__lookupGetter__";
    "__lookupSetter__" ].

(** What [table[key]] evaluates to when [table] is an object literal whose
    own properties are strings. *)
Inductive PropVal : Type :=
| PUndefined
| PString (s : string)
| PInherited (name : string).

Fixpoint ownProp (own : list (string * string)) (key : string) : option string :=
  match own with
  | [] => None
  | (k, v) :: rest => if String.eqb k key then Some v else ownProp rest key
  end.

Definition inherited (key : string) : bool :=
  existsb (String.eqb key) objectPrototypeKeys.

(** [table[key]]: own properties first, then the prototype chain. *)
Definition getProp (own : list (string * string)) (key : JSVal) : PropVal :=
  let k := toString key in
  match ownProp own k with
  | Some v => PString v
  | None => if inherited k then PInherited k else PUndefined
  end.

(** [ToBoolean]. Functions and objects are truthy, the empty string is not. *)
Definition truthy (p : PropVal) : bool :=
  match p with
  | PUndefined => false
  | PString s => negb (String.eqb s EmptyString)
  | PInherited _ => true
  end.

(** [a || b]. *)
Definition or_else (a b : PropVal) : PropVal :=
  if truthy a then a else b.

(** [`${p}`] as Node prints it. *)
Definition propToString (p : PropVal) : string :=
  match p with
  | PUndefined => "undefined"
  | PString s => s
  | PInherited name =>
      if String.eqb name "__proto__" then "[object Object]"
      else if String.eqb name "constructor" then "function Object() { [native code] }"
      else "function " +:+ name +:+ "() { [native code] }"
  end.

(** [s.split(' ')]. *)
Fixpoint split_space (s : string) : list string :=
  match s with
  | EmptyString => [EmptyString]
  | String c rest =>
      let ws := split_space rest in
      if Ascii.eqb c " "%char then EmptyString :: ws
      else match ws with
           | w :: ws' => String c w :: ws'
           | [] => [String c EmptyString]
           end
  end.

(** [`${n}`] for a non-negative integer. *)
Definition natToString (n : nat) : string :=
  NilEmpty.string_of_uint (Nat.to_uint n).

(** What a function body ends with: a returned value or a thrown [Error],
    kept by its [message]. *)
Inductive Result (A : Type) : Type :=
| Return (a : A)
| Throw (message : string).
Arguments Return {A} a.
Arguments Throw {A} message.

(** What [fetch] gives: it rejects, or it resolves to a response that is
    not [ok] (with its body text), or to one that is, with the decoded
    payload. *)
Inductive Reply (A : Type) : Type :=
| Rejected (message : string)
| NotOk (text : string)
| Ok (data : A).
Arguments Rejected {A} message.
Arguments NotOk {A} text.
Arguments Ok {A} data.

(** [needle] occurs in [hay]. *)
Definition contains (hay needle : string) : Prop :=
  exists pre post, hay = pre +:+ needle +:+ post.

End JS.
Import JS.

(** ** Job status *)
Inductive Status : Type :=
| queued | pending
| generating_script | generating_voice | fetching_footage | assembling_video
| completed | failed.

#[global] Instance Status_eq_dec : EqDecision Status.
Proof. solve_decision. Defined.

(** The four stages of the pipeline. *)
Inductive Stage : Type := StScript | StVoice | StFootage | StAssemble.

#[global] Instance Stage_eq_dec : EqDecision Stage.
Proof. solve_decision. Defined.

(** The bytes of a [Buffer]. *)
Definition Buffer : Type := list Byte.byte.

(** A video of the stock-footage search result: [video_files] in the
    provider's order, each with a [quality] and a [link]. *)
Record VideoFile : Type := { quality : string; link : string }.
Record Video : Type :=
  { video_id : nat; video_files : list VideoFile; video_duration : nat }.

(** [video_files.find(f => f.quality === 'hd')]. *)
Definition findHd (files : list VideoFile) : option VideoFile :=
  List.find (fun f => String.eqb (quality f) "hd") files.

(** ** The hosted-render version (lines 1-328) *)
Module Remote.

Definition VOICE_IDS : list (string * string) :=
  [ ("female_1", "21m00Tcm4TlvDq8ikWAM");
    ("female_2", "ThT5KcBeYPX3keUQqHPh");
    ("male_1", "pNInz6obpgDQGcFmaJgB") ].

(** A clip descriptor built by [fetchStockFootage]; [clip_url] is [None]
    when the expression evaluates to [undefined]. *)
Record Clip : Type :=
  { clip_id : nat; clip_url : option string; clip_duration : nat }.

Record Job : Type := mkJob
  { id : string;
    status : Status;
    statusMessage : string;
    inputScript : JSVal;
    template : JSVal;
    voice : JSVal;
    duration : JSVal;
    generatedScript : option string;
    hasAudio : bool;
    videoUrl : option string;
    createdAt : nat;
    audioBuffer : option Buffer;
    clips : option (list Clip) }.

Definition set_status (s : Status) (j : Job) : Job :=
  mkJob (id j) s (statusMessage j) (inputScript j) (template j) (voice j)
        (duration j) (generatedScript j) (hasAudio j) (videoUrl j)
        (createdAt j) (audioBuffer j) (clips j).
Definition set_statusMessage (m : string) (j : Job) : Job :=
  mkJob (id j) (status j) m (inputScript j) (template j) (voice j)
        (duration j) (generatedScript j) (hasAudio j) (videoUrl j)
        (createdAt j) (audioBuffer j) (clips j).
Definition set_generatedScript (v : option string) (j : Job) : Job :=
  mkJob (id j) (status j) (statusMessage j) (inputScript j) (template j)
        (voice j) (duration j) v (hasAudio j) (videoUrl j)
        (createdAt j) (audioBuffer j) (clips j).
Definition set_hasAudio (b : bool) (j : Job) : Job :=
  mkJob (id j) (status j) (statusMessage j) (inputScript j) (template j)
        (voice j) (duration j) (generatedScript j) b (videoUrl j)
        (createdAt j) (audioBuffer j) (clips j).
Definition set_videoUrl (v : option string) (j : Job) : Job :=
  mkJob (id j) (status j) (statusMessage j) (inputScript j) (template j)
        (voice j) (duration j) (generatedScript j) (hasAudio j) v
        (createdAt j) (audioBuffer j) (clips j).
Definition set_audioBuffer (v : option Buffer) (j : Job) : Job :=
  mkJob (id j) (status j) (statusMessage j) (inputScript j) (template j)
        (voice j) (duration j) (generatedScript j) (hasAudio j) (videoUrl j)
        (createdAt j) v (clips j).
Definition set_clips (v : option (list Clip)) (j : Job) : Job :=
  mkJob (id j) (status j) (statusMessage j) (inputScript j) (template j)
        (voice j) (duration j) (generatedScript j) (hasAudio j) (videoUrl j)
        (createdAt j) (audioBuffer j) v.

(** One clip of the render timeline. *)
Record TimelineClip : Type :=
  { tc_src : option string; tc_trim : nat; tc_start : nat; tc_length : nat;
    tc_fit : string }.

(** One answer of the render service to a status request:
    [statusData.response.status] and [statusData.response.url], or the
    request (or the decoding of its body) throws. *)
Inductive PollReply : Type :=
| PollRejected (message : string)
| PollData (status : string) (url : string).

(** What the providers answer, by request. *)
Record World : Type :=
  { openai : string -> string -> Reply string;
    elevenlabs : string -> string -> Reply Buffer;
    pexels : string -> Reply (option (list Video));
    shotstack_render : list TimelineClip -> Reply string;
    shotstack_status : string -> nat -> PollReply }.

(** *** generateScript (lines 156-188) *)
Definition wordCount (duration : JSVal) : nat :=
  if strictEq duration "30s" then 75
  else if strictEq duration "60s" then 150
  else 225.

Definition systemPrompt (duration : JSVal) : string :=
  "You are a viral short-form video scriptwriter. Write engaging scripts for TikTok/Reels/Shorts. Start with a hook. Keep it around "
  +:+ natToString (wordCount duration)
  +:+ " words. No emojis. Just spoken words.".

Definition userPrompt (topic : JSVal) : string :=
  "Write a script about: " +:+ toString topic.

Definition generateScript (w : World) (topic duration : JSVal) : Result string :=
  match openai w (systemPrompt duration) (userPrompt topic) with
  | Rejected m => Throw m
  | NotOk err => Throw ("OpenAI error: " +:+ err)
  | Ok content => Return content
  end.

(** *** generateVoice (lines 192-218) *)
Definition voiceId (voiceType : JSVal) : PropVal :=
  or_else (getProp VOICE_IDS voiceType) (getProp VOICE_IDS (JStr "female_1")).

Definition voiceUrl (voiceType : JSVal) : string :=
  "https://api.elevenlabs.io/v1/text-to-speech/" +:+ propToString (voiceId voiceType).

Definition generateVoice (w : World) (script : string) (voiceType : JSVal)
  : Result Buffer :=
  match elevenlabs w (voiceUrl voiceType) script with
  | Rejected m => Throw m
  | NotOk err => Throw ("ElevenLabs error: " +:+ err)
  | Ok bytes => Return bytes
  end.

(** *** fetchStockFootage (lines 222-249) *)
Definition keywords (script : string) : string :=
  let joined :=
    String.concat " "
      (take 3 (List.filter (fun word => Nat.ltb 5 (String.length word))
                           (split_space script))) in
  if String.eqb joined EmptyString then "business technology" else joined.

(** [find(hd)?.link || video_files[0]?.link]. *)
Definition clipUrl (files : list VideoFile) : option string :=
  let first := link <$> head files in
  match link <$> findHd files with
  | Some l => if String.eqb l EmptyString then first else Some l
  | None => first
  end.

Definition toClip (video : Video) : Clip :=
  {| clip_id := video_id video;
     clip_url := clipUrl (video_files video);
     clip_duration := video_duration video |}.

Definition fetchStockFootage (w : World) (script : string) : Result (list Clip) :=
  match pexels w (keywords script) with
  | Rejected m => Throw m
  | NotOk err => Throw ("Pexels error: " +:+ err)
  | Ok None => Throw "Cannot read properties of undefined (reading 'map')"
  | Ok (Some videos) => Return (map toClip videos)
  end.

(** *** assembleVideo (lines 253-321) *)
Inductive PollEvent : Type :=
| Sleep (ms : N)
| FetchStatus (attempt : nat).

(** The loop of lines 302-318, [attempts] being the values the counter
    [i] still has to take ([0, 1, ..., 59] at entry); falling out of the loop
    reaches the [throw] of line 320.  The result comes with what the loop
    did, in order. *)
Fixpoint pollLoop (poll : nat -> PollReply) (attempts : list nat)
  : list PollEvent * Result string :=
  match attempts with
  | [] => ([], Throw "Video rendering timed out")
  | i :: rest =>
      match poll i with
      | PollRejected m => ([Sleep 2000; FetchStatus i], Throw m)
      | PollData st url =>
          if String.eqb st "done" then
            ([Sleep 2000; FetchStatus i], Return url)
          else if String.eqb st "failed" then
            ([Sleep 2000; FetchStatus i], Throw "Video rendering failed")
          else
            let r := pollLoop poll rest in
            (Sleep 2000 :: FetchStatus i :: fst r, snd r)
      end
  end.

(** [for (let i = 0; i < 60; i++)]. *)
Definition pollAttempts : list nat := seq 0 60.

Definition videoClips (cs : list Clip) : list TimelineClip :=
  imap (fun index clip =>
          {| tc_src := clip_url clip; tc_trim := 0; tc_start := (index * 10)%nat;
             tc_length := 10; tc_fit := "cover" |})
       (take 3 cs).

Definition assembleVideo (w : World) (job : Job)
  : list PollEvent * Result string :=
  let cs := default [] (clips job) in
  if Nat.eqb (length cs) 0 then ([], Throw "No video clips found")
  else
    match shotstack_render w (videoClips cs) with
    | Rejected m => ([], Throw m)
    | NotOk err => ([], Throw ("Shotstack render error: " +:+ err))
    | Ok renderId => pollLoop (shotstack_status w renderId) pollAttempts
    end.

(** *** The job store, the observation trace and the routes *)
Inductive Response : Type :=
| RespCreated (jobId : string) (st : Status)
| RespError (code : N) (error : string)
| RespJob (view : Job)
| RespAudio (bytes : Buffer)
| RespRedirect (url : string).

(** The HTTP status of a response. *)
Definition code (r : Response) : N :=
  match r with
  | RespError c _ => c
  | RespRedirect _ => 302
  | _ => 200
  end.

(** What an observer of one run can see, in order: a value given to a
    job's [status] (in the job literal or by assignment), an adapter being
    called, the awaited call settling, a response being sent. *)
Inductive Event : Type :=
| EvStatus (jobId : string) (s : Status)
| EvCall (jobId : string) (stage : Stage)
| EvSettled (jobId : string) (stage : Stage) (fulfilled : bool)
| EvResponse (r : Response).

(** The [jobs] map and the trace.  A [Job] object is reachable from its
    entry of the map and from the one [processVideo] task that runs it; the
    task carries the object and [jobsSet] writes it to the entry, which the
    code does after every group of assignments and before every [await]. *)
Record State : Type := { jobs : gmap string Job; log : list Event }.

Definition jobsSet (jobId : string) (job : Job) (st : State) : State :=
  {| jobs := <[jobId := job]> (jobs st); log := log st |}.

Definition emit (e : Event) (st : State) : State :=
  {| jobs := jobs st; log := log st ++ [e] |}.

(** [job.status = s; job.statusMessage = m; jobs.set(jobId, job)]. *)
Definition enter (jobId : string) (s : Status) (m : string) (job : Job)
    (st : State) : Job * State :=
  let job := set_statusMessage m (set_status s job) in
  (job, jobsSet jobId job (emit (EvStatus jobId s) st)).

(** Where a [processVideo] task is suspended, with the locals it keeps. *)
Inductive Pending : Type :=
| PScript
| PVoice (script : string)
| PFootage (script : string)
| PAssemble.

Definition stageOf (p : Pending) : Stage :=
  match p with
  | PScript => StScript
  | PVoice _ => StVoice
  | PFootage _ => StFootage
  | PAssemble => StAssemble
  end.

Inductive Task : Type :=
| Suspended (jobId : string) (job : Job) (p : Pending)
| Finished.

(** The [catch] block of lines 146-151. *)
Definition catch (jobId : string) (job : Job) (message : string) (st : State)
  : State * Task :=
  let '(_, st) := enter jobId failed ("Error: " +:+ message) job st in
  (st, Finished).

(** [processVideo] from its call to its first [await] (lines 104-112).  With
    no job under [jobId] the first assignment throws, the one in the [catch]
    block throws again and the promise rejects; nothing is written. *)
Definition processVideo_start (jobId : string) (st : State) : State * Task :=
  match jobs st !! jobId with
  | None => (st, Finished)
  | Some job =>
      let '(job, st) :=
        enter jobId generating_script "AI is writing your script..." job st in
      (emit (EvCall jobId StScript) st, Suspended jobId job PScript)
  end.

(** [processVideo] from one [await] to the next (lines 112-151): the awaited
    call settles as the world has it, and the task runs on. *)
Definition processVideo_resume (w : World) (t : Task) (st : State)
  : State * Task :=
  match t with
  | Finished => (st, Finished)
  | Suspended jobId job PScript =>
      match generateScript w (inputScript job) (duration job) with
      | Throw m => catch jobId job m (emit (EvSettled jobId StScript false) st)
      | Return script =>
          let st := emit (EvSettled jobId StScript true) st in
          let job := set_generatedScript (Some script) job in
          let st := jobsSet jobId job st in
          let '(job, st) :=
            enter jobId generating_voice "Creating AI voiceover..." job st in
          (emit (EvCall jobId StVoice) st, Suspended jobId job (PVoice script))
      end
  | Suspended jobId job (PVoice script) =>
      match generateVoice w script (voice job) with
      | Throw m => catch jobId job m (emit (EvSettled jobId StVoice false) st)
      | Return bytes =>
          let st := emit (EvSettled jobId StVoice true) st in
          let job := set_hasAudio true (set_audioBuffer (Some bytes) job) in
          let st := jobsSet jobId job st in
          let '(job, st) :=
            enter jobId fetching_footage "Finding perfect video clips..." job st in
          (emit (EvCall jobId StFootage) st, Suspended jobId job (PFootage script))
      end
  | Suspended jobId job (PFootage script) =>
      match fetchStockFootage w script with
      | Throw m => catch jobId job m (emit (EvSettled jobId StFootage false) st)
      | Return cs =>
          let st := emit (EvSettled jobId StFootage true) st in
          let job := set_clips (Some cs) job in
          let st := jobsSet jobId job st in
          let '(job, st) :=
            enter jobId assembling_video "Assembling your video..." job st in
          (emit (EvCall jobId StAssemble) st, Suspended jobId job PAssemble)
      end
  | Suspended jobId job PAssemble =>
      match snd (assembleVideo w job) with
      | Throw m => catch jobId job m (emit (EvSettled jobId StAssemble false) st)
      | Return url =>
          let st := emit (EvSettled jobId StAssemble true) st in
          let job := set_videoUrl (Some url) job in
          let '(_, st) := enter jobId completed "Your video is ready!" job st in
          (st, Finished)
      end
  end.

(** The event loop resuming the task, at most [turns] times. *)
Fixpoint drive (w : World) (turns : nat) (c : State * Task) : State * Task :=
  match turns with
  | 0 => c
  | S n =>
      match snd c with
      | Finished => c
      | t => drive w n (processVideo_resume w t (fst c))
      end
  end.

(** The body of a creation request: [req.body], or [None] when the request
    has no parsed body. *)
Record CreateBody : Type :=
  { body_script : JSVal; body_template : JSVal; body_voice : JSVal;
    body_duration : JSVal }.

(** The job literal of lines 44-56; [jobId] is what [uuidv4()] returns and
    [now] what [new Date()] does. *)
Definition newJob (b : CreateBody) (jobId : string) (now : nat) : Job :=
  {| id := jobId; status := queued;
     statusMessage := "Video job created...";
     inputScript := body_script b; template := body_template b;
     voice := body_voice b; duration := body_duration b;
     generatedScript := None; hasAudio := false; videoUrl := None;
     createdAt := now; audioBuffer := None; clips := None |}.

(** [jobs.set(jobId, job)] of line 58. *)
Definition register (b : CreateBody) (jobId : string) (now : nat) (st : State)
  : State :=
  jobsSet jobId (newJob b jobId now) (emit (EvStatus jobId queued) st).

(** POST /api/videos/create (lines 39-68).  [processVideo(jobId)] is not
    awaited: the handler goes on once the task has suspended, and the task
    is what the event loop resumes later. *)
Definition create (body : option CreateBody) (jobId : string) (now : nat)
    (st : State) : State * Task * Response :=
  match body with
  | None =>
      let r := RespError 500
        "Cannot destructure property 'script' of 'req.body' as it is undefined." in
      (emit (EvResponse r) st, Finished, r)
  | Some b =>
      let st := register b jobId now st in
      let '(st, task) := processVideo_start jobId st in
      let r := RespCreated jobId queued in
      (emit (EvResponse r) st, task, r)
  end.

(** GET /api/videos/:jobId/status (lines 71-80). *)
Definition getStatus (st : State) (jobId : string) : Response :=
  match jobs st !! jobId with
  | None => RespError 404 "Job not found"
  | Some job => RespJob (set_audioBuffer None job)
  end.

(** GET /api/videos/:jobId/audio (lines 83-90). *)
Definition getAudio (st : State) (jobId : string) : Response :=
  match jobs st !! jobId with
  | None => RespError 404 "Audio not found"
  | Some job =>
      match audioBuffer job with
      | None => RespError 404 "Audio not found"
      | Some bytes => RespAudio bytes
      end
  end.

(** GET /api/videos/:jobId/download (lines 93-99); the empty string is
    falsy too. *)
Definition download (st : State) (jobId : string) : Response :=
  match jobs st !! jobId with
  | None => RespError 404 "Video not ready"
  | Some job =>
      match videoUrl job with
      | None => RespError 404 "Video not ready"
      | Some url =>
          if String.eqb url EmptyString then RespError 404 "Video not ready"
          else RespRedirect url
      end
  end.

(** The values given to the [status] of job [jobId], in order. *)
Definition statusWrites (jobId : string) (l : list Event) : list Status :=
  omap (fun e => match e with
                 | EvStatus j s => if String.eqb j jobId then Some s else None
                 | _ => None
                 end) l.

(** The stages whose adapter was called for job [jobId], in order. *)
Definition stagesCalled (jobId : string) (l : list Event) : list Stage :=
  omap (fun e => match e with
                 | EvCall j s => if String.eqb j jobId then Some s else None
                 | _ => None
                 end) l.

End Remote.

(** ** The local-encoder version (lines 344-695) *)
Module Local.

Definition TEMP_DIR : string := "./temp".

Definition VOICE_IDS : list (string * string) :=
  [ ("female_1", "EXAVITQu4vr4xnSDxMaL");
    ("female_2", "XB0fDUnXU5powFXDhCwa");
    ("male_1", "TX3LPaxmHKxFdv7VOQHJ") ].

(** The double quote character, for command lines. *)
Definition dq : string := String (ascii_of_nat 34) EmptyString.

(** A number held by the program: a literal, or [parseFloat(text.trim())]
    of the text a tool printed. *)
Inductive Num : Type :=
| NumLit (n : nat)
| NumParsed (text : string).

(** How [exec] of a command line ends. *)
Inductive ExecResult : Type :=
| ExecOk (stdout : string)
| ExecFail (message : string).

(** A field that the job literal of lines 396-405 does not have is [None]
    until it is assigned. *)
Record Job : Type := mkJob
  { id : string;
    status : Status;
    script : JSVal;
    template : JSVal;
    voice : JSVal;
    duration : JSVal;
    createdAt : nat;
    statusMessage : string;
    generatedScript : option string;
    audioPath : option string;
    hasAudio : option bool;
    footagePath : option string;
    finalVideoPath : option string;
    videoUrl : option string }.

Definition set_status (s : Status) (j : Job) : Job :=
  mkJob (id j) s (script j) (template j) (voice j) (duration j) (createdAt j)
        (statusMessage j) (generatedScript j) (audioPath j) (hasAudio j)
        (footagePath j) (finalVideoPath j) (videoUrl j).
Definition set_statusMessage (m : string) (j : Job) : Job :=
  mkJob (id j) (status j) (script j) (template j) (voice j) (duration j)
        (createdAt j) m (generatedScript j) (audioPath j) (hasAudio j)
        (footagePath j) (finalVideoPath j) (videoUrl j).
Definition set_generatedScript (v : option string) (j : Job) : Job :=
  mkJob (id j) (status j) (script j) (template j) (voice j) (duration j)
        (createdAt j) (statusMessage j) v (audioPath j) (hasAudio j)
        (footagePath j) (finalVideoPath j) (videoUrl j).
Definition set_audioPath (v : option string) (j : Job) : Job :=
  mkJob (id j) (status j) (script j) (template j) (voice j) (duration j)
        (createdAt j) (statusMessage j) (generatedScript j) v (hasAudio j)
        (footagePath j) (finalVideoPath j) (videoUrl j).
Definition set_hasAudio (v : option bool) (j : Job) : Job :=
  mkJob (id j) (status j) (script j) (template j) (voice j) (duration j)
        (createdAt j) (statusMessage j) (generatedScript j) (audioPath j) v
        (footagePath j) (finalVideoPath j) (videoUrl j).
Definition set_footagePath (v : option string) (j : Job) : Job :=
  mkJob (id j) (status j) (script j) (template j) (voice j) (duration j)
        (createdAt j) (statusMessage j) (generatedScript j) (audioPath j)
        (hasAudio j) v (finalVideoPath j) (videoUrl j).
Definition set_finalVideoPath (v : option string) (j : Job) : Job :=
  mkJob (id j) (status j) (script j) (template j) (voice j) (duration j)
        (createdAt j) (statusMessage j) (generatedScript j) (audioPath j)
        (hasAudio j) (footagePath j) v (videoUrl j).
Definition set_videoUrl (v : option string) (j : Job) : Job :=
  mkJob (id j) (status j) (script j) (template j) (voice j) (duration j)
        (createdAt j) (statusMessage j) (generatedScript j) (audioPath j)
        (hasAudio j) (footagePath j) (finalVideoPath j) v.

(** What the providers, the file system and the external tools answer, by
    request.  [writeFile path] is the message of the error that
    [fs.writeFileSync] throws, if it does; [ffprobe n] answers the [n]-th
    probe of a run (the one of [processVideo] is the first, the one of
    [combineAudioVideo] the second); [random n] is
    [Math.floor(Math.random() * n)]; [numberText text] is the text that a
    template literal gives for [parseFloat(text.trim())]. *)
Record World : Type :=
  { openai : string -> string -> Reply string;
    elevenlabs : string -> string -> Reply Buffer;
    writeFile : string -> option string;
    ffprobe : nat -> string -> ExecResult;
    pexels : string -> Reply (option (list Video));
    random : nat -> nat;
    fetchFile : string -> Result Buffer;
    ffmpeg : string -> ExecResult;
    numberText : string -> string }.

(** *** generateScript (lines 508-540) *)
Definition wordCount (duration : JSVal) : nat :=
  if strictEq duration "30" then 75
  else if strictEq duration "60" then 150
  else 225.

Definition systemPrompt (duration : JSVal) : string :=
  "You are a viral TikTok script writer. Write engaging, hook-driven scripts that capture attention in the first 2 seconds. Keep it around "
  +:+ natToString (wordCount duration)
  +:+ " words. No hashtags, no emojis, just the spoken script.".

Definition userPrompt (topic : JSVal) : string :=
  "Write a TikTok script about: " +:+ toString topic.

Definition generateScript (w : World) (topic duration : JSVal) : Result string :=
  match openai w (systemPrompt duration) (userPrompt topic) with
  | Rejected m => Throw m
  | NotOk err => Throw ("OpenAI error: " +:+ err)
  | Ok content => Return content
  end.

(** *** generateVoice (lines 544-570) *)
Definition voiceId (voiceType : JSVal) : PropVal :=
  or_else (getProp VOICE_IDS voiceType) (getProp VOICE_IDS (JStr "female_1")).

Definition voiceUrl (voiceType : JSVal) : string :=
  "https://api.elevenlabs.io/v1/text-to-speech/" +:+ propToString (voiceId voiceType).

Definition generateVoice (w : World) (script : string) (voiceType : JSVal)
  : Result Buffer :=
  match elevenlabs w (voiceUrl voiceType) script with
  | Rejected m => Throw m
  | NotOk err => Throw ("ElevenLabs error: " +:+ err)
  | Ok bytes => Return bytes
  end.

(** *** fetchStockFootage (lines 574-619) *)
Definition searchTerms : list (string * string) :=
  [ ("motivational", "motivation success");
    ("educational", "learning study");
    ("lifestyle", "lifestyle luxury");
    ("fitness", "workout gym");
    ("business", "business office");
    ("travel", "travel adventure");
    ("default", "aesthetic cinematic") ].

Definition query (template : JSVal) : PropVal :=
  or_else (getProp searchTerms template) (getProp searchTerms (JStr "default")).

(** The files written with [fs.writeFileSync], by path. *)
Abbreviation Files := (gmap string Buffer).

(** [fs.writeFileSync(path, bytes)]. *)
Definition writeFileSync (w : World) (path : string) (bytes : Buffer)
    (fs : Files) : Result unit * Files :=
  match writeFile w path with
  | Some m => (Throw m, fs)
  | None => (Return tt, <[path := bytes]> fs)
  end.

(** [duration] is not read by the function.  [random w n] is below [n] for
    the real generator, so the third [Throw] is never met in a run. *)
Definition fetchStockFootage (w : World) (template : JSVal) (duration : Num)
    (jobId : string) (fs : Files) : Result string * Files :=
  match pexels w (propToString (query template)) with
  | Rejected m => (Throw m, fs)
  | NotOk _ => (Throw "Failed to fetch stock footage", fs)
  | Ok None | Ok (Some []) => (Throw "No stock footage found", fs)
  | Ok (Some videos) =>
      match videos !! random w (length videos) with
      | None =>
          (Throw "Cannot read properties of undefined (reading 'video_files')", fs)
      | Some randomVideo =>
          let files := video_files randomVideo in
          match (match findHd files with Some f => Some f | None => head files end) with
          | None =>
              (Throw "Cannot read properties of undefined (reading 'link')", fs)
          | Some videoFile =>
              match fetchFile w (link videoFile) with
              | Throw m => (Throw m, fs)
              | Return videoBuffer =>
                  let videoPath := TEMP_DIR +:+ "/" +:+ jobId +:+ "-footage.mp4" in
                  match writeFileSync w videoPath videoBuffer fs with
                  | (Throw m, fs) => (Throw m, fs)
                  | (Return _, fs) => (Return videoPath, fs)
                  end
              end
          end
      end
  end.

(** *** getAudioDuration and combineAudioVideo (lines 623-667) *)
Definition ffprobeCommand (audioPath : string) : string :=
  "ffprobe -v error -show_entries format=duration -of default=noprint_wrappers=1:nokey=1 "
  +:+ dq +:+ audioPath +:+ dq.

(** The [n]-th probe of a run. *)
Definition getAudioDuration (w : World) (n : nat) (audioPath : string) : Num :=
  match ffprobe w n (ffprobeCommand audioPath) with
  | ExecOk stdout => NumParsed stdout
  | ExecFail _ => NumLit 30
  end.

Definition numToString (w : World) (x : Num) : string :=
  match x with
  | NumLit n => natToString n
  | NumParsed text => numberText w text
  end.

(** The template literal of lines 649-658; a backslash at the end of a line
    continues the line, the indentation of the next one stays. *)
Definition ffmpegCommand (w : World) (audioPath videoPath outputPath : string)
    (audioDuration : Num) : string :=
  "ffmpeg -y "
  +:+ "    -stream_loop -1 -i " +:+ dq +:+ videoPath +:+ dq +:+ " "
  +:+ "    -i " +:+ dq +:+ audioPath +:+ dq +:+ " "
  +:+ "    -t " +:+ numToString w audioDuration +:+ " "
  +:+ "    -c:v libx264 -preset fast -crf 23 "
  +:+ "    -c:a aac -b:a 128k "
  +:+ "    -map 0:v:0 -map 1:a:0 "
  +:+ "    -shortest "
  +:+ "    -movflags +faststart "
  +:+ "    " +:+ dq +:+ outputPath +:+ dq.

Definition combineAudioVideo (w : World) (audioPath videoPath jobId : string)
  : Result string :=
  let outputPath := TEMP_DIR +:+ "/" +:+ jobId +:+ "-final.mp4" in
  let audioDuration := getAudioDuration w 1 audioPath in
  match ffmpeg w (ffmpegCommand w audioPath videoPath outputPath audioDuration) with
  | ExecOk _ => Return outputPath
  | ExecFail _ => Throw "Failed to combine audio and video"
  end.

(** *** The job store, the observation trace and the routes *)
Inductive Response : Type :=
| RespCreated (jobId : string) (st : Status)
| RespError (code : N) (error : string)
| RespJob (view : Job)
| RespSendFile (contentType : string) (path : string).

(** The HTTP status of a response; for a file it is the one [res.sendFile]
    starts from. *)
Definition code (r : Response) : N :=
  match r with
  | RespError c _ => c
  | _ => 200
  end.

Inductive Event : Type :=
| EvStatus (jobId : string) (s : Status)
| EvCall (jobId : string) (stage : Stage)
| EvSettled (jobId : string) (stage : Stage) (fulfilled : bool)
| EvProbe (jobId : string) (audioDuration : Num)
| EvResponse (r : Response).

(** The [jobs] map, the files of the temp directory and the trace.  As in
    the other version, the task carries the job object and [jobsSet] writes
    it to its entry. *)
Record State : Type :=
  { jobs : gmap string Job; files : Files; log : list Event }.

Definition jobsSet (jobId : string) (job : Job) (st : State) : State :=
  {| jobs := <[jobId := job]> (jobs st); files := files st; log := log st |}.

Definition emit (e : Event) (st : State) : State :=
  {| jobs := jobs st; files := files st; log := log st ++ [e] |}.

Definition withFiles (fs : Files) (st : State) : State :=
  {| jobs := jobs st; files := fs; log := log st |}.

(** [job.status = s; job.statusMessage = m; jobs.set(jobId, job)]. *)
Definition enter (jobId : string) (s : Status) (m : string) (job : Job)
    (st : State) : Job * State :=
  let job := set_statusMessage m (set_status s job) in
  (job, jobsSet jobId job (emit (EvStatus jobId s) st)).

(** Where a [processVideo] task is suspended, with the locals it keeps. *)
Inductive Pending : Type :=
| PScript
| PVoice (generatedScript : string)
| PProbe (audioPath : string)
| PFootage (audioPath : string) (audioDuration : Num)
| PAssemble (audioPath videoPath : string).

Inductive Task : Type :=
| Suspended (jobId : string) (job : Job) (p : Pending)
| Finished.

(** The [catch] block of lines 498-503. *)
Definition catch (jobId : string) (job : Job) (message : string) (st : State)
  : State * Task :=
  let '(_, st) := enter jobId failed ("Error: " +:+ message) job st in
  (st, Finished).

(** [processVideo] from its call to its first [await] (lines 448-456). *)
Definition processVideo_start (jobId : string) (st : State) : State * Task :=
  match jobs st !! jobId with
  | None => (st, Finished)
  | Some job =>
      let '(job, st) :=
        enter jobId generating_script "Creating AI script..." job st in
      (emit (EvCall jobId StScript) st, Suspended jobId job PScript)
  end.

(** [processVideo] from one [await] to the next (lines 456-503). *)
Definition processVideo_resume (w : World) (t : Task) (st : State)
  : State * Task :=
  match t with
  | Finished => (st, Finished)
  | Suspended jobId job PScript =>
      match generateScript w (script job) (duration job) with
      | Throw m => catch jobId job m (emit (EvSettled jobId StScript false) st)
      | Return generatedScript =>
          let st := emit (EvSettled jobId StScript true) st in
          let job := set_generatedScript (Some generatedScript) job in
          let st := jobsSet jobId job st in
          let '(job, st) :=
            enter jobId generating_voice "Creating AI voiceover..." job st in
          (emit (EvCall jobId StVoice) st,
           Suspended jobId job (PVoice generatedScript))
      end
  | Suspended jobId job (PVoice generatedScript) =>
      match generateVoice w generatedScript (voice job) with
      | Throw m => catch jobId job m (emit (EvSettled jobId StVoice false) st)
      | Return audioBuffer =>
          let st := emit (EvSettled jobId StVoice true) st in
          let audioPath := TEMP_DIR +:+ "/" +:+ jobId +:+ "-audio.mp3" in
          match writeFileSync w audioPath audioBuffer (files st) with
          | (Throw m, _) => catch jobId job m st
          | (Return _, fs) =>
              let st := withFiles fs st in
              let job := set_hasAudio (Some true) (set_audioPath (Some audioPath) job) in
              let st := jobsSet jobId job st in
              (st, Suspended jobId job (PProbe audioPath))
          end
      end
  | Suspended jobId job (PProbe audioPath) =>
      let audioDuration := getAudioDuration w 0 audioPath in
      let st := emit (EvProbe jobId audioDuration) st in
      let '(job, st) :=
        enter jobId fetching_footage "Finding perfect footage..." job st in
      (emit (EvCall jobId StFootage) st,
       Suspended jobId job (PFootage audioPath audioDuration))
  | Suspended jobId job (PFootage audioPath audioDuration) =>
      match fetchStockFootage w (template job) audioDuration jobId (files st) with
      | (Throw m, fs) =>
          catch jobId job m (emit (EvSettled jobId StFootage false) (withFiles fs st))
      | (Return videoPath, fs) =>
          let st := emit (EvSettled jobId StFootage true) (withFiles fs st) in
          let job := set_footagePath (Some videoPath) job in
          let st := jobsSet jobId job st in
          let '(job, st) :=
            enter jobId assembling_video "Assembling your video..." job st in
          (emit (EvCall jobId StAssemble) st,
           Suspended jobId job (PAssemble audioPath videoPath))
      end
  | Suspended jobId job (PAssemble audioPath videoPath) =>
      match combineAudioVideo w audioPath videoPath jobId with
      | Throw m => catch jobId job m (emit (EvSettled jobId StAssemble false) st)
      | Return finalVideoPath =>
          let st := emit (EvSettled jobId StAssemble true) st in
          let job := set_finalVideoPath (Some finalVideoPath) job in
          let job := set_statusMessage "Your video is ready!" (set_status completed job) in
          let st := emit (EvStatus jobId completed) st in
          let job := set_videoUrl (Some ("/api/videos/" +:+ jobId +:+ "/download")) job in
          (jobsSet jobId job st, Finished)
      end
  end.

(** The event loop resuming the task, at most [turns] times. *)
Fixpoint drive (w : World) (turns : nat) (c : State * Task) : State * Task :=
  match turns with
  | 0 => c
  | S n =>
      match snd c with
      | Finished => c
      | t => drive w n (processVideo_resume w t (fst c))
      end
  end.

Record CreateBody : Type :=
  { body_script : JSVal; body_template : JSVal; body_voice : JSVal;
    body_duration : JSVal }.

(** The job literal of lines 396-405. *)
Definition newJob (b : CreateBody) (jobId : string) (now : nat) : Job :=
  {| id := jobId; status := pending;
     script := body_script b; template := body_template b;
     voice := body_voice b; duration := body_duration b;
     createdAt := now;
     statusMessage := "Starting video generation...";
     generatedScript := None; audioPath := None; hasAudio := None;
     footagePath := None; finalVideoPath := None; videoUrl := None |}.

(** [jobs.set(jobId, job)] of line 407. *)
Definition register (b : CreateBody) (jobId : string) (now : nat) (st : State)
  : State :=
  jobsSet jobId (newJob b jobId now) (emit (EvStatus jobId pending) st).

(** POST /api/videos/create (lines 392-413).  The handler has no [try]: with
    no parsed body the destructuring throws and no response is sent. *)
Definition create (body : option CreateBody) (jobId : string) (now : nat)
    (st : State) : State * Task * option Response :=
  match body with
  | None => (st, Finished, None)
  | Some b =>
      let st := register b jobId now st in
      let '(st, task) := processVideo_start jobId st in
      let r := RespCreated jobId pending in
      (emit (EvResponse r) st, task, Some r)
  end.

(** GET /api/videos/:jobId/status (lines 416-422). *)
Definition getStatus (st : State) (jobId : string) : Response :=
  match jobs st !! jobId with
  | None => RespError 404 "Job not found"
  | Some job => RespJob job
  end.

(** GET /api/videos/:jobId/audio (lines 425-432); the empty string is
    falsy too. *)
Definition getAudio (st : State) (jobId : string) : Response :=
  match jobs st !! jobId with
  | None => RespError 404 "Audio not found"
  | Some job =>
      match audioPath job with
      | None => RespError 404 "Audio not found"
      | Some path =>
          if String.eqb path EmptyString then RespError 404 "Audio not found"
          else RespSendFile "audio/mpeg" path
      end
  end.

(** GET /api/videos/:jobId/download (lines 435-443). *)
Definition download (st : State) (jobId : string) : Response :=
  match jobs st !! jobId with
  | None => RespError 404 "Video not found"
  | Some job =>
      match finalVideoPath job with
      | None => RespError 404 "Video not found"
      | Some path =>
          if String.eqb path EmptyString then RespError 404 "Video not found"
          else RespSendFile "video/mp4" path
      end
  end.

Definition statusWrites (jobId : string) (l : list Event) : list Status :=
  omap (fun e => match e with
                 | EvStatus j s => if String.eqb j jobId then Some s else None
                 | _ => None
                 end) l.

Definition stagesCalled (jobId : string) (l : list Event) : list Stage :=
  omap (fun e => match e with
                 | EvCall j s => if String.eqb j jobId then Some s else None
                 | _ => None
                 end) l.

End Local.

(** ** The state machine of the specification *)

(** The forward order of section 4.2. *)
Definition successor (s : Status) : option Status :=
  match s with
  | queued | pending => Some generating_script
  | generating_script => Some generating_voice
  | generating_voice => Some fetching_footage
  | fetching_footage => Some assembling_video
  | assembling_video => Some completed
  | completed | failed => None
  end.

Definition terminal (s : Status) : bool :=
  match s with
  | completed | failed => true
  | _ => false
  end.

(** A transition the specification allows: to the successor, or from a
    state that is not terminal to [failed]. *)
Definition allowed (a b : Status) : Prop :=
  successor a = Some b \/ (terminal a = false /\ b = failed).

(** Every step of a sequence of status values is allowed. *)
Fixpoint forward (l : list Status) : Prop :=
  match l with
  | a :: (b :: _) as rest => allowed a b /\ forward rest
  | _ => True
  end.

(** The position of a status in the order; the two initial states share
    the first one. *)
Definition rank (s : Status) : nat :=
  match s with
  | queued | pending => 0
  | generating_script => 1
  | generating_voice => 2
  | fetching_footage => 3
  | assembling_video => 4
  | completed => 5
  | failed => 6
  end.

(** ** What holds of a run of the hosted-render version *)
Module RemoteRun.
Import Remote.

(** The status a job has while the task waits at [p]. *)
Definition statusAt (p : Pending) : Status :=
  match p with
  | PScript => generating_script
  | PVoice _ => generating_voice
  | PFootage _ => fetching_footage
  | PAssemble => assembling_video
  end.

(** The status values written up to the time stage [s] runs. *)
Definition writesUpTo (s : Stage) : list Status :=
  match s with
  | StScript => [queued; generating_script]
  | StVoice => [queued; generating_script; generating_voice]
  | StFootage => [queued; generating_script; generating_voice; fetching_footage]
  | StAssemble =>
      [queued; generating_script; generating_voice; fetching_footage;
       assembling_video]
  end.

Definition stagesUpTo (s : Stage) : list Stage :=
  match s with
  | StScript => [StScript]
  | StVoice => [StScript; StVoice]
  | StFootage => [StScript; StVoice; StFootage]
  | StAssemble => [StScript; StVoice; StFootage; StAssemble]
  end.

(** The artifact fields of stage [s] and of the stages after it are as the
    job literal has them. *)
Definition artifactsFrom (s : Stage) (j : Job) : Prop :=
  match s with
  | StScript =>
      generatedScript j = None /\ audioBuffer j = None /\ hasAudio j = false
      /\ clips j = None /\ videoUrl j = None
  | StVoice =>
      audioBuffer j = None /\ hasAudio j = false /\ clips j = None
      /\ videoUrl j = None
  | StFootage => clips j = None /\ videoUrl j = None
  | StAssemble => videoUrl j = None
  end.

(** The artifacts of the stages before [p] are on the job. *)
Definition artifactsBefore (p : Pending) (j : Job) : Prop :=
  match p with
  | PScript => True
  | PVoice script => generatedScript j = Some script
  | PFootage script =>
      generatedScript j = Some script /\ is_Some (audioBuffer j)
      /\ hasAudio j = true
  | PAssemble =>
      is_Some (generatedScript j) /\ is_Some (audioBuffer j)
      /\ hasAudio j = true /\ is_Some (clips j)
  end.

(** The task of job [jobId] waits at [p]. *)
Record Running (jobId : string) (st : State) (job : Job) (p : Pending) : Prop :=
  { run_store : jobs st !! jobId = Some job;
    run_status : status job = statusAt p;
    run_writes : statusWrites jobId (log st) = writesUpTo (stageOf p);
    run_called : stagesCalled jobId (log st) = stagesUpTo (stageOf p);
    run_empty : artifactsFrom (stageOf p) job;
    run_have : artifactsBefore p job }.

(** The task of job [jobId] is over. *)
Inductive Ended (jobId : string) (st : State) : Prop :=
| EndedCompleted (job : Job)
    (Hstore : jobs st !! jobId = Some job)
    (Hstatus : status job = completed)
    (Hwrites : statusWrites jobId (log st)
               = (writesUpTo StAssemble ++ [completed])%list)
    (Hcalled : stagesCalled jobId (log st) = stagesUpTo StAssemble)
| EndedFailed (job : Job) (s : Stage) (message : string)
    (Hstore : jobs st !! jobId = Some job)
    (Hstatus : status job = failed)
    (Hmessage : statusMessage job = "Error: " +:+ message)
    (Hwrites : statusWrites jobId (log st) = (writesUpTo s ++ [failed])%list)
    (Hcalled : stagesCalled jobId (log st) = stagesUpTo s)
    (Hempty : artifactsFrom s job).

Definition Inv (jobId : string) (c : State * Task) : Prop :=
  match snd c with
  | Suspended j job p => j = jobId /\ Running jobId (fst c) job p
  | Finished => Ended jobId (fst c)
  end.

(** The [await]s a task still has before it. *)
Definition awaitsLeft (t : Task) : nat :=
  match t with
  | Suspended _ _ PScript => 4
  | Suspended _ _ (PVoice _) => 3
  | Suspended _ _ (PFootage _) => 2
  | Suspended _ _ PAssemble => 1
  | Finished => 0
  end.

(** A run from the creation request: the state and the task after the
    handler and [turns] resumptions. *)
Definition run (w : World) (b : CreateBody) (jobId : string) (now : nat)
    (m : gmap string Job) (turns : nat) : State * Task :=
  drive w turns (fst (create (Some b) jobId now {| jobs := m; log := [] |})).

(** The message of the error the awaited call of [p] throws, if it does. *)
Definition thrown (w : World) (job : Job) (p : Pending) : option string :=
  let message {A} (r : Result A) :=
    match r with Throw m => Some m | Return _ => None end in
  match p with
  | PScript => message (generateScript w (inputScript job) (duration job))
  | PVoice script => message (generateVoice w script (voice job))
  | PFootage script => message (fetchStockFootage w script)
  | PAssemble => message (snd (assembleVideo w job))
  end.

(** The search query that the footage stage of a task sends. *)
Definition footageRequest (t : Task) : option string :=
  match t with
  | Suspended _ _ (PFootage script) => Some (keywords script)
  | _ => None
  end.

(** The words of a script that count as keywords. *)
Definition longWords (script : string) : list string :=
  List.filter (fun word => Nat.ltb 5 (String.length word)) (split_space script).

(** [w] with another footage provider. *)
Definition with_pexels (f : string -> Reply (option (list Video))) (w : World)
  : World :=
  {| openai := openai w; elevenlabs := elevenlabs w; pexels := f;
     shotstack_render := shotstack_render w;
     shotstack_status := shotstack_status w |}.

(** [w] with another script provider. *)
Definition with_openai (f : string -> string -> Reply string) (w : World)
  : World :=
  {| openai := f; elevenlabs := elevenlabs w; pexels := pexels w;
     shotstack_render := shotstack_render w;
     shotstack_status := shotstack_status w |}.

(** A status request whose answer lets the poll loop go on. *)
Definition goesOn (r : PollReply) : bool :=
  match r with
  | PollRejected _ => false
  | PollData st _ => negb (String.eqb st "done") && negb (String.eqb st "failed")
  end.

(** What the poll loop does in [k] attempts from counter [a]: before each
    status request it waits 2000 ms. *)
Definition attempts (a k : nat) : list PollEvent :=
  flat_map (fun i => [Sleep 2000; FetchStatus i]) (seq a k).

(** How the poll loop ends when attempt [i] is its last one. *)
Definition settles (poll : nat -> PollReply) (i : nat) (r : Result string)
  : Prop :=
  match poll i with
  | PollRejected m => r = Throw m
  | PollData st url =>
      (st = "done" /\ r = Return url)
      \/ (st = "failed" /\ r = Throw "Video rendering failed")
  end.

End RemoteRun.

(** ** What holds of a run of the local-encoder version *)
Module LocalRun.
Import Local.

(** The stage whose status a job has while the task waits at [p]; the probe
    of the audio duration runs under the status of the voice stage. *)
Definition stageOf (p : Pending) : Stage :=
  match p with
  | PScript => StScript
  | PVoice _ | PProbe _ => StVoice
  | PFootage _ _ => StFootage
  | PAssemble _ _ => StAssemble
  end.

(** The first stage that has not recorded its artifacts yet. *)
Definition nextStage (p : Pending) : Stage :=
  match p with
  | PScript => StScript
  | PVoice _ => StVoice
  | PProbe _ | PFootage _ _ => StFootage
  | PAssemble _ _ => StAssemble
  end.

Definition statusOf (s : Stage) : Status :=
  match s with
  | StScript => generating_script
  | StVoice => generating_voice
  | StFootage => fetching_footage
  | StAssemble => assembling_video
  end.

Definition writesUpTo (s : Stage) : list Status :=
  match s with
  | StScript => [pending; generating_script]
  | StVoice => [pending; generating_script; generating_voice]
  | StFootage => [pending; generating_script; generating_voice; fetching_footage]
  | StAssemble =>
      [pending; generating_script; generating_voice; fetching_footage;
       assembling_video]
  end.

Definition stagesUpTo (s : Stage) : list Stage :=
  match s with
  | StScript => [StScript]
  | StVoice => [StScript; StVoice]
  | StFootage => [StScript; StVoice; StFootage]
  | StAssemble => [StScript; StVoice; StFootage; StAssemble]
  end.

(** The artifact fields of stage [s] and of the stages after it are
    absent. *)
Definition artifactsFrom (s : Stage) (j : Job) : Prop :=
  match s with
  | StScript =>
      generatedScript j = None /\ audioPath j = None /\ hasAudio j = None
      /\ footagePath j = None /\ finalVideoPath j = None /\ videoUrl j = None
  | StVoice =>
      audioPath j = None /\ hasAudio j = None /\ footagePath j = None
      /\ finalVideoPath j = None /\ videoUrl j = None
  | StFootage =>
      footagePath j = None /\ finalVideoPath j = None /\ videoUrl j = None
  | StAssemble => finalVideoPath j = None /\ videoUrl j = None
  end.

(** The path the voice stage writes the audio of job [jobId] to. *)
Definition audioFile (jobId : string) : string :=
  TEMP_DIR +:+ "/" +:+ jobId +:+ "-audio.mp3".

(** Once the voice stage is over the job names the audio file, and the
    file is there. *)
Definition audioKept (jobId : string) (st : State) (j : Job) (p : Pending)
  : Prop :=
  match p with
  | PScript | PVoice _ => True
  | PProbe a | PFootage a _ | PAssemble a _ =>
      a = audioFile jobId /\ audioPath j = Some a /\ hasAudio j = Some true
      /\ is_Some (files st !! a)
  end.

Record Running (jobId : string) (st : State) (job : Job) (p : Pending) : Prop :=
  { run_store : jobs st !! jobId = Some job;
    run_status : status job = statusOf (stageOf p);
    run_writes : statusWrites jobId (log st) = writesUpTo (stageOf p);
    run_called : stagesCalled jobId (log st) = stagesUpTo (stageOf p);
    run_empty : artifactsFrom (nextStage p) job;
    run_audio : audioKept jobId st job p }.

Inductive Ended (jobId : string) (st : State) : Prop :=
| EndedCompleted (job : Job)
    (Hstore : jobs st !! jobId = Some job)
    (Hstatus : status job = completed)
    (Hwrites : statusWrites jobId (log st) = writesUpTo StAssemble ++ [completed])
    (Hcalled : stagesCalled jobId (log st) = stagesUpTo StAssemble)
| EndedFailed (job : Job) (s : Stage) (message : string)
    (Hstore : jobs st !! jobId = Some job)
    (Hstatus : status job = failed)
    (Hmessage : statusMessage job = "Error: " +:+ message)
    (Hwrites : statusWrites jobId (log st) = writesUpTo s ++ [failed])
    (Hcalled : stagesCalled jobId (log st) = stagesUpTo s)
    (Hempty : artifactsFrom s job).

Definition Inv (jobId : string) (c : State * Task) : Prop :=
  match snd c with
  | Suspended j job p => j = jobId /\ Running jobId (fst c) job p
  | Finished => Ended jobId (fst c)
  end.

Definition awaitsLeft (t : Task) : nat :=
  match t with
  | Suspended _ _ PScript => 5
  | Suspended _ _ (PVoice _) => 4
  | Suspended _ _ (PProbe _) => 3
  | Suspended _ _ (PFootage _ _) => 2
  | Suspended _ _ (PAssemble _ _) => 1
  | Finished => 0
  end.

Definition run (w : World) (b : CreateBody) (jobId : string) (now : nat)
    (m : gmap string Job) (fs : Files) (turns : nat) : State * Task :=
  drive w turns
    (fst (create (Some b) jobId now {| jobs := m; files := fs; log := [] |})).

(** The message of the error thrown while the task waits at [p], if one
    is: by the awaited call, or for the voice stage by the write of the
    audio file that follows it.  The probe never throws. *)
Definition thrown (w : World) (jobId : string) (job : Job) (p : Pending)
    (fs : Files) : option string :=
  let message {A} (r : Result A) :=
    match r with Throw m => Some m | Return _ => None end in
  match p with
  | PScript => message (generateScript w (script job) (duration job))
  | PVoice generatedScript =>
      match generateVoice w generatedScript (voice job) with
      | Throw m => Some m
      | Return bytes => message (fst (writeFileSync w (audioFile jobId) bytes fs))
      end
  | PProbe _ => None
  | PFootage _ audioDuration =>
      message (fst (fetchStockFootage w (template job) audioDuration jobId fs))
  | PAssemble audioPath videoPath =>
      message (combineAudioVideo w audioPath videoPath jobId)
  end.

(** The search query that the footage stage of a task sends. *)
Definition footageRequest (t : Task) : option string :=
  match t with
  | Suspended _ job (PFootage _ _) => Some (propToString (query (template job)))
  | _ => None
  end.

(** [w] with another footage provider. *)
Definition with_pexels (f : string -> Reply (option (list Video))) (w : World)
  : World :=
  {| openai := openai w; elevenlabs := elevenlabs w; writeFile := writeFile w;
     ffprobe := ffprobe w; pexels := f; random := random w;
     fetchFile := fetchFile w; ffmpeg := ffmpeg w;
     numberText := numberText w |}.

(** [w] with another script provider. *)
Definition with_openai (f : string -> string -> Reply string) (w : World)
  : World :=
  {| openai := f; elevenlabs := elevenlabs w; writeFile := writeFile w;
     ffprobe := ffprobe w; pexels := pexels w; random := random w;
     fetchFile := fetchFile w; ffmpeg := ffmpeg w;
     numberText := numberText w |}.

End LocalRun.

(** ** The end-to-end scenarios of section 8, as worlds *)
Module Scenario.

Definition body : Remote.CreateBody :=
  {| Remote.body_script := JStr "coffee brewing";
     Remote.body_template := JStr "fitness";
     Remote.body_voice := JStr "male_1";
     Remote.body_duration := JStr "30s" |}.

Definition portrait : Video :=
  {| video_id := 7;
     video_files := [ {| quality := "sd"; link := "https://videos.example/7-sd.mp4" |};
                      {| quality := "hd"; link := "https://videos.example/7-hd.mp4" |} ];
     video_duration := 12 |}.

Definition audio : Buffer := [Byte.x49; Byte.x44; Byte.x33].

(** Scenario A: every provider answers, the render is done at the third
    status request. *)
Definition remoteA : Remote.World :=
  {| Remote.openai := fun _ _ => Ok "Unlock amazing coffee brewing secrets";
     Remote.elevenlabs := fun _ _ => Ok audio;
     Remote.pexels := fun _ => Ok (Some [portrait]);
     Remote.shotstack_render := fun _ => Ok "render-1";
     Remote.shotstack_status := fun _ i =>
       if Nat.eqb i 2 then Remote.PollData "done" "https://cdn.example/render-1.mp4"
       else Remote.PollData "rendering" EmptyString |}.

(** Scenario B: the footage provider returns zero results. *)
Definition remoteB : Remote.World :=
  {| Remote.openai := Remote.openai remoteA;
     Remote.elevenlabs := Remote.elevenlabs remoteA;
     Remote.pexels := fun _ => Ok (Some []);
     Remote.shotstack_render := Remote.shotstack_render remoteA;
     Remote.shotstack_status := Remote.shotstack_status remoteA |}.

(** Scenario C: the render never reaches [done] or [failed]. *)
Definition remoteC : Remote.World :=
  {| Remote.openai := Remote.openai remoteA;
     Remote.elevenlabs := Remote.elevenlabs remoteA;
     Remote.pexels := Remote.pexels remoteA;
     Remote.shotstack_render := Remote.shotstack_render remoteA;
     Remote.shotstack_status := fun _ _ => Remote.PollData "rendering" EmptyString |}.

(** The voice provider refuses the request. *)
Definition remoteVoiceDown : Remote.World :=
  {| Remote.openai := Remote.openai remoteA;
     Remote.elevenlabs := fun _ _ => NotOk "quota exceeded";
     Remote.pexels := Remote.pexels remoteA;
     Remote.shotstack_render := Remote.shotstack_render remoteA;
     Remote.shotstack_status := Remote.shotstack_status remoteA |}.

Definition localBody : Local.CreateBody :=
  {| Local.body_script := JStr "coffee brewing";
     Local.body_template := JStr "fitness";
     Local.body_voice := JStr "male_1";
     Local.body_duration := JStr "30" |}.

(** Scenario A for the local encoder; the probe prints the duration. *)
Definition localA : Local.World :=
  {| Local.openai := fun _ _ => Ok "Unlock amazing coffee brewing secrets";
     Local.elevenlabs := fun _ _ => Ok audio;
     Local.writeFile := fun _ => None;
     Local.ffprobe := fun _ _ => Local.ExecOk "12.345000";
     Local.pexels := fun _ => Ok (Some [portrait]);
     Local.random := fun _ => 0;
     Local.fetchFile := fun _ => Return audio;
     Local.ffmpeg := fun _ => Local.ExecOk EmptyString;
     Local.numberText := fun _ => "12.345" |}.

(** Scenario B for the local encoder. *)
Definition localB : Local.World :=
  {| Local.openai := Local.openai localA;
     Local.elevenlabs := Local.elevenlabs localA;
     Local.writeFile := Local.writeFile localA;
     Local.ffprobe := Local.ffprobe localA;
     Local.pexels := fun _ => Ok (Some []);
     Local.random := Local.random localA;
     Local.fetchFile := Local.fetchFile localA;
     Local.ffmpeg := Local.ffmpeg localA;
     Local.numberText := Local.numberText localA |}.

(** The probe of the audio duration fails. *)
Definition localNoProbe : Local.World :=
  {| Local.openai := Local.openai localA;
     Local.elevenlabs := Local.elevenlabs localA;
     Local.writeFile := Local.writeFile localA;
     Local.ffprobe := fun _ _ => Local.ExecFail "ffprobe: not found";
     Local.pexels := Local.pexels localA;
     Local.random := Local.random localA;
     Local.fetchFile := Local.fetchFile localA;
     Local.ffmpeg := Local.ffmpeg localA;
     Local.numberText := Local.numberText localA |}.

(** The voice provider refuses the request. *)
Definition localVoiceDown : Local.World :=
  {| Local.openai := Local.openai localA;
     Local.elevenlabs := fun _ _ => NotOk "quota exceeded";
     Local.writeFile := Local.writeFile localA;
     Local.ffprobe := Local.ffprobe localA;
     Local.pexels := Local.pexels localA;
     Local.random := Local.random localA;
     Local.fetchFile := Local.fetchFile localA;
     Local.ffmpeg := Local.ffmpeg localA;
     Local.numberText := Local.numberText localA |}.

(** Only the probe of [processVideo] fails; the one of [combineAudioVideo]
    prints the duration.  The encoder accepts a command line only if it
    asks for 12.345 seconds. *)
Definition localProbeOnce : Local.World :=
  {| Local.openai := Local.openai localA;
     Local.elevenlabs := Local.elevenlabs localA;
     Local.writeFile := Local.writeFile localA;
     Local.ffprobe := fun n _ =>
       match n with
       | 0 => Local.ExecFail "ffprobe: Resource temporarily unavailable"
       | _ => Local.ExecOk "12.345000"
       end;
     Local.pexels := Local.pexels localA;
     Local.random := Local.random localA;
     Local.fetchFile := Local.fetchFile localA;
     Local.ffmpeg := fun command =>
       match String.index 0 " -t 12.345 " command with
       | Some _ => Local.ExecOk EmptyString
       | None => Local.ExecFail "unexpected duration"
       end;
     Local.numberText := Local.numberText localA |}.

(** Scenario A with a script of short words. *)
Definition remoteShortWords : Remote.World :=
  {| Remote.openai := fun _ _ => Ok "Go big or go home";
     Remote.elevenlabs := Remote.elevenlabs remoteA;
     Remote.pexels := Remote.pexels remoteA;
     Remote.shotstack_render := Remote.shotstack_render remoteA;
     Remote.shotstack_status := Remote.shotstack_status remoteA |}.

End Scenario.

(** ** The sweep of the temp directory (lines 672-689) *)
Module Sweep.

(** A time in milliseconds; [mtimeMs] has a fractional part. *)
Abbreviation Ms := QArith_base.Q.

(** What the file system answers: the [mtimeMs] that [fs.statSync] reads for
    a path, or the message of the error it throws; the message of the error
    that [fs.unlinkSync] throws for a path, if it does. *)
Record World : Type :=
  { statSync : string -> Result Ms;
    unlinkSync : string -> option string }.

Inductive Event : Type :=
| Unlinked (filePath : string)
| Logged (line : string)
| Errored (line : string) (message : string).

(** [path.join(TEMP_DIR, file)] for a name of the directory listing:
    [path.join] drops the leading ["./"]. *)
Definition filePath (file : string) : string := "temp/" +:+ file.

(** [a < b]. *)
Definition lessThan (a b : Ms) : bool := negb (QArith_base.Qle_bool b a).

(** The body of the [forEach] (lines 677-686). *)
Definition sweepFile (w : World) (oneHourAgo : Z) (file : string) : list Event :=
  match statSync w (filePath file) with
  | Throw m => [Errored ("Error cleaning up " +:+ file +:+ ":") m]
  | Return mtimeMs =>
      if lessThan mtimeMs (QArith_base.inject_Z oneHourAgo) then
        match unlinkSync w (filePath file) with
        | Some m => [Errored ("Error cleaning up " +:+ file +:+ ":") m]
        | None => [Unlinked (filePath file); Logged ("Cleaned up: " +:+ file)]
        end
      else []
  end.

(** One run of the interval callback: [now] is [Date.now()], [dirExists]
    what [fs.existsSync(TEMP_DIR)] answers and [entries] what
    [fs.readdirSync(TEMP_DIR)] lists. *)
Definition sweep (w : World) (now : Z) (dirExists : bool)
    (entries : list string) : list Event :=
  let oneHourAgo := (now - 60 * 60 * 1000)%Z in
  if dirExists then flat_map (sweepFile w oneHourAgo) entries else [].

(** The paths a run of the sweep removes, in order. *)
Definition unlinked (l : list Event) : list string :=
  omap (fun e => match e with Unlinked p => Some p | _ => None end) l.

End Sweep.

(** ** What holds of the job record along a run *)
Module RemoteData.
Import Remote.

(** The record of the job of request [b], id [jobId] and creation time
    [now] is well formed: the request's fields are as given, [hasAudio] tells
    whether the audio is there, an artifact is there only if those of the
    stages before it are, and the final URL is there exactly when the job
    is [completed]. *)
Record Sound (b : CreateBody) (jobId : string) (now : nat) (job : Job) : Prop :=
  { sound_id : id job = jobId;
    sound_input : inputScript job = body_script b;
    sound_template : template job = body_template b;
    sound_voice : voice job = body_voice b;
    sound_duration : duration job = body_duration b;
    sound_created : createdAt job = now;
    sound_audio : hasAudio job = true <-> is_Some (audioBuffer job);
    sound_script_first : is_Some (audioBuffer job) -> is_Some (generatedScript job);
    sound_audio_first : is_Some (clips job) -> is_Some (audioBuffer job);
    sound_clips_first : is_Some (videoUrl job) -> is_Some (clips job);
    sound_done : status job = completed <-> is_Some (videoUrl job) }.

(** The task and the store agree on the job, which is well formed. *)
Definition Kept (b : CreateBody) (jobId : string) (now : nat)
    (c : State * Task) : Prop :=
  exists job,
    jobs (fst c) !! jobId = Some job
    /\ Sound b jobId now job
    /\ match snd c with
       | Suspended j job' _ => j = jobId /\ job' = job
       | Finished => True
       end.

(** The task is over or belongs to job [jobId]. *)
Definition forJob (jobId : string) (t : Task) : Prop :=
  match t with
  | Suspended j _ _ => j = jobId
  | Finished => True
  end.

(** The [videoUrl] of the job is what [assembleVideo] returned for it. *)
Definition Rendered (w : World) (jobId : string) (c : State * Task) : Prop :=
  forall job url,
    jobs (fst c) !! jobId = Some job ->
    videoUrl job = Some url ->
    snd (assembleVideo w job) = Return url.

End RemoteData.

Module LocalData.
Import Local.

(** The paths of the files of job [jobId] besides the audio file. *)
Definition footageFile (jobId : string) : string :=
  TEMP_DIR +:+ "/" +:+ jobId +:+ "-footage.mp4".

Definition finalFile (jobId : string) : string :=
  TEMP_DIR +:+ "/" +:+ jobId +:+ "-final.mp4".

Definition downloadUrl (jobId : string) : string :=
  "/api/videos/" +:+ jobId +:+ "/download".

Record Sound (b : CreateBody) (jobId : string) (now : nat) (job : Job) : Prop :=
  { sound_id : id job = jobId;
    sound_input : script job = body_script b;
    sound_template : template job = body_template b;
    sound_voice : voice job = body_voice b;
    sound_duration : duration job = body_duration b;
    sound_created : createdAt job = now;
    sound_audio : hasAudio job = Some true <-> is_Some (audioPath job);
    sound_audio_path :
      forall path, audioPath job = Some path -> path = LocalRun.audioFile jobId;
    sound_footage_path :
      forall path, footagePath job = Some path -> path = footageFile jobId;
    sound_final_path :
      forall path, finalVideoPath job = Some path -> path = finalFile jobId;
    sound_url :
      forall url, videoUrl job = Some url -> url = downloadUrl jobId;
    sound_script_first : is_Some (audioPath job) -> is_Some (generatedScript job);
    sound_audio_first : is_Some (footagePath job) -> is_Some (audioPath job);
    sound_footage_first : is_Some (finalVideoPath job) -> is_Some (footagePath job);
    sound_done : status job = completed <-> is_Some (finalVideoPath job);
    sound_done_url : status job = completed <-> is_Some (videoUrl job) }.

(** The artifacts that are on the job while its task waits at [p]. *)
Definition present (p : Pending) (job : Job) : Prop :=
  match p with
  | PScript => True
  | PVoice _ | PProbe _ | PFootage _ _ => is_Some (generatedScript job)
  | PAssemble _ _ => is_Some (generatedScript job) /\ is_Some (footagePath job)
  end.

Definition Kept (b : CreateBody) (jobId : string) (now : nat)
    (c : State * Task) : Prop :=
  exists job,
    jobs (fst c) !! jobId = Some job
    /\ Sound b jobId now job
    /\ match snd c with
       | Suspended j job' p => j = jobId /\ job' = job /\ present p job
       | Finished => True
       end.

Definition forJob (jobId : string) (t : Task) : Prop :=
  match t with
  | Suspended j _ _ => j = jobId
  | Finished => True
  end.

(** The audio file that the record names is in the temp directory. *)
Definition audioPresent (jobId : string) (c : State * Task) : Prop :=
  forall job,
    jobs (fst c) !! jobId = Some job ->
    is_Some (audioPath job) ->
    is_Some (files (fst c) !! LocalRun.audioFile jobId).

End LocalData.

Module RemoteFacts.
Import Remote RemoteRun.

Lemma remote_log_emit e st : log (emit e st) = log st ++ [e].
Proof. reflexivity. Qed.

Lemma remote_log_jobsSet jobId job st : log (jobsSet jobId job st) = log st.
Proof. reflexivity. Qed.

Lemma remote_jobs_emit e st : jobs (emit e st) = jobs st.
Proof. reflexivity. Qed.

Lemma remote_jobs_jobsSet jobId job st :
  jobs (jobsSet jobId job st) = <[jobId := job]> (jobs st).
Proof. reflexivity. Qed.

Lemma remote_statusWrites_snoc jobId l e :
  statusWrites jobId (l ++ [e])
  = (statusWrites jobId l ++ statusWrites jobId [e])%list.
Proof. unfold statusWrites. apply omap_app. Qed.

Lemma remote_stagesCalled_snoc jobId l e :
  stagesCalled jobId (l ++ [e])
  = (stagesCalled jobId l ++ stagesCalled jobId [e])%list.
Proof. unfold stagesCalled. apply omap_app. Qed.

Lemma remote_statusWrites_status jobId s :
  statusWrites jobId [EvStatus jobId s] = [s].
Proof. unfold statusWrites. cbn. rewrite String.eqb_refl. reflexivity. Qed.

Lemma remote_stagesCalled_call jobId s :
  stagesCalled jobId [EvCall jobId s] = [s].
Proof. unfold stagesCalled. cbn. rewrite String.eqb_refl. reflexivity. Qed.

Lemma remote_statusWrites_other jobId e :
  match e with EvStatus _ _ => False | _ => True end ->
  statusWrites jobId [e] = [].
Proof. destruct e; simpl; intros H; try reflexivity; destruct H. Qed.

Lemma remote_stagesCalled_other jobId e :
  match e with EvCall _ _ => False | _ => True end ->
  stagesCalled jobId [e] = [].
Proof. destruct e; simpl; intros H; try reflexivity; destruct H. Qed.

(** Reading the trace of a state built by [emit] and [jobsSet]. *)
Ltac trace :=
  repeat first
    [ rewrite remote_log_jobsSet
    | rewrite remote_log_emit
    | rewrite remote_statusWrites_snoc
    | rewrite remote_stagesCalled_snoc
    | rewrite remote_statusWrites_status
    | rewrite remote_stagesCalled_call
    | rewrite remote_statusWrites_other by exact I
    | rewrite remote_stagesCalled_other by exact I
    | rewrite app_nil_r ].

Lemma remote_enter_job jobId s m job st :
  fst (enter jobId s m job st) = set_statusMessage m (set_status s job).
Proof. reflexivity. Qed.

Lemma remote_enter_state jobId s m job st :
  snd (enter jobId s m job st)
  = jobsSet jobId (set_statusMessage m (set_status s job))
            (emit (EvStatus jobId s) st).
Proof. reflexivity. Qed.

Lemma remote_lookup_jobsSet jobId job st :
  jobs (jobsSet jobId job st) !! jobId = Some job.
Proof. rewrite remote_jobs_jobsSet. apply lookup_insert_eq. Qed.

Lemma remote_lookup_jobsSet_ne jobId other job st :
  jobId <> other -> jobs (jobsSet jobId job st) !! other = jobs st !! other.
Proof. intros H. rewrite remote_jobs_jobsSet. apply lookup_insert_ne, H. Qed.

Lemma remote_lookup_emit e st jobId : jobs (emit e st) !! jobId = jobs st !! jobId.
Proof. reflexivity. Qed.

(** The state and the task right after the handler of a creation request. *)
Lemma remote_create_shape b jobId now st :
  create (Some b) jobId now st
  = (let job := set_statusMessage "AI is writing your script..."
                  (set_status generating_script (newJob b jobId now)) in
     (emit (EvResponse (RespCreated jobId queued))
        (emit (EvCall jobId StScript)
           (jobsSet jobId job
              (emit (EvStatus jobId generating_script)
                 (register b jobId now st)))),
      Suspended jobId job PScript,
      RespCreated jobId queued)).
Proof.
  unfold create, processVideo_start, register.
  rewrite (remote_lookup_jobsSet jobId (newJob b jobId now)).
  reflexivity.
Qed.

Lemma remote_inv_create b jobId now m :
  Inv jobId (fst (create (Some b) jobId now {| jobs := m; log := [] |})).
Proof.
  rewrite remote_create_shape. cbn [fst snd Inv]. split; [reflexivity|].
  unfold register.
  split; cbn [stageOf statusAt artifactsFrom artifactsBefore].
  - rewrite remote_lookup_emit, remote_lookup_emit. apply remote_lookup_jobsSet.
  - reflexivity.
  - trace. reflexivity.
  - trace. reflexivity.
  - repeat split.
  - exact I.
Qed.

Lemma remote_inv_resume w jobId st t :
  Inv jobId (st, t) -> Inv jobId (processVideo_resume w t st).
Proof.
  destruct t as [j job p|]; [|exact (fun H => H)].
  unfold Inv at 1; cbn [fst snd].
  intros [-> [Hstore Hstatus Hwrites Hcalled Hempty Hhave]].
  destruct p as [|script|script|]; cbn [stageOf] in *;
    unfold processVideo_resume.
  - destruct (generateScript w (inputScript job) (duration job)) as [script|msg].
    + cbn [Inv snd fst enter]. split; [reflexivity|].
      split; cbn [stageOf statusAt artifactsFrom artifactsBefore].
      * rewrite remote_lookup_emit. apply remote_lookup_jobsSet.
      * reflexivity.
      * trace. rewrite Hwrites. reflexivity.
      * trace. rewrite Hcalled. reflexivity.
      * destruct Hempty as (? & ? & ? & ? & ?). repeat split; assumption.
      * reflexivity.
    + unfold catch. cbn [Inv snd fst enter].
      eapply (EndedFailed _ _ _ StScript msg).
      * apply remote_lookup_jobsSet.
      * reflexivity.
      * reflexivity.
      * trace. rewrite Hwrites. reflexivity.
      * trace. rewrite Hcalled. reflexivity.
      * exact Hempty.
  - destruct (generateVoice w script (voice job)) as [bytes|msg].
    + cbn [Inv snd fst enter]. split; [reflexivity|].
      split; cbn [stageOf statusAt artifactsFrom artifactsBefore].
      * rewrite remote_lookup_emit. apply remote_lookup_jobsSet.
      * reflexivity.
      * trace. rewrite Hwrites. reflexivity.
      * trace. rewrite Hcalled. reflexivity.
      * destruct Hempty as (? & ? & ? & ?). repeat split; assumption.
      * cbn in Hhave. repeat split; [exact Hhave | eexists; reflexivity].
    + unfold catch. cbn [Inv snd fst enter].
      eapply (EndedFailed _ _ _ StVoice msg).
      * apply remote_lookup_jobsSet.
      * reflexivity.
      * reflexivity.
      * trace. rewrite Hwrites. reflexivity.
      * trace. rewrite Hcalled. reflexivity.
      * exact Hempty.
  - destruct (fetchStockFootage w script) as [cs|msg].
    + cbn [Inv snd fst enter]. split; [reflexivity|].
      split; cbn [stageOf statusAt artifactsFrom artifactsBefore].
      * rewrite remote_lookup_emit. apply remote_lookup_jobsSet.
      * reflexivity.
      * trace. rewrite Hwrites. reflexivity.
      * trace. rewrite Hcalled. reflexivity.
      * destruct Hempty as (? & ?). assumption.
      * destruct Hhave as (Hs & Ha & Hh). cbn.
        repeat split; [rewrite Hs; eexists; reflexivity | exact Ha | exact Hh
                      | eexists; reflexivity].
    + unfold catch. cbn [Inv snd fst enter].
      eapply (EndedFailed _ _ _ StFootage msg).
      * apply remote_lookup_jobsSet.
      * reflexivity.
      * reflexivity.
      * trace. rewrite Hwrites. reflexivity.
      * trace. rewrite Hcalled. reflexivity.
      * exact Hempty.
  - destruct (snd (assembleVideo w job)) as [url|msg].
    + cbn [Inv snd fst enter].
      eapply EndedCompleted.
      * apply remote_lookup_jobsSet.
      * reflexivity.
      * trace. rewrite Hwrites. reflexivity.
      * trace. rewrite Hcalled. reflexivity.
    + unfold catch. cbn [Inv snd fst enter].
      eapply (EndedFailed _ _ _ StAssemble msg).
      * apply remote_lookup_jobsSet.
      * reflexivity.
      * reflexivity.
      * trace. rewrite Hwrites. reflexivity.
      * trace. rewrite Hcalled. reflexivity.
      * exact Hempty.
Qed.

Lemma remote_inv_drive w jobId turns c :
  Inv jobId c -> Inv jobId (drive w turns c).
Proof.
  revert c. induction turns as [|n IH]; intros [st t] H; [exact H|].
  cbn [drive snd fst]. destruct t as [j job p|]; [|exact H].
  apply IH, remote_inv_resume, H.
Qed.

Lemma remote_inv_run w b jobId now m turns :
  Inv jobId (run w b jobId now m turns).
Proof. apply remote_inv_drive, remote_inv_create. Qed.

(** Every resumption takes the task one [await] further, or ends it. *)
Lemma remote_resume_progress w t st :
  awaitsLeft (snd (processVideo_resume w t st)) <= pred (awaitsLeft t).
Proof.
  destruct t as [j job [|script|script|]|]; cbn [processVideo_resume];
    [ destruct (generateScript w (inputScript job) (duration job))
    | destruct (generateVoice w script (voice job))
    | destruct (fetchStockFootage w script)
    | destruct (snd (assembleVideo w job))
    | ]; cbn; lia.
Qed.

Lemma remote_drive_finishes w turns c :
  awaitsLeft (snd c) <= turns -> snd (drive w turns c) = Finished.
Proof.
  revert c. induction turns as [|n IH]; intros [st t] H; cbn [snd] in H.
  - destruct t as [j job [| | |]|]; cbn in H; try lia. reflexivity.
  - cbn [drive snd fst]. destruct t as [j job p|]; [|reflexivity].
    apply IH.
    pose proof (remote_resume_progress w (Suspended j job p) st). lia.
Qed.

Lemma remote_drive_finished w turns st :
  drive w turns (st, Finished) = (st, Finished).
Proof. destruct turns; reflexivity. Qed.

Lemma remote_run_finishes w b jobId now m k :
  snd (run w b jobId now m (4 + k)) = Finished.
Proof.
  apply remote_drive_finishes. rewrite remote_create_shape. cbn. lia.
Qed.

(** When the awaited call throws, the task goes to the [catch] block. *)
Lemma remote_resume_thrown w jobId job p st msg :
  thrown w job p = Some msg ->
  processVideo_resume w (Suspended jobId job p) st
  = catch jobId job msg (emit (EvSettled jobId (stageOf p) false) st).
Proof.
  destruct p as [|script|script|]; cbn [thrown processVideo_resume stageOf].
  - destruct (generateScript w (inputScript job) (duration job));
      intros [= ->]; reflexivity.
  - destruct (generateVoice w script (voice job)); intros [= ->]; reflexivity.
  - destruct (fetchStockFootage w script); intros [= ->]; reflexivity.
  - destruct (snd (assembleVideo w job)); intros [= ->]; reflexivity.
Qed.

(** What the [catch] block leaves. *)
Lemma remote_catch_spec jobId job msg st :
  let c := catch jobId job msg st in
  snd c = Finished
  /\ jobs (fst c) !! jobId
     = Some (set_statusMessage ("Error: " +:+ msg) (set_status failed job))
  /\ log (fst c) = log st ++ [EvStatus jobId failed].
Proof. cbn. split; [reflexivity|]. split; [apply lookup_insert_eq|reflexivity]. Qed.

Lemma remote_drive_S w n st jobId job p :
  drive w (S n) (st, Suspended jobId job p)
  = drive w n (processVideo_resume w (Suspended jobId job p) st).
Proof. reflexivity. Qed.

(** The footage stage going well. *)
Lemma remote_resume_footage w jobId job script st cs :
  fetchStockFootage w script = Return cs ->
  processVideo_resume w (Suspended jobId job (PFootage script)) st
  = (let job0 := set_clips (Some cs) job in
     let job1 := set_statusMessage "Assembling your video..."
                   (set_status assembling_video job0) in
     (emit (EvCall jobId StAssemble)
        (jobsSet jobId job1
           (emit (EvStatus jobId assembling_video)
              (jobsSet jobId job0 (emit (EvSettled jobId StFootage true) st)))),
      Suspended jobId job1 PAssemble)).
Proof. intros H. cbn [processVideo_resume]. rewrite H. reflexivity. Qed.

End RemoteFacts.

Module LocalFacts.
Import Local LocalRun.

Lemma local_log_emit e st : log (emit e st) = log st ++ [e].
Proof. reflexivity. Qed.

Lemma local_log_jobsSet jobId job st : log (jobsSet jobId job st) = log st.
Proof. reflexivity. Qed.

Lemma local_log_withFiles fs st : log (withFiles fs st) = log st.
Proof. reflexivity. Qed.

Lemma local_statusWrites_snoc jobId l e :
  statusWrites jobId (l ++ [e]) = statusWrites jobId l ++ statusWrites jobId [e].
Proof. unfold statusWrites. apply omap_app. Qed.

Lemma local_stagesCalled_snoc jobId l e :
  stagesCalled jobId (l ++ [e]) = stagesCalled jobId l ++ stagesCalled jobId [e].
Proof. unfold stagesCalled. apply omap_app. Qed.

Lemma local_statusWrites_status jobId s :
  statusWrites jobId [EvStatus jobId s] = [s].
Proof. unfold statusWrites. cbn. rewrite String.eqb_refl. reflexivity. Qed.

Lemma local_stagesCalled_call jobId s :
  stagesCalled jobId [EvCall jobId s] = [s].
Proof. unfold stagesCalled. cbn. rewrite String.eqb_refl. reflexivity. Qed.

Lemma local_statusWrites_other jobId e :
  match e with EvStatus _ _ => False | _ => True end ->
  statusWrites jobId [e] = [].
Proof. destruct e; simpl; intros H; try reflexivity; destruct H. Qed.

Lemma local_stagesCalled_other jobId e :
  match e with EvCall _ _ => False | _ => True end ->
  stagesCalled jobId [e] = [].
Proof. destruct e; simpl; intros H; try reflexivity; destruct H. Qed.

Ltac trace :=
  repeat first
    [ rewrite local_log_jobsSet
    | rewrite local_log_emit
    | rewrite local_log_withFiles
    | rewrite local_statusWrites_snoc
    | rewrite local_stagesCalled_snoc
    | rewrite local_statusWrites_status
    | rewrite local_stagesCalled_call
    | rewrite local_statusWrites_other by exact I
    | rewrite local_stagesCalled_other by exact I
    | rewrite app_nil_r ].

Lemma local_lookup_jobsSet jobId job st :
  jobs (jobsSet jobId job st) !! jobId = Some job.
Proof. apply lookup_insert_eq. Qed.

Lemma local_lookup_jobsSet_ne jobId other job st :
  jobId <> other -> jobs (jobsSet jobId job st) !! other = jobs st !! other.
Proof. intros H. apply lookup_insert_ne, H. Qed.

(** The audio file and the footage file of a job are two files. *)
Lemma local_audio_not_footage jobId :
  TEMP_DIR +:+ "/" +:+ jobId +:+ "-footage.mp4" <> audioFile jobId.
Proof.
  unfold audioFile. intros H.
  apply (inj (String.app TEMP_DIR)) in H.
  apply (inj (String.app "/")) in H.
  apply (inj (String.app jobId)) in H.
  discriminate H.
Qed.

(** [fetchStockFootage] leaves the audio file as it is. *)
Lemma local_footage_keeps_audio w template d jobId fs :
  snd (fetchStockFootage w template d jobId fs) !! audioFile jobId
  = fs !! audioFile jobId.
Proof.
  unfold fetchStockFootage.
  destruct (pexels w _) as [m|t|[[|v vs]|]]; try reflexivity.
  destruct ((v :: vs) !! _) as [randomVideo|]; [|reflexivity].
  destruct (match findHd _ with Some f => Some f | None => _ end) as [f|];
    [|reflexivity].
  destruct (fetchFile w (link f)) as [buf|m]; [|reflexivity].
  unfold writeFileSync. destruct (writeFile w _) as [m|]; [reflexivity|].
  cbn [snd fst]. apply lookup_insert_ne, local_audio_not_footage.
Qed.

Lemma local_create_shape b jobId now st :
  create (Some b) jobId now st
  = (let job := set_statusMessage "Creating AI script..."
                  (set_status generating_script (newJob b jobId now)) in
     (emit (EvResponse (RespCreated jobId pending))
        (emit (EvCall jobId StScript)
           (jobsSet jobId job
              (emit (EvStatus jobId generating_script)
                 (register b jobId now st)))),
      Suspended jobId job PScript,
      Some (RespCreated jobId pending))).
Proof.
  unfold create, processVideo_start, register.
  rewrite (local_lookup_jobsSet jobId (newJob b jobId now)).
  reflexivity.
Qed.

Lemma local_inv_create b jobId now m fs :
  Inv jobId
    (fst (create (Some b) jobId now {| jobs := m; files := fs; log := [] |})).
Proof.
  rewrite local_create_shape. cbn [fst snd Inv]. split; [reflexivity|].
  unfold register.
  split; cbn [stageOf nextStage statusOf artifactsFrom audioKept].
  - apply local_lookup_jobsSet.
  - reflexivity.
  - trace. reflexivity.
  - trace. reflexivity.
  - repeat split.
  - exact I.
Qed.

Lemma local_inv_resume w jobId st t :
  Inv jobId (st, t) -> Inv jobId (processVideo_resume w t st).
Proof.
  destruct t as [j job p|]; [|exact (fun H => H)].
  unfold Inv at 1; cbn [fst snd].
  intros [-> [Hstore Hstatus Hwrites Hcalled Hempty Haudio]].
  destruct p as [|gs|a|a d|a v]; cbn [stageOf nextStage] in *;
    unfold processVideo_resume.
  - destruct (generateScript w (script job) (duration job)) as [gs|msg].
    + cbn [Inv snd fst enter]. split; [reflexivity|].
      split; cbn [stageOf nextStage statusOf artifactsFrom audioKept].
      * apply local_lookup_jobsSet.
      * reflexivity.
      * trace. rewrite Hwrites. reflexivity.
      * trace. rewrite Hcalled. reflexivity.
      * destruct Hempty as (? & ? & ? & ? & ? & ?). repeat split; assumption.
      * exact I.
    + unfold catch. cbn [Inv snd fst enter].
      eapply (EndedFailed _ _ _ StScript msg).
      * apply local_lookup_jobsSet.
      * reflexivity.
      * reflexivity.
      * trace. rewrite Hwrites. reflexivity.
      * trace. rewrite Hcalled. reflexivity.
      * exact Hempty.
  - destruct (generateVoice w gs (voice job)) as [bytes|msg].
    + unfold writeFileSync. destruct (writeFile w _) as [msg|].
      * unfold catch. cbn [Inv snd fst enter].
        eapply (EndedFailed _ _ _ StVoice msg).
        -- apply local_lookup_jobsSet.
        -- reflexivity.
        -- reflexivity.
        -- trace. rewrite Hwrites. reflexivity.
        -- trace. rewrite Hcalled. reflexivity.
        -- exact Hempty.
      * cbn [Inv snd fst]. split; [reflexivity|].
        split; cbn [stageOf nextStage statusOf artifactsFrom audioKept].
        -- apply local_lookup_jobsSet.
        -- exact Hstatus.
        -- trace. exact Hwrites.
        -- trace. exact Hcalled.
        -- destruct Hempty as (? & ? & ? & ? & ?). repeat split; assumption.
        -- repeat split. cbn. rewrite lookup_insert_eq. eexists; reflexivity.
    + unfold catch. cbn [Inv snd fst enter].
      eapply (EndedFailed _ _ _ StVoice msg).
      * apply local_lookup_jobsSet.
      * reflexivity.
      * reflexivity.
      * trace. rewrite Hwrites. reflexivity.
      * trace. rewrite Hcalled. reflexivity.
      * exact Hempty.
  - cbn [Inv snd fst enter]. split; [reflexivity|].
    split; cbn [stageOf nextStage statusOf artifactsFrom audioKept].
    + apply local_lookup_jobsSet.
    + reflexivity.
    + trace. rewrite Hwrites. reflexivity.
    + trace. rewrite Hcalled. reflexivity.
    + exact Hempty.
    + exact Haudio.
  - destruct Haudio as (-> & Hpath & Hhas & Hfile).
    pose proof (local_footage_keeps_audio w (template job) d jobId (files st)) as Hkeep.
    destruct (fetchStockFootage w (template job) d jobId (files st))
      as [[videoPath|msg] fs]; cbn [snd] in Hkeep.
    + cbn [Inv snd fst enter]. split; [reflexivity|].
      split; cbn [stageOf nextStage statusOf artifactsFrom audioKept].
      * apply local_lookup_jobsSet.
      * reflexivity.
      * trace. rewrite Hwrites. reflexivity.
      * trace. rewrite Hcalled. reflexivity.
      * destruct Hempty as (? & ? & ?). split; assumption.
      * repeat split; [exact Hpath | exact Hhas |]. cbn. rewrite Hkeep. exact Hfile.
    + unfold catch. cbn [Inv snd fst enter].
      eapply (EndedFailed _ _ _ StFootage msg).
      * apply local_lookup_jobsSet.
      * reflexivity.
      * reflexivity.
      * trace. rewrite Hwrites. reflexivity.
      * trace. rewrite Hcalled. reflexivity.
      * exact Hempty.
  - destruct (combineAudioVideo w a v jobId) as [final|msg].
    + cbn [Inv snd fst enter].
      eapply EndedCompleted.
      * apply local_lookup_jobsSet.
      * reflexivity.
      * trace. rewrite Hwrites. reflexivity.
      * trace. rewrite Hcalled. reflexivity.
    + unfold catch. cbn [Inv snd fst enter].
      eapply (EndedFailed _ _ _ StAssemble msg).
      * apply local_lookup_jobsSet.
      * reflexivity.
      * reflexivity.
      * trace. rewrite Hwrites. reflexivity.
      * trace. rewrite Hcalled. reflexivity.
      * exact Hempty.
Qed.

Lemma local_inv_drive w jobId turns c :
  Inv jobId c -> Inv jobId (drive w turns c).
Proof.
  revert c. induction turns as [|n IH]; intros [st t] H; [exact H|].
  cbn [drive snd fst]. destruct t as [j job p|]; [|exact H].
  apply IH, local_inv_resume, H.
Qed.

Lemma local_inv_run w b jobId now m fs turns :
  Inv jobId (run w b jobId now m fs turns).
Proof. apply local_inv_drive, local_inv_create. Qed.

Lemma local_resume_progress w t st :
  awaitsLeft (snd (processVideo_resume w t st)) <= pred (awaitsLeft t).
Proof.
  destruct t as [j job [|gs|a|a d|a v]|]; cbn [processVideo_resume].
  - destruct (generateScript w (script job) (duration job)); cbn; lia.
  - destruct (generateVoice w gs (voice job)); [|cbn; lia].
    destruct (writeFileSync w _ _ _) as [[|] ?]; cbn; lia.
  - cbn; lia.
  - destruct (fetchStockFootage w _ _ _ _) as [[|] ?]; cbn; lia.
  - destruct (combineAudioVideo w a v j); cbn; lia.
  - cbn; lia.
Qed.

Lemma local_drive_finishes w turns c :
  awaitsLeft (snd c) <= turns -> snd (drive w turns c) = Finished.
Proof.
  revert c. induction turns as [|n IH]; intros [st t] H; cbn [snd] in H.
  - destruct t as [j job [| | | |]|]; cbn in H; try lia. reflexivity.
  - cbn [drive snd fst]. destruct t as [j job p|]; [|reflexivity].
    apply IH.
    pose proof (local_resume_progress w (Suspended j job p) st). lia.
Qed.

Lemma local_drive_finished w turns st :
  drive w turns (st, Finished) = (st, Finished).
Proof. destruct turns; reflexivity. Qed.

Lemma local_run_finishes w b jobId now m fs k :
  snd (run w b jobId now m fs (5 + k)) = Finished.
Proof.
  apply local_drive_finishes. rewrite local_create_shape. cbn. lia.
Qed.

(** When the awaited call throws, or the write that follows the voice call,
    the task goes to the [catch] block; the state it finds there has the
    status writes and the calls of the state before. *)
Lemma local_resume_thrown w jobId job p st msg :
  thrown w jobId job p (files st) = Some msg ->
  exists st0,
    processVideo_resume w (Suspended jobId job p) st = catch jobId job msg st0
    /\ statusWrites jobId (log st0) = statusWrites jobId (log st)
    /\ stagesCalled jobId (log st0) = stagesCalled jobId (log st).
Proof.
  destruct p as [|gs|a|a d|a v]; cbn [thrown processVideo_resume].
  - destruct (generateScript w (script job) (duration job)); intros [= ->].
    eexists; split; [reflexivity|]. split; trace; reflexivity.
  - destruct (generateVoice w gs (voice job)) as [bytes|m].
    + unfold audioFile. cbn [files emit].
      destruct (writeFileSync w _ bytes (files st)) as [[[]|m] fs];
        cbn [fst]; intros [= ->].
      eexists; split; [reflexivity|]. split; trace; reflexivity.
    + intros [= ->].
      eexists; split; [reflexivity|]. split; trace; reflexivity.
  - discriminate.
  - destruct (fetchStockFootage w (template job) d jobId (files st))
      as [[videoPath|m] fs]; cbn [fst]; intros [= ->].
    eexists; split; [reflexivity|]. split; trace; reflexivity.
  - destruct (combineAudioVideo w a v jobId); intros [= ->].
    eexists; split; [reflexivity|]. split; trace; reflexivity.
Qed.

Lemma local_catch_spec jobId job msg st :
  let c := catch jobId job msg st in
  snd c = Finished
  /\ jobs (fst c) !! jobId
     = Some (set_statusMessage ("Error: " +:+ msg) (set_status failed job))
  /\ log (fst c) = log st ++ [EvStatus jobId failed].
Proof. cbn. split; [reflexivity|]. split; [apply lookup_insert_eq|reflexivity]. Qed.

End LocalFacts.

(** ** The properties of the specification *)

Lemma pair_of_snd {A B : Type} (c : A * B) (b : B) :
  snd c = b -> c = (fst c, b).
Proof. intros <-. destruct c; reflexivity. Qed.

Lemma append_nil_r (s : string) : s +:+ EmptyString = s.
Proof.
  induction s as [|c s IH]; [reflexivity|].
  change (String c (s +:+ EmptyString) = String c s). rewrite IH. reflexivity.
Qed.

Lemma append_assoc (a b c : string) : (a +:+ b) +:+ c = a +:+ (b +:+ c).
Proof.
  induction a as [|x a IH]; [reflexivity|].
  change (String x ((a +:+ b) +:+ c) = String x (a +:+ (b +:+ c))).
  rewrite IH. reflexivity.
Qed.

Lemma contains_suffix pre needle : contains (pre +:+ needle) needle.
Proof. exists pre, EmptyString. rewrite append_nil_r. reflexivity. Qed.

(** Checks one explicit sequence of status values. *)
Ltac check_sequence :=
  cbn;
  repeat match goal with
         | |- _ /\ _ => split
         | |- True => exact I
         | |- ?a = ?a -> _ => intros _
         | |- allowed _ _ =>
             first [ left; reflexivity | right; split; reflexivity ]
         | |- StronglySorted _ _ => constructor
         | |- Forall _ _ => constructor
         | |- (_ < _)%nat => cbn; lia
         | |- _ = _ => reflexivity
         | |- exists s, _ => eexists
         end.

Lemma remote_writes_ordered jobId c :
  RemoteRun.Inv jobId c ->
  let ws := Remote.statusWrites jobId (Remote.log (fst c)) in
  head ws = Some queued /\ forward ws
  /\ StronglySorted (fun a b => rank a < rank b) ws
  /\ (exists job, Remote.jobs (fst c) !! jobId = Some job
                  /\ last ws = Some (Remote.status job))
  /\ (snd c = Remote.Finished ->
      exists s, last ws = Some s /\ terminal s = true).
Proof.
  destruct c as [st [j job p|]]; unfold RemoteRun.Inv; cbn [fst snd].
  - intros [_ [Hstore Hstatus -> _ _ _]].
    assert (Hseen : exists job0, Remote.jobs st !! jobId = Some job0
                                /\ Remote.status job0 = Remote.status job)
      by (exists job; split; [exact Hstore | reflexivity]).
    rewrite Hstatus in Hseen. clear Hstore Hstatus.
    destruct Hseen as (job0 & Hstore & Hstatus).
    destruct p; check_sequence;
      first [ discriminate | exact Hstore | rewrite Hstatus; reflexivity ].
  - intros [job Hstore Hstatus -> _|job s msg Hstore Hstatus _ -> _ _];
      [|destruct s]; check_sequence;
      first [ exact Hstore | rewrite Hstatus; reflexivity ].
Qed.

Lemma local_writes_ordered jobId c :
  LocalRun.Inv jobId c ->
  let ws := Local.statusWrites jobId (Local.log (fst c)) in
  head ws = Some pending /\ forward ws
  /\ StronglySorted (fun a b => rank a < rank b) ws
  /\ (exists job, Local.jobs (fst c) !! jobId = Some job
                  /\ last ws = Some (Local.status job))
  /\ (snd c = Local.Finished ->
      exists s, last ws = Some s /\ terminal s = true).
Proof.
  destruct c as [st [j job p|]]; unfold LocalRun.Inv; cbn [fst snd].
  - intros [_ [Hstore Hstatus -> _ _ _]].
    assert (Hseen : exists job0, Local.jobs st !! jobId = Some job0
                                /\ Local.status job0 = Local.status job)
      by (exists job; split; [exact Hstore | reflexivity]).
    rewrite Hstatus in Hseen. clear Hstore Hstatus.
    destruct Hseen as (job0 & Hstore & Hstatus).
    destruct p; check_sequence;
      first [ discriminate | exact Hstore | rewrite Hstatus; reflexivity ].
  - intros [job Hstore Hstatus -> _|job s msg Hstore Hstatus _ -> _ _];
      [|destruct s]; check_sequence;
      first [ exact Hstore | rewrite Hstatus; reflexivity ].
Qed.

(** C1.  In both versions the status values written for a job, from its
    creation and after any number of resumptions of its pipeline, start
    with the initial state ([queued], resp. [pending]), move only by the
    transitions of the forward order (to the next state, or from a state
    that is not terminal to [failed]), and never come back to an earlier
    state; the job in the store, which the status route reports, has the
    last value written; the pipeline is over after four (resp. five)
    resumptions, and the last value written is then [completed] or
    [failed]. *)
Theorem status_sequence_forward :
  (forall (w : Remote.World) b jobId now m turns,
     let c := RemoteRun.run w b jobId now m turns in
     let ws := Remote.statusWrites jobId (Remote.log (fst c)) in
     head ws = Some queued /\ forward ws
     /\ StronglySorted (fun a b => rank a < rank b) ws
     /\ exists job, Remote.jobs (fst c) !! jobId = Some job
                    /\ last ws = Some (Remote.status job))
  /\ (forall (w : Remote.World) b jobId now m k,
     let c := RemoteRun.run w b jobId now m (4 + k) in
     let ws := Remote.statusWrites jobId (Remote.log (fst c)) in
     snd c = Remote.Finished
     /\ exists s, last ws = Some s /\ terminal s = true)
  /\ (forall (w : Local.World) b jobId now m fs turns,
     let c := LocalRun.run w b jobId now m fs turns in
     let ws := Local.statusWrites jobId (Local.log (fst c)) in
     head ws = Some pending /\ forward ws
     /\ StronglySorted (fun a b => rank a < rank b) ws
     /\ exists job, Local.jobs (fst c) !! jobId = Some job
                    /\ last ws = Some (Local.status job))
  /\ (forall (w : Local.World) b jobId now m fs k,
     let c := LocalRun.run w b jobId now m fs (5 + k) in
     let ws := Local.statusWrites jobId (Local.log (fst c)) in
     snd c = Local.Finished
     /\ exists s, last ws = Some s /\ terminal s = true).
Proof.
  split; [|split; [|split]].
  - intros w b jobId now m turns c ws.
    destruct (remote_writes_ordered jobId c
                (RemoteFacts.remote_inv_run w b jobId now m turns))
      as (H1 & H2 & H3 & H4 & _).
    auto.
  - intros w b jobId now m k c ws.
    pose proof (RemoteFacts.remote_run_finishes w b jobId now m k) as Hfin.
    destruct (remote_writes_ordered jobId c
                (RemoteFacts.remote_inv_run w b jobId now m (4 + k)))
      as (_ & _ & _ & _ & H5).
    split; [exact Hfin | exact (H5 Hfin)].
  - intros w b jobId now m fs turns c ws.
    destruct (local_writes_ordered jobId c
                (LocalFacts.local_inv_run w b jobId now m fs turns))
      as (H1 & H2 & H3 & H4 & _).
    auto.
  - intros w b jobId now m fs k c ws.
    pose proof (LocalFacts.local_run_finishes w b jobId now m fs k) as Hfin.
    destruct (local_writes_ordered jobId c
                (LocalFacts.local_inv_run w b jobId now m fs (5 + k)))
      as (_ & _ & _ & _ & H5).
    split; [exact Hfin | exact (H5 Hfin)].
Qed.

(** C2.  In both versions: when the task of a job waits at a stage and the
    awaited adapter call throws an error (for the voice stage of the local
    version also the write of the audio file that follows the call), the
    resumption ends the task for good, leaves the job with status [failed]
    and with the status message ["Error: "] followed by the error's
    message, which it therefore contains, calls the adapter of no later
    stage, and leaves the artifact fields of the failing stage and of the
    stages after it empty. *)
Theorem stage_failure_halts :
  (forall (w : Remote.World) b jobId now m turns st job p msg,
     RemoteRun.run w b jobId now m turns = (st, Remote.Suspended jobId job p) ->
     RemoteRun.thrown w job p = Some msg ->
     let c := Remote.processVideo_resume w (Remote.Suspended jobId job p) st in
     snd c = Remote.Finished
     /\ (forall n, Remote.drive w n c = c)
     /\ exists job',
         Remote.jobs (fst c) !! jobId = Some job'
         /\ Remote.status job' = failed
         /\ Remote.statusMessage job' = "Error: " +:+ msg
         /\ contains (Remote.statusMessage job') msg
         /\ Remote.stagesCalled jobId (Remote.log (fst c))
            = RemoteRun.stagesUpTo (Remote.stageOf p)
         /\ RemoteRun.artifactsFrom (Remote.stageOf p) job')
  /\ (forall (w : Local.World) b jobId now m fs turns st job p msg,
     LocalRun.run w b jobId now m fs turns = (st, Local.Suspended jobId job p) ->
     LocalRun.thrown w jobId job p (Local.files st) = Some msg ->
     let c := Local.processVideo_resume w (Local.Suspended jobId job p) st in
     snd c = Local.Finished
     /\ (forall n, Local.drive w n c = c)
     /\ exists job',
         Local.jobs (fst c) !! jobId = Some job'
         /\ Local.status job' = failed
         /\ Local.statusMessage job' = "Error: " +:+ msg
         /\ contains (Local.statusMessage job') msg
         /\ Local.stagesCalled jobId (Local.log (fst c))
            = LocalRun.stagesUpTo (LocalRun.stageOf p)
         /\ LocalRun.artifactsFrom (LocalRun.nextStage p) job').
Proof.
  split.
  - intros w b jobId now m turns st job p msg Hrun Hthrown c.
    pose proof (RemoteFacts.remote_inv_run w b jobId now m turns) as Hinv.
    rewrite Hrun in Hinv. destruct Hinv as [_ [_ _ _ Hcalled Hempty _]].
    subst c. rewrite (RemoteFacts.remote_resume_thrown _ _ _ _ _ _ Hthrown).
    destruct (RemoteFacts.remote_catch_spec jobId job msg
                (Remote.emit (Remote.EvSettled jobId (Remote.stageOf p) false) st))
      as (Hfin & Hjob & Hlog).
    split; [exact Hfin|]. split.
    { intros n. destruct (Remote.catch _ _ _ _) as [st' t']. cbn in Hfin.
      subst t'. apply RemoteFacts.remote_drive_finished. }
    eexists. split; [exact Hjob|].
    split; [reflexivity|]. split; [reflexivity|].
    split; [apply contains_suffix|]. split.
    + rewrite Hlog. cbn [fst snd] in *.
      RemoteFacts.trace. exact Hcalled.
    + destruct p; exact Hempty.
  - intros w b jobId now m fs turns st job p msg Hrun Hthrown c.
    pose proof (LocalFacts.local_inv_run w b jobId now m fs turns) as Hinv.
    rewrite Hrun in Hinv. destruct Hinv as [_ [_ _ _ Hcalled Hempty _]].
    subst c.
    destruct (LocalFacts.local_resume_thrown _ _ _ _ _ _ Hthrown)
      as (st0 & -> & _ & Hcalled0).
    destruct (LocalFacts.local_catch_spec jobId job msg st0)
      as (Hfin & Hjob & Hlog).
    split; [exact Hfin|]. split.
    { intros n. destruct (Local.catch _ _ _ _) as [st' t']. cbn in Hfin.
      subst t'. apply LocalFacts.local_drive_finished. }
    eexists. split; [exact Hjob|].
    split; [reflexivity|]. split; [reflexivity|].
    split; [apply contains_suffix|]. split.
    + rewrite Hlog. cbn [fst snd] in *.
      LocalFacts.trace. rewrite Hcalled0. exact Hcalled.
    + destruct p; exact Hempty.
Qed.

(** The voice provider refuses the request of a job: the job ends [failed]
    with the provider's text in its message. *)
Lemma stage_failure_halts_witness :
  let w := Scenario.remoteVoiceDown in
  let c0 := RemoteRun.run w Scenario.body "job-1" 0 ∅ 1 in
  exists job script,
    snd c0 = Remote.Suspended "job-1" job (Remote.PVoice script)
    /\ RemoteRun.thrown w job (Remote.PVoice script)
       = Some "ElevenLabs error: quota exceeded"
    /\ let c := Remote.processVideo_resume w
                  (Remote.Suspended "job-1" job (Remote.PVoice script)) (fst c0) in
       snd c = Remote.Finished
       /\ exists job',
           Remote.jobs (fst c) !! "job-1" = Some job'
           /\ Remote.status job' = failed
           /\ Remote.statusMessage job'
              = "Error: ElevenLabs error: quota exceeded".
Proof.
  cbv zeta. do 2 eexists.
  match goal with
  | |- ?A /\ ?B /\ _ =>
      assert (Hsnd : A) by (vm_compute; reflexivity);
      assert (Hthrown : B) by (vm_compute; reflexivity)
  end.
  split; [exact Hsnd|]. split; [exact Hthrown|].
  destruct (proj1 stage_failure_halts _ _ _ _ _ _ _ _ _ _
              (pair_of_snd _ _ Hsnd) Hthrown)
    as (Hfin & _ & job' & Hjob & Hstatus & Hmsg & _).
  split; [exact Hfin|]. exists job'. auto.
Defined.

(** C3.  In both versions, for a creation request with a body and an id
    that no job has yet: the handler registers under that id the job of the
    job literal, in the initial state ([queued], resp. [pending]) and with
    no artifact, so the store has one job more and the other jobs are as
    they were; it answers [{jobId, status}] with the initial status and code
    200; and when it answers the pipeline has only entered its first stage:
    the trace is the initial status, [generating_script], the call of the
    script adapter and the response, no awaited call has settled, the task
    waits for the script and the job still has no artifact. *)
Theorem create_returns_before_any_stage :
  (forall b jobId now (m : gmap string Remote.Job),
     m !! jobId = None ->
     let st0 := {| Remote.jobs := m; Remote.log := [] |} in
     let r := snd (Remote.create (Some b) jobId now st0) in
     let st := fst (fst (Remote.create (Some b) jobId now st0)) in
     let t := snd (fst (Remote.create (Some b) jobId now st0)) in
     Remote.jobs (Remote.register b jobId now st0) !! jobId
     = Some (Remote.newJob b jobId now)
     /\ Remote.status (Remote.newJob b jobId now) = queued
     /\ Remote.id (Remote.newJob b jobId now) = jobId
     /\ RemoteRun.artifactsFrom StScript (Remote.newJob b jobId now)
     /\ size (Remote.jobs st) = S (size m)
     /\ (forall other, other <> jobId -> Remote.jobs st !! other = m !! other)
     /\ r = Remote.RespCreated jobId queued /\ Remote.code r = 200%N
     /\ Remote.log st
        = [Remote.EvStatus jobId queued; Remote.EvStatus jobId generating_script;
           Remote.EvCall jobId StScript; Remote.EvResponse r]
     /\ exists job,
         t = Remote.Suspended jobId job Remote.PScript
         /\ Remote.jobs st !! jobId = Some job
         /\ Remote.status job = generating_script
         /\ RemoteRun.artifactsFrom StScript job)
  /\ (forall b jobId now (m : gmap string Local.Job) fs,
     m !! jobId = None ->
     let st0 := {| Local.jobs := m; Local.files := fs; Local.log := [] |} in
     let r := snd (Local.create (Some b) jobId now st0) in
     let st := fst (fst (Local.create (Some b) jobId now st0)) in
     let t := snd (fst (Local.create (Some b) jobId now st0)) in
     Local.jobs (Local.register b jobId now st0) !! jobId
     = Some (Local.newJob b jobId now)
     /\ Local.status (Local.newJob b jobId now) = pending
     /\ Local.id (Local.newJob b jobId now) = jobId
     /\ LocalRun.artifactsFrom StScript (Local.newJob b jobId now)
     /\ size (Local.jobs st) = S (size m)
     /\ (forall other, other <> jobId -> Local.jobs st !! other = m !! other)
     /\ r = Some (Local.RespCreated jobId pending)
     /\ Local.code (Local.RespCreated jobId pending) = 200%N
     /\ Local.log st
        = [Local.EvStatus jobId pending; Local.EvStatus jobId generating_script;
           Local.EvCall jobId StScript;
           Local.EvResponse (Local.RespCreated jobId pending)]
     /\ exists job,
         t = Local.Suspended jobId job Local.PScript
         /\ Local.jobs st !! jobId = Some job
         /\ Local.status job = generating_script
         /\ LocalRun.artifactsFrom StScript job).
Proof.
  split.
  - intros b jobId now m Hfresh st0 r st t. subst r st t.
    rewrite RemoteFacts.remote_create_shape. cbn [fst snd].
    split; [apply lookup_insert_eq|].
    split; [reflexivity|]. split; [reflexivity|].
    split; [repeat split|]. split.
    { cbn. rewrite insert_insert_eq. apply map_size_insert_None, Hfresh. }
    split.
    { intros other Hne. cbn.
      rewrite !lookup_insert_ne by (intros E; apply Hne; symmetry; exact E).
      reflexivity. }
    split; [reflexivity|]. split; [reflexivity|]. split; [reflexivity|].
    eexists. split; [reflexivity|].
    split; [apply lookup_insert_eq|]. split; [reflexivity|]. repeat split.
  - intros b jobId now m fs Hfresh st0 r st t. subst r st t.
    rewrite LocalFacts.local_create_shape. cbn [fst snd].
    split; [apply lookup_insert_eq|].
    split; [reflexivity|]. split; [reflexivity|].
    split; [repeat split|]. split.
    { cbn. rewrite insert_insert_eq. apply map_size_insert_None, Hfresh. }
    split.
    { intros other Hne. cbn.
      rewrite !lookup_insert_ne by (intros E; apply Hne; symmetry; exact E).
      reflexivity. }
    split; [reflexivity|]. split; [reflexivity|]. split; [reflexivity|].
    eexists. split; [reflexivity|].
    split; [apply lookup_insert_eq|]. split; [reflexivity|]. repeat split.
Qed.

(** The first job of a server. *)
Lemma create_returns_before_any_stage_witness :
  let st0 := {| Remote.jobs := ∅; Remote.log := [] |} in
  (∅ : gmap string Remote.Job) !! "job-1" = None
  /\ snd (Remote.create (Some Scenario.body) "job-1" 0 st0)
     = Remote.RespCreated "job-1" queued
  /\ size (Remote.jobs (fst (fst (Remote.create (Some Scenario.body) "job-1" 0 st0))))
     = 1.
Proof.
  cbv zeta.
  assert (Hfresh : (∅ : gmap string Remote.Job) !! "job-1" = None)
    by reflexivity.
  destruct (proj1 create_returns_before_any_stage Scenario.body "job-1" 0 ∅ Hfresh)
    as (_ & _ & _ & _ & Hsize & _ & Hr & _).
  split; [exact Hfresh|]. split; [exact Hr | exact Hsize].
Defined.

(** C4.  In both versions: for an id that is not in the job store, the
    status, audio and download routes answer with code 404 and an error
    body; the audio route answers so as well when the job is there and has
    no audio ([audioBuffer], resp. [audioPath]), and the download route
    when the job has no final video ([videoUrl], resp. [finalVideoPath]). *)
Theorem query_not_found :
  (forall (st : Remote.State) jobId,
     (Remote.jobs st !! jobId = None ->
      Remote.getStatus st jobId = Remote.RespError 404 "Job not found"
      /\ Remote.getAudio st jobId = Remote.RespError 404 "Audio not found"
      /\ Remote.download st jobId = Remote.RespError 404 "Video not ready")
     /\ (Remote.jobs st !! jobId ≫= Remote.audioBuffer = None ->
         Remote.getAudio st jobId = Remote.RespError 404 "Audio not found")
     /\ (Remote.jobs st !! jobId ≫= Remote.videoUrl = None ->
         Remote.download st jobId = Remote.RespError 404 "Video not ready"))
  /\ (forall (st : Local.State) jobId,
     (Local.jobs st !! jobId = None ->
      Local.getStatus st jobId = Local.RespError 404 "Job not found"
      /\ Local.getAudio st jobId = Local.RespError 404 "Audio not found"
      /\ Local.download st jobId = Local.RespError 404 "Video not found")
     /\ (Local.jobs st !! jobId ≫= Local.audioPath = None ->
         Local.getAudio st jobId = Local.RespError 404 "Audio not found")
     /\ (Local.jobs st !! jobId ≫= Local.finalVideoPath = None ->
         Local.download st jobId = Local.RespError 404 "Video not found"))
  /\ (forall error, Remote.code (Remote.RespError 404 error) = 404%N)
  /\ (forall error, Local.code (Local.RespError 404 error) = 404%N).
Proof.
  split; [|split; [|split; reflexivity]].
  - intros st jobId. unfold Remote.getStatus, Remote.getAudio, Remote.download.
    destruct (Remote.jobs st !! jobId) as [job|]; cbn.
    + split; [discriminate|]. split; intros ->; reflexivity.
    + repeat split.
  - intros st jobId. unfold Local.getStatus, Local.getAudio, Local.download.
    destruct (Local.jobs st !! jobId) as [job|]; cbn.
    + split; [discriminate|]. split; intros ->; reflexivity.
    + repeat split.
Qed.

(** An empty store, and a job whose voice stage has not finished. *)
Lemma query_not_found_witness :
  let st := fst (RemoteRun.run Scenario.remoteA Scenario.body "job-1" 0 ∅ 1) in
  Remote.getStatus st "job-2" = Remote.RespError 404 "Job not found"
  /\ Remote.getAudio st "job-1" = Remote.RespError 404 "Audio not found"
  /\ Remote.download st "job-1" = Remote.RespError 404 "Video not ready".
Proof.
  cbv zeta.
  destruct (proj1 query_not_found
              (fst (RemoteRun.run Scenario.remoteA Scenario.body "job-1" 0 ∅ 1))
              "job-2") as (H1 & _).
  destruct (proj1 query_not_found
              (fst (RemoteRun.run Scenario.remoteA Scenario.body "job-1" 0 ∅ 1))
              "job-1") as (_ & H2 & H3).
  split; [apply H1; vm_compute; reflexivity|].
  split; [apply H2 | apply H3]; vm_compute; reflexivity.
Defined.

Lemma pollLoop_from (poll : nat -> Remote.PollReply) (n a : nat) :
  let r := Remote.pollLoop poll (seq a n) in
  exists k,
    k <= n
    /\ fst r = RemoteRun.attempts a k
    /\ (forall i, a <= i < a + k - 1 -> RemoteRun.goesOn (poll i) = true)
    /\ ((k = n /\ (forall i, a <= i < a + n -> RemoteRun.goesOn (poll i) = true)
         /\ snd r = Throw "Video rendering timed out")
        \/ (0 < k /\ RemoteRun.goesOn (poll (a + k - 1)) = false
            /\ RemoteRun.settles poll (a + k - 1) (snd r))).
Proof.
  revert a. induction n as [|n IH]; intros a; cbn zeta.
  - exists 0. cbn. split; [lia|]. split; [reflexivity|].
    split; [intros; lia|]. left. split; [reflexivity|].
    split; [intros; lia | reflexivity].
  - cbn [seq Remote.pollLoop].
    destruct (poll a) as [m|st url] eqn:Ea.
    { exists 1. cbn [fst snd]. split; [lia|]. split; [reflexivity|].
      split; [intros; lia|]. right. split; [lia|].
      replace (a + 1 - 1) with a by lia.
      unfold RemoteRun.settles. rewrite Ea. split; reflexivity. }
    destruct (String.eqb st "done") eqn:Edone.
    { apply String.eqb_eq in Edone. subst st.
      exists 1. cbn [fst snd]. split; [lia|]. split; [reflexivity|].
      split; [intros; lia|]. right. split; [lia|].
      replace (a + 1 - 1) with a by lia.
      unfold RemoteRun.settles. rewrite Ea. split; [reflexivity|].
      left. split; reflexivity. }
    destruct (String.eqb st "failed") eqn:Efailed.
    { apply String.eqb_eq in Efailed. subst st.
      exists 1. cbn [fst snd]. split; [lia|]. split; [reflexivity|].
      split; [intros; lia|]. right. split; [lia|].
      replace (a + 1 - 1) with a by lia.
      unfold RemoteRun.settles. rewrite Ea. split; [reflexivity|].
      right. split; reflexivity. }
    assert (Hgo : RemoteRun.goesOn (poll a) = true).
    { rewrite Ea. cbn. rewrite Edone, Efailed. reflexivity. }
    destruct (IH (S a)) as (k & Hk & Hev & Hbefore & Hend).
    exists (S k). cbn [fst snd]. split; [lia|]. split.
    { rewrite Hev. reflexivity. }
    split.
    { intros i Hi. destruct (Nat.eq_dec i a) as [->|Hne]; [exact Hgo|].
      apply Hbefore. lia. }
    destruct Hend as [(-> & Hall & Hr)|(Hpos & Hlast & Hr)].
    + left. split; [reflexivity|]. split; [|exact Hr].
      intros i Hi. destruct (Nat.eq_dec i a) as [->|Hne]; [exact Hgo|].
      apply Hall. lia.
    + right. split; [lia|].
      replace (a + S k - 1) with (S a + k - 1) by lia.
      split; assumption.
Qed.

(** C7.  The poll loop of the remote assembly makes [k] status requests for
    some [k] of at most 60, numbered from 0, and waits 2000 ms before each;
    every request before the last one found the render neither [done] nor
    [failed].  Either all 60 requests found it so, and the loop throws
    ["Video rendering timed out"]; or the last request is the first one
    that did not, and the loop ends there: it returns the render's URL when
    the status is [done], throws ["Video rendering failed"] when it is
    [failed], and throws the request's own error when the request threw.
    The function is total, so the loop ends. *)
Theorem poll_loop_bounded (poll : nat -> Remote.PollReply) :
  let r := Remote.pollLoop poll Remote.pollAttempts in
  exists k,
    k <= 60
    /\ fst r = RemoteRun.attempts 0 k
    /\ length (List.filter (fun e => match e with
                                     | Remote.FetchStatus _ => true
                                     | _ => false
                                     end) (fst r)) = k
    /\ (forall i, i < k - 1 -> RemoteRun.goesOn (poll i) = true)
    /\ ((k = 60 /\ (forall i, i < 60 -> RemoteRun.goesOn (poll i) = true)
         /\ snd r = Throw "Video rendering timed out")
        \/ (0 < k /\ RemoteRun.goesOn (poll (k - 1)) = false
            /\ RemoteRun.settles poll (k - 1) (snd r))).
Proof.
  cbn zeta. unfold Remote.pollAttempts.
  destruct (pollLoop_from poll 60 0) as (k & Hk & Hev & Hbefore & Hend).
  exists k. split; [exact Hk|]. split; [exact Hev|]. split.
  { rewrite Hev. unfold RemoteRun.attempts. generalize 0.
    clear. induction k as [|k IH]; intros a; [reflexivity|].
    cbn. rewrite IH. reflexivity. }
  split.
  { intros i Hi. apply Hbefore. lia. }
  destruct Hend as [(-> & Hall & Hr)|(Hpos & Hlast & Hr)].
  - left. split; [reflexivity|]. split; [|exact Hr].
    intros i Hi. apply Hall. lia.
  - right. exact (conj Hpos (conj Hlast Hr)).
Qed.

(** The render of scenario C is still running at every status request:
    the loop gives up after 60 of them. *)
Example poll_loop_scenario_C :
  let r := Remote.pollLoop (Remote.shotstack_status Scenario.remoteC "render-1")
             Remote.pollAttempts in
  snd r = Throw "Video rendering timed out" /\ fst r = RemoteRun.attempts 0 60.
Proof. split; vm_compute; reflexivity. Qed.

(** A voice selection that names no property of the table, own or
    inherited, gets the voice of ['female_1']; one that is a key of the
    table gets its entry. *)
Lemma voice_lookup_own_or_default (voiceType : JSVal) :
  inherited (toString voiceType) = false ->
  Remote.voiceId voiceType
  = PString (default "21m00Tcm4TlvDq8ikWAM"
               (ownProp Remote.VOICE_IDS (toString voiceType)))
  /\ Local.voiceId voiceType
     = PString (default "EXAVITQu4vr4xnSDxMaL"
                  (ownProp Local.VOICE_IDS (toString voiceType))).
Proof.
  intros Hin. unfold Remote.voiceId, Local.voiceId, getProp.
  rewrite Hin. cbn [ownProp Remote.VOICE_IDS Local.VOICE_IDS].
  destruct (String.eqb "female_1" (toString voiceType));
    [split; reflexivity|].
  destruct (String.eqb "female_2" (toString voiceType));
    [split; reflexivity|].
  destruct (String.eqb "male_1" (toString voiceType)); split; reflexivity.
Qed.

(** C9, at the input where the code departs from it.  A request whose
    [voice] is ["constructor"] names no entry of the voice table, yet the
    lookup finds the member that every object inherits, which is truthy, so
    the default is not taken: the synthesis request goes to a URL that ends
    in the text of a function, not in a provider voice id. *)
Theorem voice_lookup_inherited_key :
  ownProp Remote.VOICE_IDS "constructor" = None
  /\ Remote.voiceId (JStr "constructor") = PInherited "constructor"
  /\ Remote.voiceId (JStr "constructor") <> Remote.voiceId (JStr "female_1")
  /\ Remote.voiceUrl (JStr "constructor")
     = "https://api.elevenlabs.io/v1/text-to-speech/function Object() { [native code] }"
  /\ Local.voiceId (JStr "constructor") = PInherited "constructor"
  /\ Local.voiceUrl (JStr "constructor")
     = "https://api.elevenlabs.io/v1/text-to-speech/function Object() { [native code] }"
  /\ Remote.voiceId JUndefined = PString "21m00Tcm4TlvDq8ikWAM"
  /\ Remote.voiceId JNull = PString "21m00Tcm4TlvDq8ikWAM".
Proof. repeat split; try reflexivity. discriminate. Qed.

Lemma concat_nonempty (sep w : string) (ws : list string) :
  w <> EmptyString -> String.concat sep (w :: ws) <> EmptyString.
Proof.
  destruct w as [|c w]; [intros H; destruct H; reflexivity|].
  intros _. destruct ws; discriminate.
Qed.

(** C5 fails as stated: two jobs of the remote version with the same
    request, template ["fitness"] included, whose generated scripts differ,
    search footage with different queries, and neither query is the one the
    table has for the template. *)
Lemma remote_query_ignores_template :
  RemoteRun.footageRequest
    (snd (RemoteRun.run Scenario.remoteA Scenario.body "job-1" 0 ∅ 2))
  = Some "Unlock amazing coffee"
  /\ RemoteRun.footageRequest
       (snd (RemoteRun.run Scenario.remoteShortWords Scenario.body "job-1" 0 ∅ 2))
     = Some "business technology"
  /\ Local.query (Remote.body_template Scenario.body) = PString "workout gym".
Proof. repeat split; vm_compute; reflexivity. Qed.

(** C6 fails as stated: in the remote version of scenario B the footage
    fetch does not fail, it returns an empty list of clips, and the job goes
    through [assembling_video] before it fails. *)
Lemma remote_empty_footage_is_no_error :
  Remote.fetchStockFootage Scenario.remoteB "Unlock amazing coffee brewing secrets"
  = Return []
  /\ Remote.statusWrites "job-1"
       (Remote.log (fst (RemoteRun.run Scenario.remoteB Scenario.body "job-1" 0 ∅ 4)))
     = [queued; generating_script; generating_voice; fetching_footage;
        assembling_video; failed].
Proof. split; vm_compute; reflexivity. Qed.

(** C6, as amended.  When the footage provider returns zero results for the
    job whose task waits at the footage stage, the job ends [failed] with a
    message that says that nothing was found, and the audio of the voice
    stage is still what the audio route serves.  In the remote version the
    footage fetch returns an empty list, the job passes through
    [assembling_video], the assembly throws and the message is
    ["Error: No video clips found"]; the audio route answers with the bytes
    the job held.  In the local version the footage fetch itself throws and
    the message is ["Error: No stock footage found"]; the audio route sends
    the job's audio file, which is still in the temp directory. *)
Theorem no_footage_fails_job :
  (forall (w : Remote.World) b jobId now m turns st job script,
     RemoteRun.run w b jobId now m turns
     = (st, Remote.Suspended jobId job (Remote.PFootage script)) ->
     Remote.pexels w (Remote.keywords script) = Ok (Some []) ->
     let c := Remote.drive w 2 (st, Remote.Suspended jobId job (Remote.PFootage script)) in
     Remote.fetchStockFootage w script = Return []
     /\ snd c = Remote.Finished
     /\ Remote.statusWrites jobId (Remote.log (fst c))
        = [queued; generating_script; generating_voice; fetching_footage;
           assembling_video; failed]
     /\ exists job' bytes,
         Remote.jobs (fst c) !! jobId = Some job'
         /\ Remote.status job' = failed
         /\ Remote.statusMessage job' = "Error: No video clips found"
         /\ contains (Remote.statusMessage job') "No video clips found"
         /\ Remote.audioBuffer job = Some bytes
         /\ Remote.getAudio (fst c) jobId = Remote.RespAudio bytes)
  /\ (forall (w : Local.World) b jobId now m fs turns st job a d,
     LocalRun.run w b jobId now m fs turns
     = (st, Local.Suspended jobId job (Local.PFootage a d)) ->
     Local.pexels w (propToString (Local.query (Local.template job)))
     = Ok (Some []) ->
     let c := Local.processVideo_resume w
                (Local.Suspended jobId job (Local.PFootage a d)) st in
     fst (Local.fetchStockFootage w (Local.template job) d jobId (Local.files st))
     = Throw "No stock footage found"
     /\ snd c = Local.Finished
     /\ Local.statusWrites jobId (Local.log (fst c))
        = [pending; generating_script; generating_voice; fetching_footage;
           failed]
     /\ exists job',
         Local.jobs (fst c) !! jobId = Some job'
         /\ Local.status job' = failed
         /\ Local.statusMessage job' = "Error: No stock footage found"
         /\ contains (Local.statusMessage job') "No stock footage found"
         /\ Local.getAudio (fst c) jobId
            = Local.RespSendFile "audio/mpeg" (LocalRun.audioFile jobId)
         /\ is_Some (Local.files (fst c) !! LocalRun.audioFile jobId)).
Proof.
  split.
  - intros w b jobId now m turns st job script Hrun Hzero c.
    pose proof (RemoteFacts.remote_inv_run w b jobId now m turns) as Hinv.
    rewrite Hrun in Hinv.
    destruct Hinv as [_ [_ _ Hwrites _ _ (_ & [bytes Hbytes] & _)]].
    cbn [fst snd Remote.stageOf RemoteRun.writesUpTo] in Hwrites.
    assert (Hfetch : Remote.fetchStockFootage w script = Return []).
    { unfold Remote.fetchStockFootage. rewrite Hzero. reflexivity. }
    split; [exact Hfetch|].
    subst c. rewrite RemoteFacts.remote_drive_S.
    rewrite (RemoteFacts.remote_resume_footage _ _ _ _ _ _ Hfetch). cbv zeta.
    match goal with
    | |- context [Remote.drive w 1 (?s, Remote.Suspended _ ?j _)] =>
        set (st1 := s); set (job1 := j)
    end.
    assert (Hthrown : RemoteRun.thrown w job1 Remote.PAssemble
                      = Some "No video clips found") by reflexivity.
    rewrite RemoteFacts.remote_drive_S.
    rewrite (RemoteFacts.remote_resume_thrown _ _ _ _ _ _ Hthrown).
    cbn [Remote.drive].
    destruct (RemoteFacts.remote_catch_spec jobId job1 "No video clips found"
                (Remote.emit (Remote.EvSettled jobId StAssemble false) st1))
      as (Hfin & Hjob & Hlog).
    cbn [Remote.stageOf].
    split; [exact Hfin|]. split.
    { rewrite Hlog. subst st1. RemoteFacts.trace. rewrite Hwrites. reflexivity. }
    eexists _, bytes. split; [exact Hjob|].
    split; [reflexivity|]. split; [reflexivity|].
    split; [apply (contains_suffix "Error: ")|]. split; [exact Hbytes|].
    unfold Remote.getAudio. rewrite Hjob. cbn. rewrite Hbytes. reflexivity.
  - intros w b jobId now m fs turns st job a d Hrun Hzero c.
    pose proof (LocalFacts.local_inv_run w b jobId now m fs turns) as Hinv.
    rewrite Hrun in Hinv.
    destruct Hinv as [_ [_ _ Hwrites _ _ (-> & Hpath & _ & Hfile)]].
    cbn [fst snd LocalRun.stageOf LocalRun.writesUpTo] in Hwrites, Hfile.
    assert (Hfetch : Local.fetchStockFootage w (Local.template job) d jobId
                       (Local.files st)
                     = (Throw "No stock footage found", Local.files st)).
    { unfold Local.fetchStockFootage. rewrite Hzero. reflexivity. }
    split; [rewrite Hfetch; reflexivity|].
    subst c. unfold Local.processVideo_resume. rewrite Hfetch.
    destruct (LocalFacts.local_catch_spec jobId job "No stock footage found"
                (Local.emit (Local.EvSettled jobId StFootage false)
                   (Local.withFiles (Local.files st) st)))
      as (Hfin & Hjob & Hlog).
    split; [exact Hfin|]. split.
    { rewrite Hlog. LocalFacts.trace. rewrite Hwrites. reflexivity. }
    eexists. split; [exact Hjob|].
    split; [reflexivity|]. split; [reflexivity|].
    split; [apply (contains_suffix "Error: ")|]. split.
    + unfold Local.getAudio. rewrite Hjob. cbn. rewrite Hpath. reflexivity.
    + exact Hfile.
Qed.

(** Scenario B, in both versions. *)
Lemma no_footage_fails_job_witness :
  (let c0 := RemoteRun.run Scenario.remoteB Scenario.body "job-1" 0 ∅ 2 in
   exists job script,
     snd c0 = Remote.Suspended "job-1" job (Remote.PFootage script)
     /\ Remote.getAudio
          (fst (Remote.drive Scenario.remoteB 2
                  (fst c0, Remote.Suspended "job-1" job (Remote.PFootage script))))
          "job-1"
        = Remote.RespAudio Scenario.audio)
  /\ (let c0 := LocalRun.run Scenario.localB Scenario.localBody "job-1" 0 ∅ ∅ 3 in
      exists job a d,
        snd c0 = Local.Suspended "job-1" job (Local.PFootage a d)
        /\ Local.getAudio
             (fst (Local.processVideo_resume Scenario.localB
                     (Local.Suspended "job-1" job (Local.PFootage a d)) (fst c0)))
             "job-1"
           = Local.RespSendFile "audio/mpeg" "./temp/job-1-audio.mp3").
Proof.
  split; cbv zeta.
  - do 2 eexists.
    match goal with
    | |- ?A /\ _ => assert (Hsnd : A) by (vm_compute; reflexivity)
    end.
    split; [exact Hsnd|].
    destruct (proj1 no_footage_fails_job _ _ _ _ _ _ _ _ _
                (pair_of_snd _ _ Hsnd) eq_refl)
      as (_ & _ & _ & job' & bytes & _ & _ & _ & _ & Hbytes & Haudio).
    rewrite Haudio. f_equal.
    cbn in Hbytes. injection Hbytes as <-. reflexivity.
  - do 3 eexists.
    match goal with
    | |- ?A /\ _ => assert (Hsnd : A) by (vm_compute; reflexivity)
    end.
    split; [exact Hsnd|].
    destruct (proj2 no_footage_fails_job _ _ _ _ _ _ _ _ _ _ _
                (pair_of_snd _ _ Hsnd) eq_refl)
      as (_ & _ & _ & job' & _ & _ & _ & _ & Haudio & _).
    exact Haudio.
Defined.

(** ** Further properties of the code *)

(** The voice table read with a key that is in it, and with one that names
    nothing. *)
Lemma voice_lookup_own_or_default_witness :
  Remote.voiceId (JStr "male_1") = PString "pNInz6obpgDQGcFmaJgB"
  /\ Local.voiceId (JStr "robot") = PString "EXAVITQu4vr4xnSDxMaL".
Proof.
  split.
  - exact (proj1 (voice_lookup_own_or_default (JStr "male_1") eq_refl)).
  - exact (proj2 (voice_lookup_own_or_default (JStr "robot") eq_refl)).
Defined.

Lemma pollLoop_all_go_on (poll : nat -> Remote.PollReply) :
  (forall i, i < 60 -> RemoteRun.goesOn (poll i) = true) ->
  snd (Remote.pollLoop poll Remote.pollAttempts)
  = Throw "Video rendering timed out".
Proof.
  intros Hall. unfold Remote.pollAttempts.
  destruct (pollLoop_from poll 60 0) as (k & Hk & _ & _ & Hend).
  destruct Hend as [(_ & _ & Hr)|(Hpos & Hlast & _)]; [exact Hr|].
  rewrite Hall in Hlast by lia. discriminate Hlast.
Qed.

(** Scenario C of section 8.  When the render was submitted and none of the
    60 status requests finds it [done] or [failed], the job ends [failed]
    with the message ["Error: Video rendering timed out"]. *)
Theorem render_timeout_fails_job :
  forall (w : Remote.World) jobId job st clip cs renderId,
    Remote.clips job = Some (clip :: cs) ->
    Remote.shotstack_render w (Remote.videoClips (clip :: cs)) = Ok renderId ->
    (forall i, i < 60 ->
       RemoteRun.goesOn (Remote.shotstack_status w renderId i) = true) ->
    let c := Remote.processVideo_resume w
               (Remote.Suspended jobId job Remote.PAssemble) st in
    snd c = Remote.Finished
    /\ exists job',
        Remote.jobs (fst c) !! jobId = Some job'
        /\ Remote.status job' = failed
        /\ Remote.statusMessage job' = "Error: Video rendering timed out"
        /\ Remote.videoUrl job' = Remote.videoUrl job.
Proof.
  intros w jobId job st clip cs renderId Hclips Hrender Hall c.
  assert (Hthrown : RemoteRun.thrown w job Remote.PAssemble
                    = Some "Video rendering timed out").
  { unfold RemoteRun.thrown, Remote.assembleVideo. rewrite Hclips.
    change (default [] (Some (clip :: cs))) with (clip :: cs).
    change (Nat.eqb (length (clip :: cs)) 0) with false. cbv iota.
    rewrite Hrender. rewrite (pollLoop_all_go_on _ Hall). reflexivity. }
  subst c. rewrite (RemoteFacts.remote_resume_thrown _ _ _ _ _ _ Hthrown).
  destruct (RemoteFacts.remote_catch_spec jobId job "Video rendering timed out"
              (Remote.emit (Remote.EvSettled jobId StAssemble false) st))
    as (Hfin & Hjob & _).
  split; [exact Hfin|]. eexists. split; [exact Hjob|]. repeat split.
Qed.

(** Scenario C, at the assembly of a job that holds one clip. *)
Lemma render_timeout_fails_job_witness :
  let job := Remote.set_clips (Some [Remote.toClip Scenario.portrait])
               (Remote.newJob Scenario.body "job-1" 0) in
  snd (Remote.processVideo_resume Scenario.remoteC
         (Remote.Suspended "job-1" job Remote.PAssemble)
         {| Remote.jobs := ∅; Remote.log := [] |})
  = Remote.Finished.
Proof.
  cbv zeta.
  refine (proj1 (render_timeout_fails_job Scenario.remoteC "job-1"
                   (Remote.set_clips (Some [Remote.toClip Scenario.portrait])
                      (Remote.newJob Scenario.body "job-1" 0))
                   {| Remote.jobs := ∅; Remote.log := [] |}
                   (Remote.toClip Scenario.portrait) [] "render-1"
                   eq_refl eq_refl _)).
  intros i _. reflexivity.
Defined.

(** The audio route along a run of the remote version: not found while the
    task waits for the script or for the voice, the bytes on the job from
    then on. *)
Theorem audio_route_follows_voice_stage :
  forall (w : Remote.World) b jobId now m turns,
    let c := RemoteRun.run w b jobId now m turns in
    match snd c with
    | Remote.Suspended _ _ Remote.PScript
    | Remote.Suspended _ _ (Remote.PVoice _) =>
        Remote.getAudio (fst c) jobId = Remote.RespError 404 "Audio not found"
    | Remote.Suspended _ job _ =>
        exists bytes, Remote.audioBuffer job = Some bytes
                      /\ Remote.getAudio (fst c) jobId = Remote.RespAudio bytes
    | Remote.Finished => True
    end.
Proof.
  intros w b jobId now m turns c.
  pose proof (RemoteFacts.remote_inv_run w b jobId now m turns) as Hinv.
  fold c in Hinv. unfold RemoteRun.Inv in Hinv.
  destruct (snd c) as [j job p|]; [|exact I].
  destruct Hinv as [_ [Hstore _ _ _ Hempty Hhave]].
  unfold Remote.getAudio. rewrite Hstore.
  destruct p as [|script|script|]; cbn in Hempty, Hhave.
  - destruct Hempty as (_ & -> & _). reflexivity.
  - destruct Hempty as (-> & _). reflexivity.
  - destruct Hhave as (_ & [bytes ->] & _). exists bytes. split; reflexivity.
  - destruct Hhave as (_ & [bytes ->] & _). exists bytes. split; reflexivity.
Qed.

(** ** The scenarios, run *)

Example forward_rejects_a_skip : ~ forward [queued; generating_voice].
Proof. cbn. intros [[H|[_ H]] _]; discriminate H. Qed.

Example forward_rejects_a_return :
  ~ forward [pending; generating_script; generating_voice; generating_script].
Proof. cbn. intros (_ & _ & [H|[_ H]] & _); discriminate H. Qed.

Example forward_rejects_leaving_completed : ~ forward [completed; failed].
Proof. cbn. intros [[H|[H _]] _]; discriminate H. Qed.

Example remote_scenario_A :
  let c := RemoteRun.run Scenario.remoteA Scenario.body "job-1" 0 ∅ 4 in
  snd c = Remote.Finished
  /\ Remote.statusWrites "job-1" (Remote.log (fst c))
     = [queued; generating_script; generating_voice; fetching_footage;
        assembling_video; completed]
  /\ Remote.download (fst c) "job-1"
     = Remote.RespRedirect "https://cdn.example/render-1.mp4"
  /\ Remote.getAudio (fst c) "job-1" = Remote.RespAudio Scenario.audio.
Proof. repeat split; vm_compute; reflexivity. Qed.

Example local_scenario_A :
  let c := LocalRun.run Scenario.localA Scenario.localBody "job-1" 0 ∅ ∅ 5 in
  snd c = Local.Finished
  /\ Local.statusWrites "job-1" (Local.log (fst c))
     = [pending; generating_script; generating_voice; fetching_footage;
        assembling_video; completed]
  /\ Local.download (fst c) "job-1"
     = Local.RespSendFile "video/mp4" "./temp/job-1-final.mp4"
  /\ Local.files (fst c) !! "./temp/job-1-audio.mp3" = Some Scenario.audio.
Proof. repeat split; vm_compute; reflexivity. Qed.

Example split_space_keeps_empty_words :
  split_space "a  bc d" = ["a"; EmptyString; "bc"; "d"].
Proof. reflexivity. Qed.

(** ** The job record along a run *)

(** Closes the fields of [Sound] for an explicit record. *)
Ltac absurd_hyps :=
  repeat match goal with
         | H : is_Some None |- _ => destruct (is_Some_None H)
         | H : _ /\ _ |- _ => destruct H
         | H : _ = _ |- _ => discriminate H
         end.

Ltac sound_fields :=
  cbn in *; absurd_hyps;
  repeat match goal with
         | H : ?x = _ |- context [?x] => rewrite H
         end;
  try solve [ reflexivity | assumption
            | intros; absurd_hyps;
              first [ assumption | reflexivity | eexists; reflexivity
                    | congruence | eauto ]
            | split; intros; absurd_hyps;
              first [ assumption | reflexivity | eexists; reflexivity
                    | congruence | eauto ]
            | intros ? [=]; subst; reflexivity ].

Lemma remote_kept_create b jobId now m :
  RemoteData.Kept b jobId now
    (fst (Remote.create (Some b) jobId now {| Remote.jobs := m; Remote.log := [] |})).
Proof.
  rewrite RemoteFacts.remote_create_shape. cbn [fst snd].
  eexists. split; [apply RemoteFacts.remote_lookup_jobsSet|].
  split; [|split; reflexivity].
  split; sound_fields.
Qed.

Lemma remote_kept_resume w b jobId now st t :
  RemoteRun.Inv jobId (st, t) ->
  RemoteData.Kept b jobId now (st, t) ->
  RemoteData.Kept b jobId now (Remote.processVideo_resume w t st).
Proof.
  destruct t as [j job p|]; [|intros _ H; exact H].
  unfold RemoteRun.Inv at 1; cbn [fst snd].
  intros [-> [_ Hstatus _ _ Hempty Hhave]] (job0 & _ & Hsound & _ & <-).
  destruct Hsound.
  destruct p as [|script|script|]; cbn [Remote.processVideo_resume].
  - destruct (Remote.generateScript w _ _) as [script|msg];
      unfold Remote.catch; cbn [Remote.enter fst snd];
      (eexists; split; [apply RemoteFacts.remote_lookup_jobsSet|]);
      (split; [|first [split; reflexivity | exact I]]);
      split; sound_fields.
  - destruct (Remote.generateVoice w _ _) as [bytes|msg];
      unfold Remote.catch; cbn [Remote.enter fst snd];
      (eexists; split; [apply RemoteFacts.remote_lookup_jobsSet|]);
      (split; [|first [split; reflexivity | exact I]]);
      split; sound_fields.
  - destruct (Remote.fetchStockFootage w _) as [cs|msg];
      unfold Remote.catch; cbn [Remote.enter fst snd];
      (eexists; split; [apply RemoteFacts.remote_lookup_jobsSet|]);
      (split; [|first [split; reflexivity | exact I]]);
      split; sound_fields.
  - destruct (snd (Remote.assembleVideo w job)) as [url|msg];
      unfold Remote.catch; cbn [Remote.enter fst snd];
      (eexists; split; [apply RemoteFacts.remote_lookup_jobsSet|]);
      (split; [|first [split; reflexivity | exact I]]);
      split; sound_fields.
Qed.

Lemma remote_inv_kept_drive w b jobId now turns c :
  RemoteRun.Inv jobId c -> RemoteData.Kept b jobId now c ->
  RemoteData.Kept b jobId now (Remote.drive w turns c).
Proof.
  revert c. induction turns as [|n IH]; intros [st t] Hinv Hkept; [exact Hkept|].
  cbn [Remote.drive snd fst]. destruct t as [j job p|]; [|exact Hkept].
  apply IH.
  - apply RemoteFacts.remote_inv_resume, Hinv.
  - apply remote_kept_resume; assumption.
Qed.

Lemma remote_kept_run w b jobId now m turns :
  RemoteData.Kept b jobId now (RemoteRun.run w b jobId now m turns).
Proof.
  apply remote_inv_kept_drive;
    [apply RemoteFacts.remote_inv_create | apply remote_kept_create].
Qed.

Lemma local_footage_path w template d jobId fs path :
  fst (Local.fetchStockFootage w template d jobId fs) = Return path ->
  path = LocalData.footageFile jobId.
Proof.
  unfold Local.fetchStockFootage.
  destruct (Local.pexels w _) as [m|t|[[|v vs]|]]; try discriminate.
  destruct ((v :: vs) !! _) as [randomVideo|]; [|discriminate].
  destruct (match findHd _ with Some f => Some f | None => _ end) as [f|];
    [|discriminate].
  destruct (Local.fetchFile w (link f)) as [buf|m]; [|discriminate].
  unfold Local.writeFileSync. destruct (Local.writeFile w _) as [m|];
    [discriminate|].
  cbn [fst]. intros [= <-]. reflexivity.
Qed.

Lemma local_final_path w a v jobId path :
  Local.combineAudioVideo w a v jobId = Return path ->
  path = LocalData.finalFile jobId.
Proof.
  unfold Local.combineAudioVideo. destruct (Local.ffmpeg w _); [|discriminate].
  intros [= <-]. reflexivity.
Qed.

Lemma local_kept_create b jobId now m fs :
  LocalData.Kept b jobId now
    (fst (Local.create (Some b) jobId now
            {| Local.jobs := m; Local.files := fs; Local.log := [] |})).
Proof.
  rewrite LocalFacts.local_create_shape. cbn [fst snd].
  eexists. split; [apply LocalFacts.local_lookup_jobsSet|].
  split; [|repeat split].
  split; sound_fields.
Qed.

Lemma local_kept_resume w b jobId now st t :
  LocalRun.Inv jobId (st, t) ->
  LocalData.Kept b jobId now (st, t) ->
  LocalData.Kept b jobId now (Local.processVideo_resume w t st).
Proof.
  destruct t as [j job p|]; [|intros _ H; exact H].
  unfold LocalRun.Inv at 1; cbn [fst snd].
  intros [-> [_ Hstatus _ _ Hempty Haudio]] (job0 & _ & Hsound & _ & <- & Hpresent).
  destruct Hsound.
  destruct p as [|gs|a|a d|a v]; cbn [Local.processVideo_resume].
  - destruct (Local.generateScript w _ _) as [gs|msg];
      unfold Local.catch; cbn [Local.enter fst snd];
      (eexists; split; [apply LocalFacts.local_lookup_jobsSet|]);
      (split; [|first [exact I | repeat split; eexists; reflexivity]]);
      split; sound_fields.
  - destruct (Local.generateVoice w _ _) as [bytes|msg];
      [unfold Local.writeFileSync; destruct (Local.writeFile w _) as [msg|]|];
      unfold Local.catch; cbn [Local.enter fst snd];
      (eexists; split; [apply LocalFacts.local_lookup_jobsSet|]);
      (split; [|first [exact I | repeat split; exact Hpresent]]);
      split; sound_fields.
  - cbn [Local.enter fst snd].
    eexists; split; [apply LocalFacts.local_lookup_jobsSet|].
    split; [|repeat split; exact Hpresent].
    split; sound_fields.
  - pose proof (local_footage_path w (Local.template job) d jobId (Local.files st))
      as Hpath.
    destruct (Local.fetchStockFootage w _ _ _ _) as [[videoPath|msg] fs];
      unfold Local.catch; cbn [Local.enter fst snd];
      (eexists; split; [apply LocalFacts.local_lookup_jobsSet|]);
      (split; [|first [exact I
                      | repeat split; [exact Hpresent | eexists; reflexivity]]]);
      split; sound_fields.
    intros ? [= <-]. apply Hpath. reflexivity.
  - pose proof (local_final_path w a v jobId) as Hpath.
    destruct (Local.combineAudioVideo w a v jobId) as [final|msg];
      unfold Local.catch; cbn [Local.enter fst snd];
      (eexists; split; [apply LocalFacts.local_lookup_jobsSet|]);
      (split; [|exact I]);
      split; sound_fields.
    intros ? [= <-]. apply Hpath. reflexivity.
Qed.

Lemma local_inv_kept_drive w b jobId now turns c :
  LocalRun.Inv jobId c -> LocalData.Kept b jobId now c ->
  LocalData.Kept b jobId now (Local.drive w turns c).
Proof.
  revert c. induction turns as [|n IH]; intros [st t] Hinv Hkept; [exact Hkept|].
  cbn [Local.drive snd fst]. destruct t as [j job p|]; [|exact Hkept].
  apply IH.
  - apply LocalFacts.local_inv_resume, Hinv.
  - apply local_kept_resume; assumption.
Qed.

Lemma local_kept_run w b jobId now m fs turns :
  LocalData.Kept b jobId now (LocalRun.run w b jobId now m fs turns).
Proof.
  apply local_inv_kept_drive;
    [apply LocalFacts.local_inv_create | apply local_kept_create].
Qed.

(** Along every run, in both versions, the record of the job in the store
    is well formed: its id, its request fields and its creation time are
    those of the creation request; [hasAudio] is set exactly when the audio
    artifact is there; an artifact is there only if the artifacts of the
    stages before it are; and the final artifact ([videoUrl], resp.
    [finalVideoPath] and [videoUrl]) is there exactly when the status is
    [completed].  In the local version the paths on the record are the
    job's own files of the temp directory, and [videoUrl] is the job's
    download route. *)
Theorem job_record_well_formed :
  (forall (w : Remote.World) b jobId now m turns,
     exists job,
       Remote.jobs (fst (RemoteRun.run w b jobId now m turns)) !! jobId = Some job
       /\ RemoteData.Sound b jobId now job)
  /\ (forall (w : Local.World) b jobId now m fs turns,
     exists job,
       Local.jobs (fst (LocalRun.run w b jobId now m fs turns)) !! jobId = Some job
       /\ LocalData.Sound b jobId now job).
Proof.
  split.
  - intros w b jobId now m turns.
    destruct (remote_kept_run w b jobId now m turns) as (job & Hjob & Hsound & _).
    exists job. split; assumption.
  - intros w b jobId now m fs turns.
    destruct (local_kept_run w b jobId now m fs turns) as (job & Hjob & Hsound & _).
    exists job. split; assumption.
Qed.

(** Along every run the status route answers with the job, in the remote
    version without its audio bytes, and the [hasAudio] flag of the answer
    is set exactly when the audio route serves the audio. *)
Theorem has_audio_flag_tells_audio_route :
  (forall (w : Remote.World) b jobId now m turns,
     let st := fst (RemoteRun.run w b jobId now m turns) in
     exists view,
       Remote.getStatus st jobId = Remote.RespJob view
       /\ Remote.audioBuffer view = None
       /\ (Remote.hasAudio view = true
           <-> exists bytes, Remote.getAudio st jobId = Remote.RespAudio bytes)
       /\ (Remote.hasAudio view = false
           <-> Remote.getAudio st jobId = Remote.RespError 404 "Audio not found"))
  /\ (forall (w : Local.World) b jobId now m fs turns,
     let st := fst (LocalRun.run w b jobId now m fs turns) in
     exists view,
       Local.getStatus st jobId = Local.RespJob view
       /\ (Local.hasAudio view = Some true
           <-> Local.getAudio st jobId
               = Local.RespSendFile "audio/mpeg" (LocalRun.audioFile jobId))
       /\ (Local.hasAudio view <> Some true
           <-> Local.getAudio st jobId = Local.RespError 404 "Audio not found")).
Proof.
  split.
  - intros w b jobId now m turns st.
    destruct (remote_kept_run w b jobId now m turns) as (job & Hjob & Hsound & _).
    fold st in Hjob. destruct Hsound.
    unfold Remote.getStatus, Remote.getAudio. rewrite Hjob.
    eexists. split; [reflexivity|]. split; [reflexivity|]. cbn.
    destruct (Remote.audioBuffer job) as [bytes|] eqn:Ebuf.
    + assert (Hon : Remote.hasAudio job = true)
        by (apply sound_audio; eexists; reflexivity).
      rewrite Hon. split; split; try discriminate; eauto.
    + destruct (Remote.hasAudio job) eqn:Ehas.
      * destruct (is_Some_None (proj1 sound_audio eq_refl)).
      * split; split; try discriminate; try reflexivity.
        intros [bytes Hbytes]. discriminate Hbytes.
  - intros w b jobId now m fs turns st.
    destruct (local_kept_run w b jobId now m fs turns) as (job & Hjob & Hsound & _).
    fold st in Hjob. destruct Hsound.
    unfold Local.getStatus, Local.getAudio. rewrite Hjob.
    eexists. split; [reflexivity|].
    destruct (Local.audioPath job) as [path|] eqn:Epath.
    + rewrite (sound_audio_path path eq_refl).
      assert (Hon : Local.hasAudio job = Some true)
        by (apply sound_audio; eexists; reflexivity).
      change (String.eqb (LocalRun.audioFile jobId) EmptyString) with false.
      cbv iota. rewrite Hon. split; split; try discriminate; try reflexivity.
      intros Hne. destruct Hne. reflexivity.
    + split; split; try discriminate; try reflexivity.
      * intros Hon. apply sound_audio in Hon. destruct (is_Some_None Hon).
      * intros _ Hon. apply sound_audio in Hon. destruct (is_Some_None Hon).
Qed.

(** What a URL returned by [assembleVideo] says of the render service. *)
Lemma assembleVideo_returns (w : Remote.World) (job : Remote.Job) (url : string) :
  snd (Remote.assembleVideo w job) = Return url ->
  exists clip cs renderId i,
    Remote.clips job = Some (clip :: cs)
    /\ Remote.shotstack_render w (Remote.videoClips (clip :: cs)) = Ok renderId
    /\ i < 60
    /\ Remote.shotstack_status w renderId i = Remote.PollData "done" url.
Proof.
  unfold Remote.assembleVideo.
  destruct (Remote.clips job) as [[|clip cs]|];
    cbn [default from_option id length Nat.eqb snd]; try discriminate.
  destruct (Remote.shotstack_render w (Remote.videoClips (clip :: cs)))
    as [m|err|renderId] eqn:Erender; cbn [snd]; try discriminate.
  intros Hurl. exists clip, cs, renderId.
  unfold Remote.pollAttempts in Hurl.
  destruct (pollLoop_from (Remote.shotstack_status w renderId) 60 0)
    as (k & Hk & _ & _ & Hend).
  destruct Hend as [(_ & _ & Hr)|(Hpos & _ & Hsettles)];
    [rewrite Hurl in Hr; discriminate Hr|].
  exists (0 + k - 1). split; [reflexivity|]. split; [exact Erender|].
  split; [lia|].
  unfold RemoteRun.settles in Hsettles. rewrite Hurl in Hsettles.
  destruct (Remote.shotstack_status w renderId (0 + k - 1)) as [m|st u];
    [discriminate Hsettles|].
  destruct Hsettles as [(-> & [= ->])|(_ & Hr)]; [reflexivity | discriminate Hr].
Qed.

Lemma remote_rendered_resume w jobId st t :
  RemoteRun.Inv jobId (st, t) -> RemoteData.Rendered w jobId (st, t) ->
  RemoteData.Rendered w jobId (Remote.processVideo_resume w t st).
Proof.
  intros Hinv Hrendered.
  destruct t as [j job p|]; [|exact Hrendered].
  destruct Hinv as [-> [Hstore _ _ _ Hempty _]]. cbn [fst snd] in *.
  assert (Hnone : Remote.videoUrl job = None).
  { destruct p; cbn in Hempty; intuition. }
  unfold RemoteData.Rendered.
  destruct p as [|script|script|]; cbn [Remote.processVideo_resume].
  - destruct (Remote.generateScript w _ _); unfold Remote.catch;
      cbn [Remote.enter fst snd]; intros job' url Hjob';
      cbn in Hjob'; rewrite lookup_insert_eq in Hjob'; injection Hjob' as <-;
      cbn; rewrite Hnone; discriminate.
  - destruct (Remote.generateVoice w _ _); unfold Remote.catch;
      cbn [Remote.enter fst snd]; intros job' url Hjob';
      cbn in Hjob'; rewrite lookup_insert_eq in Hjob'; injection Hjob' as <-;
      cbn; rewrite Hnone; discriminate.
  - destruct (Remote.fetchStockFootage w _); unfold Remote.catch;
      cbn [Remote.enter fst snd]; intros job' url Hjob';
      cbn in Hjob'; rewrite lookup_insert_eq in Hjob'; injection Hjob' as <-;
      cbn; rewrite Hnone; discriminate.
  - destruct (snd (Remote.assembleVideo w job)) as [u|msg] eqn:Eassemble;
      unfold Remote.catch; cbn [Remote.enter fst snd]; intros job' url Hjob';
      cbn in Hjob'; rewrite lookup_insert_eq in Hjob'; injection Hjob' as <-.
    + cbn [Remote.videoUrl Remote.set_statusMessage Remote.set_status
           Remote.set_videoUrl]. intros [= <-].
      rewrite <- Eassemble. reflexivity.
    + cbn. rewrite Hnone. discriminate.
Qed.

Lemma remote_rendered_run w b jobId now m turns :
  RemoteData.Rendered w jobId (RemoteRun.run w b jobId now m turns).
Proof.
  unfold RemoteRun.run.
  assert (Hgen : forall n c,
             RemoteRun.Inv jobId c -> RemoteData.Rendered w jobId c ->
             RemoteData.Rendered w jobId (Remote.drive w n c)).
  { induction n as [|n IH]; intros [st t] Hinv Hr; [exact Hr|].
    cbn [Remote.drive fst snd]. destruct t as [j job p|]; [|exact Hr].
    apply IH; [apply RemoteFacts.remote_inv_resume, Hinv
              | apply remote_rendered_resume; assumption]. }
  apply Hgen; [apply RemoteFacts.remote_inv_create|].
  rewrite RemoteFacts.remote_create_shape. cbv zeta. cbn [fst].
  intros job url Hjob. cbn in Hjob. rewrite lookup_insert_eq in Hjob.
  injection Hjob as <-. discriminate.
Qed.


(** Along every run the download route answers 404 as long as the job is
    not [completed].  For a completed job the remote version redirects to the
    URL that the render service reported: the render of the job's clips was
    submitted and accepted, and one of its 60 status requests was answered
    [done] with that URL (404 still if that URL is empty).  The local
    version sends the job's final file, the record's [videoUrl] being the
    job's download route. *)
Theorem download_follows_completion :
  (forall (w : Remote.World) b jobId now m turns,
     let st := fst (RemoteRun.run w b jobId now m turns) in
     exists job,
       Remote.jobs st !! jobId = Some job
       /\ (Remote.status job <> completed ->
           Remote.download st jobId = Remote.RespError 404 "Video not ready")
       /\ (Remote.status job = completed ->
           exists url clip cs renderId i,
             Remote.videoUrl job = Some url
             /\ Remote.clips job = Some (clip :: cs)
             /\ Remote.shotstack_render w (Remote.videoClips (clip :: cs))
                = Ok renderId
             /\ i < 60
             /\ Remote.shotstack_status w renderId i = Remote.PollData "done" url
             /\ Remote.download st jobId
                = if String.eqb url EmptyString
                  then Remote.RespError 404 "Video not ready"
                  else Remote.RespRedirect url))
  /\ (forall (w : Local.World) b jobId now m fs turns,
     let st := fst (LocalRun.run w b jobId now m fs turns) in
     exists job,
       Local.jobs st !! jobId = Some job
       /\ (Local.status job <> completed ->
           Local.download st jobId = Local.RespError 404 "Video not found")
       /\ (Local.status job = completed ->
           Local.videoUrl job = Some (LocalData.downloadUrl jobId)
           /\ Local.download st jobId
              = Local.RespSendFile "video/mp4" (LocalData.finalFile jobId))).
Proof.
  split.
  - intros w b jobId now m turns st.
    destruct (remote_kept_run w b jobId now m turns) as (job & Hjob & Hsound & _).
    pose proof (remote_rendered_run w b jobId now m turns) as Hrendered.
    fold st in Hjob. destruct Hsound.
    exists job. split; [exact Hjob|].
    unfold Remote.download. rewrite Hjob.
    destruct (Remote.videoUrl job) as [url|] eqn:Eurl.
    + split.
      * intros Hne. destruct Hne. apply sound_done. eexists; reflexivity.
      * intros _.
        destruct (assembleVideo_returns w job url (Hrendered job url Hjob Eurl))
          as (clip & cs & renderId & i & Hclips & Hrender & Hi & Hdone).
        exists url, clip, cs, renderId, i.
        repeat (split; [first [reflexivity | assumption]|]). reflexivity.
    + split; [reflexivity|].
      intros Hdone. apply sound_done in Hdone. destruct (is_Some_None Hdone).
  - intros w b jobId now m fs turns st.
    destruct (local_kept_run w b jobId now m fs turns) as (job & Hjob & Hsound & _).
    fold st in Hjob. destruct Hsound.
    exists job. split; [exact Hjob|].
    unfold Local.download. rewrite Hjob.
    destruct (Local.finalVideoPath job) as [path|] eqn:Epath.
    + rewrite (sound_final_path path eq_refl).
      change (String.eqb (LocalData.finalFile jobId) EmptyString) with false.
      cbv iota. split.
      * intros Hne. destruct Hne. apply sound_done. eexists; reflexivity.
      * intros Hdone. split; [|reflexivity].
        apply sound_done_url in Hdone. destruct Hdone as [url Hurl].
        rewrite Hurl. f_equal. apply sound_url, Hurl.
    + split; [reflexivity|].
      intros Hdone. apply sound_done in Hdone. destruct (is_Some_None Hdone).
Qed.

(** Along every run, in both versions, the adapters are called in the order
    of the stages and each at most once: the pipeline retries nothing. *)
Theorem adapters_called_once_in_order :
  (forall (w : Remote.World) b jobId now m turns,
     let called := Remote.stagesCalled jobId
                     (Remote.log (fst (RemoteRun.run w b jobId now m turns))) in
     called `prefix_of` [StScript; StVoice; StFootage; StAssemble]
     /\ NoDup called)
  /\ (forall (w : Local.World) b jobId now m fs turns,
     let called := Local.stagesCalled jobId
                     (Local.log (fst (LocalRun.run w b jobId now m fs turns))) in
     called `prefix_of` [StScript; StVoice; StFootage; StAssemble]
     /\ NoDup called).
Proof.
  assert (Hremote : forall s,
             RemoteRun.stagesUpTo s `prefix_of` [StScript; StVoice; StFootage; StAssemble]
             /\ NoDup (RemoteRun.stagesUpTo s)).
  { intros s. split.
    - destruct s; cbn; eexists; reflexivity.
    - destruct s; cbn;
        repeat (constructor;
                [rewrite ?elem_of_cons, ?elem_of_nil; intuition discriminate|]);
        constructor. }
  assert (Hlocal : forall s,
             LocalRun.stagesUpTo s `prefix_of` [StScript; StVoice; StFootage; StAssemble]
             /\ NoDup (LocalRun.stagesUpTo s)).
  { intros s. split.
    - destruct s; cbn; eexists; reflexivity.
    - destruct s; cbn;
        repeat (constructor;
                [rewrite ?elem_of_cons, ?elem_of_nil; intuition discriminate|]);
        constructor. }
  split.
  - intros w b jobId now m turns called. subst called.
    pose proof (RemoteFacts.remote_inv_run w b jobId now m turns) as Hinv.
    unfold RemoteRun.Inv in Hinv.
    destruct (snd (RemoteRun.run w b jobId now m turns)) as [j job p|].
    + destruct Hinv as [_ [_ _ _ -> _ _]]. apply Hremote.
    + destruct Hinv as [job _ _ _ ->|job s msg _ _ _ _ -> _]; apply Hremote.
  - intros w b jobId now m fs turns called. subst called.
    pose proof (LocalFacts.local_inv_run w b jobId now m fs turns) as Hinv.
    unfold LocalRun.Inv in Hinv.
    destruct (snd (LocalRun.run w b jobId now m fs turns)) as [j job p|].
    + destruct Hinv as [_ [_ _ _ -> _ _]]. apply Hlocal.
    + destruct Hinv as [job _ _ _ ->|job s msg _ _ _ _ -> _]; apply Hlocal.
Qed.

(** ** Jobs do not touch each other *)

Lemma remote_statusWrites_foreign jobId other s :
  other <> jobId -> Remote.statusWrites other [Remote.EvStatus jobId s] = [].
Proof.
  intros Hne. unfold Remote.statusWrites. cbn.
  destruct (String.eqb jobId other) eqn:E; [|reflexivity].
  apply String.eqb_eq in E. destruct Hne. symmetry. exact E.
Qed.

Lemma local_statusWrites_foreign jobId other s :
  other <> jobId -> Local.statusWrites other [Local.EvStatus jobId s] = [].
Proof.
  intros Hne. unfold Local.statusWrites. cbn.
  destruct (String.eqb jobId other) eqn:E; [|reflexivity].
  apply String.eqb_eq in E. destruct Hne. symmetry. exact E.
Qed.

Ltac foreign_trace Hne :=
  repeat first
    [ rewrite RemoteFacts.remote_log_jobsSet
    | rewrite RemoteFacts.remote_log_emit
    | rewrite RemoteFacts.remote_statusWrites_snoc
    | rewrite (remote_statusWrites_foreign _ _ _ Hne)
    | rewrite RemoteFacts.remote_statusWrites_other by exact I
    | rewrite LocalFacts.local_log_jobsSet
    | rewrite LocalFacts.local_log_emit
    | rewrite LocalFacts.local_log_withFiles
    | rewrite LocalFacts.local_statusWrites_snoc
    | rewrite (local_statusWrites_foreign _ _ _ Hne)
    | rewrite LocalFacts.local_statusWrites_other by exact I
    | rewrite app_nil_r ].

Lemma remote_resume_frame w jobId other t st :
  other <> jobId -> RemoteData.forJob jobId t ->
  let c := Remote.processVideo_resume w t st in
  RemoteData.forJob jobId (snd c)
  /\ Remote.jobs (fst c) !! other = Remote.jobs st !! other
  /\ Remote.statusWrites other (Remote.log (fst c))
     = Remote.statusWrites other (Remote.log st).
Proof.
  intros Hne Hfor. assert (Hne' : jobId <> other) by congruence.
  destruct t as [j job p|]; [|repeat split].
  cbn in Hfor. subst j.
  destruct p as [|script|script|]; cbn [Remote.processVideo_resume];
    [ destruct (Remote.generateScript w _ _)
    | destruct (Remote.generateVoice w _ _)
    | destruct (Remote.fetchStockFootage w _)
    | destruct (snd (Remote.assembleVideo w job)) ];
    unfold Remote.catch; cbn [Remote.enter fst snd RemoteData.forJob];
    (split; [first [reflexivity | exact I]|]);
    (split; [cbn; rewrite ?lookup_insert_ne by exact Hne'; reflexivity
            | foreign_trace Hne; reflexivity]).
Qed.

Lemma local_resume_frame w jobId other t st :
  other <> jobId -> LocalData.forJob jobId t ->
  let c := Local.processVideo_resume w t st in
  LocalData.forJob jobId (snd c)
  /\ Local.jobs (fst c) !! other = Local.jobs st !! other
  /\ Local.statusWrites other (Local.log (fst c))
     = Local.statusWrites other (Local.log st).
Proof.
  intros Hne Hfor. assert (Hne' : jobId <> other) by congruence.
  destruct t as [j job p|]; [|repeat split].
  cbn in Hfor. subst j.
  destruct p as [|gs|a|a d|a v]; cbn [Local.processVideo_resume];
    [ destruct (Local.generateScript w _ _)
    | destruct (Local.generateVoice w _ _);
      [destruct (Local.writeFileSync w _ _ _) as [[[]|] ?]|]
    |
    | destruct (Local.fetchStockFootage w _ _ _ _) as [[|] ?]
    | destruct (Local.combineAudioVideo w _ _ _) ];
    unfold Local.catch; cbn [Local.enter fst snd LocalData.forJob];
    (split; [first [reflexivity | exact I]|]);
    (split; [cbn; rewrite ?lookup_insert_ne by exact Hne'; reflexivity
            | foreign_trace Hne; reflexivity]).
Qed.

(** A job's pipeline, from the creation request on, leaves every other job
    of the store as it is and writes no status of any other job, in both
    versions. *)
Theorem pipeline_leaves_other_jobs :
  (forall (w : Remote.World) b jobId now m turns other,
     other <> jobId ->
     let st := fst (RemoteRun.run w b jobId now m turns) in
     Remote.jobs st !! other = m !! other
     /\ Remote.statusWrites other (Remote.log st) = [])
  /\ (forall (w : Local.World) b jobId now m fs turns other,
     other <> jobId ->
     let st := fst (LocalRun.run w b jobId now m fs turns) in
     Local.jobs st !! other = m !! other
     /\ Local.statusWrites other (Local.log st) = []).
Proof.
  split.
  - intros w b jobId now m turns other Hne. cbv zeta. unfold RemoteRun.run.
    assert (Hne' : jobId <> other) by congruence.
    assert (Hgen : forall n c,
               RemoteData.forJob jobId (snd c) ->
               Remote.jobs (fst (Remote.drive w n c)) !! other
               = Remote.jobs (fst c) !! other
               /\ Remote.statusWrites other (Remote.log (fst (Remote.drive w n c)))
                  = Remote.statusWrites other (Remote.log (fst c))).
    { induction n as [|n IH]; intros [st t] Hfor; [split; reflexivity|].
      cbn [Remote.drive fst snd] in *.
      destruct t as [j job p|]; [|split; reflexivity].
      destruct (remote_resume_frame w jobId other (Remote.Suspended j job p) st
                  Hne Hfor) as (Hfor' & Hjobs & Hws).
      destruct (IH _ Hfor') as (IHjobs & IHws).
      rewrite IHjobs, IHws. split; assumption. }
    rewrite RemoteFacts.remote_create_shape. cbv zeta. cbn [fst].
    match goal with
    | |- context [Remote.drive w turns ?c] =>
        destruct (Hgen turns c eq_refl) as (-> & ->)
    end.
    cbn [fst]. unfold Remote.register. split.
    + cbn. rewrite !lookup_insert_ne by exact Hne'. reflexivity.
    + foreign_trace Hne. reflexivity.
  - intros w b jobId now m fs turns other Hne. cbv zeta. unfold LocalRun.run.
    assert (Hne' : jobId <> other) by congruence.
    assert (Hgen : forall n c,
               LocalData.forJob jobId (snd c) ->
               Local.jobs (fst (Local.drive w n c)) !! other
               = Local.jobs (fst c) !! other
               /\ Local.statusWrites other (Local.log (fst (Local.drive w n c)))
                  = Local.statusWrites other (Local.log (fst c))).
    { induction n as [|n IH]; intros [st t] Hfor; [split; reflexivity|].
      cbn [Local.drive fst snd] in *.
      destruct t as [j job p|]; [|split; reflexivity].
      destruct (local_resume_frame w jobId other (Local.Suspended j job p) st
                  Hne Hfor) as (Hfor' & Hjobs & Hws).
      destruct (IH _ Hfor') as (IHjobs & IHws).
      rewrite IHjobs, IHws. split; assumption. }
    rewrite LocalFacts.local_create_shape. cbv zeta. cbn [fst].
    match goal with
    | |- context [Local.drive w turns ?c] =>
        destruct (Hgen turns c eq_refl) as (-> & ->)
    end.
    cbn [fst]. unfold Local.register. split.
    + cbn. rewrite !lookup_insert_ne by exact Hne'. reflexivity.
    + foreign_trace Hne. reflexivity.
Qed.

(** A second job is created while the first one runs: the first one's record
    is what it was. *)
Lemma pipeline_leaves_other_jobs_witness :
  let st1 := fst (RemoteRun.run Scenario.remoteA Scenario.body "job-1" 0 ∅ 2) in
  Remote.jobs
    (fst (RemoteRun.run Scenario.remoteB Scenario.body "job-2" 5 (Remote.jobs st1) 4))
    !! "job-1"
  = Remote.jobs st1 !! "job-1".
Proof.
  cbv zeta.
  refine (proj1 (proj1 pipeline_leaves_other_jobs Scenario.remoteB Scenario.body
                   "job-2" 5 _ 4 "job-1" _)).
  discriminate.
Defined.

(** ** What a refused provider request leaves on the job *)

Lemma local_drive_S w n st jobId job p :
  Local.drive w (S n) (st, Local.Suspended jobId job p)
  = Local.drive w n (Local.processVideo_resume w (Local.Suspended jobId job p) st).
Proof. reflexivity. Qed.

(** The script stage going well. *)
Lemma remote_resume_script w jobId job st content :
  Remote.generateScript w (Remote.inputScript job) (Remote.duration job)
  = Return content ->
  Remote.processVideo_resume w (Remote.Suspended jobId job Remote.PScript) st
  = (let job0 := Remote.set_generatedScript (Some content) job in
     let job1 := Remote.set_statusMessage "Creating AI voiceover..."
                   (Remote.set_status generating_voice job0) in
     (Remote.emit (Remote.EvCall jobId StVoice)
        (Remote.jobsSet jobId job1
           (Remote.emit (Remote.EvStatus jobId generating_voice)
              (Remote.jobsSet jobId job0
                 (Remote.emit (Remote.EvSettled jobId StScript true) st)))),
      Remote.Suspended jobId job1 (Remote.PVoice content))).
Proof. intros H. cbn [Remote.processVideo_resume]. rewrite H. reflexivity. Qed.

Lemma local_resume_script w jobId job st content :
  Local.generateScript w (Local.script job) (Local.duration job)
  = Return content ->
  Local.processVideo_resume w (Local.Suspended jobId job Local.PScript) st
  = (let job0 := Local.set_generatedScript (Some content) job in
     let job1 := Local.set_statusMessage "Creating AI voiceover..."
                   (Local.set_status generating_voice job0) in
     (Local.emit (Local.EvCall jobId StVoice)
        (Local.jobsSet jobId job1
           (Local.emit (Local.EvStatus jobId generating_voice)
              (Local.jobsSet jobId job0
                 (Local.emit (Local.EvSettled jobId StScript true) st)))),
      Local.Suspended jobId job1 (Local.PVoice content))).
Proof. intros H. cbn [Local.processVideo_resume]. rewrite H. reflexivity. Qed.

(** A job whose pending call throws [msg] is [failed] with that message
    after the resumption and after any number of further ones. *)
Lemma remote_thrown_end w jobId job p st msg k :
  RemoteRun.thrown w job p = Some msg ->
  exists job',
    Remote.jobs (fst (Remote.drive w (S k) (st, Remote.Suspended jobId job p)))
      !! jobId = Some job'
    /\ Remote.status job' = failed
    /\ Remote.statusMessage job' = "Error: " +:+ msg.
Proof.
  intros Hthrown. rewrite RemoteFacts.remote_drive_S.
  rewrite (RemoteFacts.remote_resume_thrown _ _ _ _ _ _ Hthrown).
  unfold Remote.catch. cbn [Remote.enter fst snd].
  rewrite RemoteFacts.remote_drive_finished. cbn [fst].
  eexists. split; [apply RemoteFacts.remote_lookup_jobsSet|].
  split; reflexivity.
Qed.

Lemma local_thrown_end w jobId job p st msg k :
  LocalRun.thrown w jobId job p (Local.files st) = Some msg ->
  exists job',
    Local.jobs (fst (Local.drive w (S k) (st, Local.Suspended jobId job p)))
      !! jobId = Some job'
    /\ Local.status job' = failed
    /\ Local.statusMessage job' = "Error: " +:+ msg.
Proof.
  intros Hthrown. rewrite local_drive_S.
  destruct (LocalFacts.local_resume_thrown _ _ _ _ _ _ Hthrown)
    as (st0 & -> & _).
  unfold Local.catch. cbn [Local.enter fst snd].
  rewrite LocalFacts.local_drive_finished. cbn [fst].
  eexists. split; [apply LocalFacts.local_lookup_jobsSet|].
  split; reflexivity.
Qed.

(** When the script provider answers the request of a job with a response
    that is not ok, the job ends [failed] and its status message carries the
    body of that response after ["Error: OpenAI error: "]; when the script
    provider answers and the voice provider does not, the message carries
    the voice provider's body after ["Error: ElevenLabs error: "].  Both
    versions; the message stays through every later turn. *)
Theorem provider_refusal_is_reported :
  (forall (w : Remote.World) b jobId now m k text,
     Remote.openai w (Remote.systemPrompt (Remote.body_duration b))
       (Remote.userPrompt (Remote.body_script b)) = NotOk text ->
     exists job,
       Remote.jobs (fst (RemoteRun.run w b jobId now m (1 + k))) !! jobId = Some job
       /\ Remote.status job = failed
       /\ Remote.statusMessage job = "Error: OpenAI error: " +:+ text)
  /\ (forall (w : Remote.World) b jobId now m k content text,
     Remote.openai w (Remote.systemPrompt (Remote.body_duration b))
       (Remote.userPrompt (Remote.body_script b)) = Ok content ->
     Remote.elevenlabs w (Remote.voiceUrl (Remote.body_voice b)) content
     = NotOk text ->
     exists job,
       Remote.jobs (fst (RemoteRun.run w b jobId now m (2 + k))) !! jobId = Some job
       /\ Remote.status job = failed
       /\ Remote.statusMessage job = "Error: ElevenLabs error: " +:+ text
       /\ Remote.generatedScript job = Some content)
  /\ (forall (w : Local.World) b jobId now m fs k text,
     Local.openai w (Local.systemPrompt (Local.body_duration b))
       (Local.userPrompt (Local.body_script b)) = NotOk text ->
     exists job,
       Local.jobs (fst (LocalRun.run w b jobId now m fs (1 + k))) !! jobId = Some job
       /\ Local.status job = failed
       /\ Local.statusMessage job = "Error: OpenAI error: " +:+ text)
  /\ (forall (w : Local.World) b jobId now m fs k content text,
     Local.openai w (Local.systemPrompt (Local.body_duration b))
       (Local.userPrompt (Local.body_script b)) = Ok content ->
     Local.elevenlabs w (Local.voiceUrl (Local.body_voice b)) content
     = NotOk text ->
     exists job,
       Local.jobs (fst (LocalRun.run w b jobId now m fs (2 + k))) !! jobId = Some job
       /\ Local.status job = failed
       /\ Local.statusMessage job = "Error: ElevenLabs error: " +:+ text
       /\ Local.generatedScript job = Some content).
Proof.
  split; [|split; [|split]].
  - intros w b jobId now m k text Hrefused. unfold RemoteRun.run.
    rewrite RemoteFacts.remote_create_shape. cbv zeta. cbn [fst].
    apply remote_thrown_end.
    unfold RemoteRun.thrown, Remote.generateScript. cbn. rewrite Hrefused.
    reflexivity.
  - intros w b jobId now m k content text Hscript Hrefused. unfold RemoteRun.run.
    rewrite RemoteFacts.remote_create_shape. cbv zeta. cbn [fst].
    change (2 + k) with (S (S k)). rewrite RemoteFacts.remote_drive_S.
    rewrite (remote_resume_script _ _ _ _ content)
      by (unfold Remote.generateScript; cbn; rewrite Hscript; reflexivity).
    cbv zeta.
    match goal with
    | |- context [Remote.drive w (S k) (?s, Remote.Suspended _ ?j ?p)] =>
        destruct (remote_thrown_end w jobId j p s ("ElevenLabs error: " +:+ text) k)
          as (job' & Hjob & Hstatus & Hmsg)
    end.
    { unfold RemoteRun.thrown, Remote.generateVoice. cbn. rewrite Hrefused.
      reflexivity. }
    exists job'. split; [exact Hjob|]. split; [exact Hstatus|].
    split; [exact Hmsg|].
    rewrite RemoteFacts.remote_drive_S in Hjob.
    erewrite RemoteFacts.remote_resume_thrown in Hjob
      by (unfold RemoteRun.thrown, Remote.generateVoice; cbn; rewrite Hrefused;
          reflexivity).
    unfold Remote.catch in Hjob. cbn [Remote.enter fst snd] in Hjob.
    rewrite RemoteFacts.remote_drive_finished in Hjob. cbn [fst] in Hjob.
    rewrite RemoteFacts.remote_lookup_jobsSet in Hjob.
    injection Hjob as <-. reflexivity.
  - intros w b jobId now m fs k text Hrefused. unfold LocalRun.run.
    rewrite LocalFacts.local_create_shape. cbv zeta. cbn [fst].
    apply local_thrown_end.
    unfold LocalRun.thrown, Local.generateScript. cbn. rewrite Hrefused.
    reflexivity.
  - intros w b jobId now m fs k content text Hscript Hrefused. unfold LocalRun.run.
    rewrite LocalFacts.local_create_shape. cbv zeta. cbn [fst].
    change (2 + k) with (S (S k)). rewrite local_drive_S.
    rewrite (local_resume_script _ _ _ _ content)
      by (unfold Local.generateScript; cbn; rewrite Hscript; reflexivity).
    cbv zeta.
    assert (Hthrown : forall job st,
               Local.voice job = Local.body_voice b ->
               LocalRun.thrown w jobId job (Local.PVoice content) (Local.files st)
               = Some ("ElevenLabs error: " +:+ text)).
    { intros job st Hvoice. unfold LocalRun.thrown, Local.generateVoice.
      rewrite Hvoice, Hrefused. reflexivity. }
    match goal with
    | |- context [Local.drive w (S k) (?s, Local.Suspended _ ?j ?p)] =>
        destruct (local_thrown_end w jobId j p s ("ElevenLabs error: " +:+ text) k
                    (Hthrown j s eq_refl))
          as (job' & Hjob & Hstatus & Hmsg);
        pose proof (Hthrown j s eq_refl) as Hthrown'
    end.
    exists job'. split; [exact Hjob|]. split; [exact Hstatus|].
    split; [exact Hmsg|].
    rewrite local_drive_S in Hjob.
    destruct (LocalFacts.local_resume_thrown _ _ _ _ _ _ Hthrown')
      as (st0 & Hresume & _).
    rewrite Hresume in Hjob.
    unfold Local.catch in Hjob. cbn [Local.enter fst snd] in Hjob.
    rewrite LocalFacts.local_drive_finished in Hjob. cbn [fst] in Hjob.
    rewrite LocalFacts.local_lookup_jobsSet in Hjob.
    injection Hjob as <-. reflexivity.
Qed.

(** The voice provider refuses the request of scenario A's job. *)
Lemma provider_refusal_is_reported_witness :
  exists job,
    Remote.jobs
      (fst (RemoteRun.run Scenario.remoteVoiceDown Scenario.body "job-1" 0 ∅ 4))
      !! "job-1" = Some job
    /\ Remote.statusMessage job = "Error: ElevenLabs error: quota exceeded".
Proof.
  destruct (proj1 (proj2 provider_refusal_is_reported)
              Scenario.remoteVoiceDown Scenario.body "job-1" 0 ∅ 2
              "Unlock amazing coffee brewing secrets" "quota exceeded"
              eq_refl eq_refl)
    as (job & Hjob & _ & Hmsg & _).
  exists job. split; [exact Hjob | exact Hmsg].
Defined.

(** ** The footage of the remote version and its timeline *)

(** The URL of a clip is the link of one of the video's files: of the first
    file of quality [hd] when it has a link, and of the first file when no
    file is of quality [hd]; a video without files gets no URL. *)
Lemma clipUrl_rule (files : list VideoFile) :
  (forall f, findHd files = Some f -> link f <> EmptyString ->
             Remote.clipUrl files = Some (link f))
  /\ (findHd files = None -> Remote.clipUrl files = link <$> head files)
  /\ (forall l, Remote.clipUrl files = Some l -> exists f, In f files /\ link f = l)
  /\ (files = [] -> Remote.clipUrl files = None).
Proof.
  unfold Remote.clipUrl. split; [|split; [|split]].
  - intros f -> Hlink. cbn. apply String.eqb_neq in Hlink. rewrite Hlink.
    reflexivity.
  - intros ->. reflexivity.
  - intros l.
    assert (Hfirst : link <$> head files = Some l -> exists f, In f files /\ link f = l).
    { destruct files as [|f0 files]; [discriminate|].
      cbn. intros [= <-]. exists f0. split; [left|]; reflexivity. }
    destruct (findHd files) as [f|] eqn:Ehd; cbn; [|exact Hfirst].
    destruct (String.eqb (link f) EmptyString); [exact Hfirst|].
    intros [= <-]. exists f. split; [|reflexivity].
    unfold findHd in Ehd. apply find_some in Ehd. apply Ehd.
  - intros ->. reflexivity.
Qed.

(** When the footage provider answers with a list of videos, the remote
    [fetchStockFootage] returns one clip per video, in the provider's order,
    each with the id and the duration of its video and with a URL chosen
    among the links of the video's files: the link of the first [hd] file if
    it has one, the link of the first file when the video has no [hd]
    file. *)
Theorem footage_clips_from_videos :
  forall (w : Remote.World) script videos,
    Remote.pexels w (Remote.keywords script) = Ok (Some videos) ->
    exists cs,
      Remote.fetchStockFootage w script = Return cs
      /\ length cs = length videos
      /\ forall i video,
          videos !! i = Some video ->
          exists clip,
            cs !! i = Some clip
            /\ Remote.clip_id clip = video_id video
            /\ Remote.clip_duration clip = video_duration video
            /\ (forall f, findHd (video_files video) = Some f ->
                          link f <> EmptyString ->
                          Remote.clip_url clip = Some (link f))
            /\ (findHd (video_files video) = None ->
                Remote.clip_url clip = link <$> head (video_files video))
            /\ (forall l, Remote.clip_url clip = Some l ->
                          exists f, In f (video_files video) /\ link f = l).
Proof.
  intros w script videos Hvideos. unfold Remote.fetchStockFootage.
  rewrite Hvideos. eexists. split; [reflexivity|].
  split; [apply length_map|].
  intros i video Hi. exists (Remote.toClip video).
  split; [rewrite list_lookup_fmap, Hi; reflexivity|].
  split; [reflexivity|]. split; [reflexivity|].
  destruct (clipUrl_rule (video_files video)) as (H1 & H2 & H3 & _).
  split; [exact H1|]. split; [exact H2 | exact H3].
Qed.

(** The search result of scenario A: the second file is the [hd] one. *)
Lemma footage_clips_from_videos_witness :
  Remote.fetchStockFootage Scenario.remoteA "Unlock amazing coffee brewing secrets"
  = Return [ {| Remote.clip_id := 7;
                Remote.clip_url := Some "https://videos.example/7-hd.mp4";
                Remote.clip_duration := 12 |} ].
Proof.
  destruct (footage_clips_from_videos Scenario.remoteA
              "Unlock amazing coffee brewing secrets" [Scenario.portrait] eq_refl)
    as (cs & Hcs & _).
  rewrite Hcs. vm_compute in Hcs. injection Hcs as <-. reflexivity.
Defined.

(** The render timeline has one entry for each of the first three clips, in
    order: entry [i] plays the clip's URL from its start, fitted by [cover],
    for 10 seconds from second [10 * i], whatever the clip's own duration;
    so the entries follow each other without gap or overlap. *)
Theorem timeline_of_first_three_clips :
  forall cs : list Remote.Clip,
    let timeline := Remote.videoClips cs in
    length timeline = Nat.min 3 (length cs)
    /\ (forall i entry,
          timeline !! i = Some entry ->
          i < 3
          /\ Remote.tc_start entry = 10 * i
          /\ Remote.tc_length entry = 10
          /\ Remote.tc_trim entry = 0
          /\ Remote.tc_fit entry = "cover"
          /\ exists clip, cs !! i = Some clip
                          /\ Remote.tc_src entry = Remote.clip_url clip)
    /\ (forall i a b,
          timeline !! i = Some a -> timeline !! S i = Some b ->
          Remote.tc_start b = Remote.tc_start a + Remote.tc_length a).
Proof.
  intros cs timeline. subst timeline. unfold Remote.videoClips.
  assert (Hentry : forall i entry,
             imap (fun index clip =>
                     {| Remote.tc_src := Remote.clip_url clip; Remote.tc_trim := 0;
                        Remote.tc_start := index * 10; Remote.tc_length := 10;
                        Remote.tc_fit := "cover" |}) (take 3 cs) !! i = Some entry ->
             i < 3 /\ exists clip,
               cs !! i = Some clip
               /\ entry = {| Remote.tc_src := Remote.clip_url clip; Remote.tc_trim := 0;
                             Remote.tc_start := i * 10; Remote.tc_length := 10;
                             Remote.tc_fit := "cover" |}).
  { intros i entry. rewrite list_lookup_imap.
    destruct (take 3 cs !! i) as [clip|] eqn:Ei; [|discriminate].
    cbn. intros [= <-].
    apply lookup_take_Some in Ei. destruct Ei as [Ei Hlt].
    split; [exact Hlt|]. exists clip. split; [exact Ei | reflexivity]. }
  split; [rewrite length_imap, length_take; lia|]. split.
  - intros i entry Hi. destruct (Hentry i entry Hi) as (Hlt & clip & Hclip & ->).
    split; [exact Hlt|]. cbn. split; [lia|]. repeat split.
    exists clip. split; [exact Hclip | reflexivity].
  - intros i a b Ha Hb.
    destruct (Hentry i a Ha) as (_ & ca & _ & ->).
    destruct (Hentry (S i) b Hb) as (_ & cb & _ & ->).
    cbn. lia.
Qed.

(** The render service is asked for the status of a render only after the
    render was submitted, for a job that holds at least one clip, and was
    accepted: with no clip, or with a submission that throws or is not ok,
    [assembleVideo] waits for nothing and sends no status request. *)
Theorem render_polled_only_after_submission :
  forall (w : Remote.World) job,
    fst (Remote.assembleVideo w job) <> [] ->
    exists clip cs renderId,
      Remote.clips job = Some (clip :: cs)
      /\ Remote.shotstack_render w (Remote.videoClips (clip :: cs)) = Ok renderId
      /\ Remote.assembleVideo w job
         = Remote.pollLoop (Remote.shotstack_status w renderId) Remote.pollAttempts.
Proof.
  intros w job. unfold Remote.assembleVideo.
  destruct (Remote.clips job) as [[|clip cs]|];
    cbn [default from_option id length Nat.eqb fst];
    try (intros H; destruct H; reflexivity).
  destruct (Remote.shotstack_render w (Remote.videoClips (clip :: cs)))
    as [m|err|renderId] eqn:Erender; cbn [fst];
    try (intros H; destruct H; reflexivity).
  intros _. exists clip, cs, renderId.
  split; [reflexivity|]. split; [exact Erender | reflexivity].
Qed.

(** The assembly of scenario A's job. *)
Lemma render_polled_only_after_submission_witness :
  exists job renderId,
    fst (Remote.assembleVideo Scenario.remoteA job) <> []
    /\ Remote.assembleVideo Scenario.remoteA job
       = Remote.pollLoop (Remote.shotstack_status Scenario.remoteA renderId)
           Remote.pollAttempts.
Proof.
  exists (Remote.set_clips (Some [Remote.toClip Scenario.portrait])
            (Remote.newJob Scenario.body "job-1" 0)), "render-1".
  assert (Hpolled : fst (Remote.assembleVideo Scenario.remoteA
                           (Remote.set_clips (Some [Remote.toClip Scenario.portrait])
                              (Remote.newJob Scenario.body "job-1" 0))) <> [])
    by (vm_compute; discriminate).
  split; [exact Hpolled|].
  destruct (render_polled_only_after_submission _ _ Hpolled)
    as (clip & cs & renderId & _ & Hrender & ->).
  vm_compute in Hrender. injection Hrender as <-. reflexivity.
Defined.

(** ** The files of the local version *)

Lemma footage_download_effect (w : Local.World) template d jobId
    (fs : gmap string Buffer) :
  match Local.fetchStockFootage w template d jobId fs with
  | (Return path, fs') =>
      path = LocalData.footageFile jobId
      /\ exists bytes, fs' = <[path := bytes]> fs
  | (Throw _, fs') => fs' = fs
  end.
Proof.
  unfold Local.fetchStockFootage.
  destruct (Local.pexels w _) as [m|t|[[|v vs]|]]; try reflexivity.
  destruct ((v :: vs) !! _) as [randomVideo|]; [|reflexivity].
  destruct (match findHd _ with Some f => Some f | None => _ end) as [f|];
    [|reflexivity].
  destruct (Local.fetchFile w (link f)) as [buf|m]; [|reflexivity].
  unfold Local.writeFileSync. destruct (Local.writeFile w _) as [m|];
    [reflexivity|].
  split; [reflexivity|]. exists buf. reflexivity.
Qed.

Lemma local_resume_files w jobId t st path :
  LocalData.forJob jobId t ->
  path <> LocalRun.audioFile jobId -> path <> LocalData.footageFile jobId ->
  let c := Local.processVideo_resume w t st in
  LocalData.forJob jobId (snd c)
  /\ Local.files (fst c) !! path = Local.files st !! path.
Proof.
  intros Hfor Haudio Hfootage.
  destruct t as [j job p|]; [|split; reflexivity].
  cbn in Hfor. subst j.
  destruct p as [|gs|a|a d|a v]; cbn [Local.processVideo_resume].
  - destruct (Local.generateScript w _ _); split; reflexivity.
  - destruct (Local.generateVoice w _ _); [|split; reflexivity].
    unfold Local.writeFileSync. destruct (Local.writeFile w _);
      [split; reflexivity|].
    split; [reflexivity|]. cbn.
    apply lookup_insert_ne. intros E. apply Haudio. symmetry. exact E.
  - split; reflexivity.
  - pose proof (footage_download_effect w (Local.template job) d jobId
                  (Local.files st)) as Heffect.
    destruct (Local.fetchStockFootage w _ _ _ _) as [[videoPath|msg] fs'].
    + destruct Heffect as (-> & bytes & ->). split; [reflexivity|]. cbn.
      apply lookup_insert_ne. intros E. apply Hfootage. symmetry. exact E.
    + subst fs'. split; reflexivity.
  - destruct (Local.combineAudioVideo w _ _ _); split; reflexivity.
Qed.

(** A job's pipeline of the local version touches no file of the temp
    directory but the job's own: it writes the job's audio file and footage
    file, and hands the job's final file to the encoder as its output.
    Every other path holds after any number of turns what it held at the
    creation request.  [fetchStockFootage] writes the footage file, whose
    path it returns, exactly when it returns, and nothing when it throws. *)
Theorem pipeline_writes_only_own_files :
  (forall (w : Local.World) b jobId now m fs turns path,
     path <> LocalRun.audioFile jobId ->
     path <> LocalData.footageFile jobId ->
     path <> LocalData.finalFile jobId ->
     Local.files (fst (LocalRun.run w b jobId now m fs turns)) !! path
     = fs !! path)
  /\ (forall (w : Local.World) template d jobId (fs : gmap string Buffer),
     match Local.fetchStockFootage w template d jobId fs with
     | (Return path, fs') =>
         path = LocalData.footageFile jobId
         /\ exists bytes, fs' = <[path := bytes]> fs
     | (Throw _, fs') => fs' = fs
     end).
Proof.
  split; [|exact footage_download_effect].
  intros w b jobId now m fs turns path Haudio Hfootage _. unfold LocalRun.run.
  assert (Hgen : forall n c,
             LocalData.forJob jobId (snd c) ->
             Local.files (fst (Local.drive w n c)) !! path
             = Local.files (fst c) !! path).
  { induction n as [|n IH]; intros [st t] Hfor; [reflexivity|].
    cbn [Local.drive fst snd] in *.
    destruct t as [j job p|]; [|reflexivity].
    destruct (local_resume_files w jobId (Local.Suspended j job p) st path
                Hfor Haudio Hfootage) as (Hfor' & Hfiles).
    rewrite (IH _ Hfor'). exact Hfiles. }
  rewrite LocalFacts.local_create_shape. cbv zeta. cbn [fst].
  match goal with
  | |- context [Local.drive w turns ?c] => rewrite (Hgen turns c eq_refl)
  end.
  reflexivity.
Qed.

(** The final file of another job is not touched by scenario A's run. *)
Lemma pipeline_writes_only_own_files_witness :
  Local.files
    (fst (LocalRun.run Scenario.localA Scenario.localBody "job-1" 0 ∅
            {[ "./temp/job-0-final.mp4" := Scenario.audio ]} 5))
    !! "./temp/job-0-final.mp4"
  = Some Scenario.audio.
Proof.
  rewrite (proj1 pipeline_writes_only_own_files Scenario.localA Scenario.localBody
             "job-1" 0 ∅ {[ "./temp/job-0-final.mp4" := Scenario.audio ]} 5
             "./temp/job-0-final.mp4") by discriminate.
  reflexivity.
Defined.

Lemma local_audio_present_resume w jobId st t :
  LocalRun.Inv jobId (st, t) -> LocalData.audioPresent jobId (st, t) ->
  LocalData.audioPresent jobId (Local.processVideo_resume w t st).
Proof.
  destruct t as [j job p|]; [|intros _ H; exact H].
  intros Hinv Hpresent.
  pose proof (LocalFacts.local_inv_resume w jobId st (Local.Suspended j job p) Hinv)
    as Hnext.
  revert Hinv. unfold LocalRun.Inv at 1; cbn [fst snd].
  intros [-> [Hstore _ _ _ Hempty Haudio]].
  pose proof (Hpresent job Hstore) as Hfile. cbn [fst] in Hfile.
  destruct (Local.processVideo_resume w (Local.Suspended jobId job p) st)
    as [st' t'] eqn:Eresume.
  unfold LocalRun.Inv in Hnext. unfold LocalData.audioPresent. cbn [fst snd] in Hnext |- *.
  destruct t' as [j' job' p'|].
  - (* still running: the invariant of the run says it *)
    destruct Hnext as [-> [Hstore' _ _ _ Hempty' Haudio']].
    intros job0 Hjob0 Hnamed. rewrite Hstore' in Hjob0. injection Hjob0 as <-.
    destruct p' as [|gs'|a'|a' d'|a' v']; cbn in Hempty', Haudio'.
    + destruct Hempty' as (_ & Hnone & _). rewrite Hnone in Hnamed.
      destruct (is_Some_None Hnamed).
    + destruct Hempty' as (Hnone & _). rewrite Hnone in Hnamed.
      destruct (is_Some_None Hnamed).
    + destruct Haudio' as (-> & _ & _ & Hthere). exact Hthere.
    + destruct Haudio' as (-> & _ & _ & Hthere). exact Hthere.
    + destruct Haudio' as (-> & _ & _ & Hthere). exact Hthere.
  - (* over: the record names the audio only if it did before, and the
       resumption kept the file *)
    intros job0 Hjob0 Hnamed.
    assert (Hkeeps : Local.audioPath job0 = Local.audioPath job
                     /\ Local.files st' !! LocalRun.audioFile jobId
                        = Local.files st !! LocalRun.audioFile jobId).
    { revert Eresume Hjob0. clear.
      destruct p as [|gs|a|a d|a v]; cbn [Local.processVideo_resume].
      - destruct (Local.generateScript w _ _); [discriminate|].
        unfold Local.catch. cbn [Local.enter fst snd]. intros [= <-].
        rewrite LocalFacts.local_lookup_jobsSet. intros [= <-].
        split; reflexivity.
      - destruct (Local.generateVoice w _ _).
        + unfold Local.writeFileSync. destruct (Local.writeFile w _);
            [|discriminate].
          unfold Local.catch. cbn [Local.enter fst snd]. intros [= <-].
          rewrite LocalFacts.local_lookup_jobsSet. intros [= <-].
          split; reflexivity.
        + unfold Local.catch. cbn [Local.enter fst snd]. intros [= <-].
          rewrite LocalFacts.local_lookup_jobsSet. intros [= <-].
          split; reflexivity.
      - discriminate.
      - pose proof (LocalFacts.local_footage_keeps_audio w (Local.template job)
                      d jobId (Local.files st)) as Hkeep.
        destruct (Local.fetchStockFootage w _ _ _ _) as [[|] fs'];
          [discriminate|].
        unfold Local.catch. cbn [Local.enter fst snd]. intros [= <-].
        rewrite LocalFacts.local_lookup_jobsSet. intros [= <-].
        split; [reflexivity | exact Hkeep].
      - destruct (Local.combineAudioVideo w _ _ _);
          unfold Local.catch; cbn [Local.enter fst snd]; intros [= <-];
          rewrite LocalFacts.local_lookup_jobsSet; intros [= <-];
          split; reflexivity. }
    destruct Hkeeps as (Hsame & Hfiles). rewrite Hfiles. apply Hfile.
    rewrite <- Hsame. exact Hnamed.
Qed.

(** Along every run of the local version, when the audio route sends a
    file, it is the audio file of the job, and the pipeline has written
    that file to the temp directory (the sweep of the directory apart). *)
Theorem audio_route_names_existing_file :
  forall (w : Local.World) b jobId now m fs turns path,
    let st := fst (LocalRun.run w b jobId now m fs turns) in
    Local.getAudio st jobId = Local.RespSendFile "audio/mpeg" path ->
    path = LocalRun.audioFile jobId /\ is_Some (Local.files st !! path).
Proof.
  intros w b jobId now m fs turns path st Hroute.
  destruct (local_kept_run w b jobId now m fs turns) as (job & Hjob & Hsound & _).
  fold st in Hjob. destruct Hsound.
  assert (Hpresent : LocalData.audioPresent jobId (LocalRun.run w b jobId now m fs turns)).
  { unfold LocalRun.run.
    assert (Hgen : forall n c, LocalRun.Inv jobId c -> LocalData.audioPresent jobId c ->
                               LocalData.audioPresent jobId (Local.drive w n c)).
    { induction n as [|n IH]; intros [s t] Hinv Hp; [exact Hp|].
      cbn [Local.drive fst snd]. destruct t as [j0 job0 p0|]; [|exact Hp].
      apply IH; [apply LocalFacts.local_inv_resume, Hinv
                | apply local_audio_present_resume; assumption]. }
    apply Hgen; [apply LocalFacts.local_inv_create|].
    rewrite LocalFacts.local_create_shape. cbv zeta. cbn [fst].
    intros job0 Hjob0. cbn in Hjob0. rewrite lookup_insert_eq in Hjob0.
    injection Hjob0 as <-.
    cbn. intros Hnamed. destruct (is_Some_None Hnamed). }
  unfold Local.getAudio in Hroute. rewrite Hjob in Hroute.
  destruct (Local.audioPath job) as [p|] eqn:Epath; [|discriminate].
  destruct (String.eqb p EmptyString); [discriminate|].
  injection Hroute as <-.
  rewrite (sound_audio_path p eq_refl).
  split; [reflexivity|].
  apply (Hpresent job Hjob). rewrite Epath. eexists; reflexivity.
Qed.

(** The audio route after the voice stage of scenario A. *)
Lemma audio_route_names_existing_file_witness :
  Local.files
    (fst (LocalRun.run Scenario.localA Scenario.localBody "job-1" 0 ∅ ∅ 2))
    !! "./temp/job-1-audio.mp3"
  = Some Scenario.audio.
Proof.
  destruct (audio_route_names_existing_file Scenario.localA Scenario.localBody
              "job-1" 0 ∅ ∅ 2 "./temp/job-1-audio.mp3")
    as (_ & bytes & Hbytes); [vm_compute; reflexivity|].
  rewrite Hbytes. vm_compute in Hbytes. injection Hbytes as <-. reflexivity.
Defined.

(** In the local version a refusal of the footage provider or a failure of
    the encoder ends the job [failed] with a fixed message: the body of the
    provider's response and the encoder's error are not reported. *)
Theorem local_failures_report_fixed_messages :
  (forall (w : Local.World) jobId job a d st k text,
     Local.pexels w (propToString (Local.query (Local.template job))) = NotOk text ->
     exists job',
       Local.jobs (fst (Local.drive w (S k)
                          (st, Local.Suspended jobId job (Local.PFootage a d))))
         !! jobId = Some job'
       /\ Local.status job' = failed
       /\ Local.statusMessage job' = "Error: Failed to fetch stock footage")
  /\ (forall (w : Local.World) jobId job a v st k message,
     Local.ffmpeg w
       (Local.ffmpegCommand w a v (LocalData.finalFile jobId)
          (Local.getAudioDuration w 1 a)) = Local.ExecFail message ->
     exists job',
       Local.jobs (fst (Local.drive w (S k)
                          (st, Local.Suspended jobId job (Local.PAssemble a v))))
         !! jobId = Some job'
       /\ Local.status job' = failed
       /\ Local.statusMessage job' = "Error: Failed to combine audio and video").
Proof.
  split.
  - intros w jobId job a d st k text Hrefused.
    apply local_thrown_end. unfold LocalRun.thrown, Local.fetchStockFootage.
    rewrite Hrefused. reflexivity.
  - intros w jobId job a v st k message Hfailed.
    apply local_thrown_end. unfold LocalRun.thrown, Local.combineAudioVideo.
    unfold LocalData.finalFile in Hfailed. rewrite Hfailed. reflexivity.
Qed.

(** The encoder fails on the job of scenario A. *)
Lemma local_failures_report_fixed_messages_witness :
  let w := {| Local.openai := Local.openai Scenario.localA;
              Local.elevenlabs := Local.elevenlabs Scenario.localA;
              Local.writeFile := Local.writeFile Scenario.localA;
              Local.ffprobe := Local.ffprobe Scenario.localA;
              Local.pexels := Local.pexels Scenario.localA;
              Local.random := Local.random Scenario.localA;
              Local.fetchFile := Local.fetchFile Scenario.localA;
              Local.ffmpeg := fun _ => Local.ExecFail "Unknown encoder 'libx264'";
              Local.numberText := Local.numberText Scenario.localA |} in
  exists job',
    Local.jobs
      (fst (Local.drive w 1
              ({| Local.jobs := ∅; Local.files := ∅; Local.log := [] |},
               Local.Suspended "job-1" (Local.newJob Scenario.localBody "job-1" 0)
                 (Local.PAssemble "./temp/job-1-audio.mp3"
                    "./temp/job-1-footage.mp4"))))
      !! "job-1" = Some job'
    /\ Local.statusMessage job' = "Error: Failed to combine audio and video".
Proof.
  cbv zeta.
  match goal with
  | |- context [Local.drive ?w 1 (?st, Local.Suspended ?j ?job (Local.PAssemble ?a ?v))] =>
      destruct (proj2 local_failures_report_fixed_messages w j job a v st 0
                  "Unknown encoder 'libx264'" eq_refl)
        as (job' & Hjob & _ & Hmsg)
  end.
  exists job'. split; [exact Hjob | exact Hmsg].
Defined.

(** ** The sweep of the temp directory *)

Lemma lessThan_spec (a b : Sweep.Ms) :
  Sweep.lessThan a b = true <-> QArith_base.Qlt a b.
Proof.
  unfold Sweep.lessThan. rewrite negb_true_iff.
  destruct (QArith_base.Qle_bool b a) eqn:E.
  - apply QArith_base.Qle_bool_iff in E. split; [discriminate|].
    intros Hlt. destruct (QArith_base.Qlt_not_le _ _ Hlt E).
  - split; [|reflexivity]. intros _.
    apply QArith_base.Qnot_le_lt. intros Hle.
    apply QArith_base.Qle_bool_iff in Hle. congruence.
Qed.

Lemma sweepFile_unlinked w oneHourAgo file path :
  In path (Sweep.unlinked (Sweep.sweepFile w oneHourAgo file))
  <-> path = Sweep.filePath file
      /\ exists mtimeMs,
          Sweep.statSync w path = Return mtimeMs
          /\ QArith_base.Qlt mtimeMs (QArith_base.inject_Z oneHourAgo)
          /\ Sweep.unlinkSync w path = None.
Proof.
  unfold Sweep.sweepFile.
  destruct (Sweep.statSync w (Sweep.filePath file)) as [mtimeMs|m] eqn:Estat.
  - destruct (Sweep.lessThan mtimeMs (QArith_base.inject_Z oneHourAgo)) eqn:Eold.
    + destruct (Sweep.unlinkSync w (Sweep.filePath file)) as [m|] eqn:Eunlink.
      * cbn. split; [intros []|]. intros (-> & t & _ & _ & Hnone). congruence.
      * cbn. split.
        -- intros [<-|[]]. split; [reflexivity|]. exists mtimeMs.
           split; [exact Estat|]. split; [apply lessThan_spec, Eold | exact Eunlink].
        -- intros (-> & _). left. reflexivity.
    + cbn. split; [intros []|]. intros (-> & t & Hstat & Hlt & _).
      rewrite Estat in Hstat. injection Hstat as <-.
      apply lessThan_spec in Hlt. congruence.
  - cbn. split; [intros []|]. intros (-> & t & Hstat & _). congruence.
Qed.

(** One run of the sweep removes a path exactly when it is the path of a
    listed file whose [mtimeMs] can be read and is more than one hour
    (3600000 ms) before the current time, and whose removal does not throw.
    So a file modified within the last hour is never removed, and an error
    on one file (its [stat] or its removal throwing) keeps no other file
    from being removed.  When the directory does not exist nothing is
    done. *)
Theorem sweep_removes_old_files :
  (forall (w : Sweep.World) now entries path,
     In path (Sweep.unlinked (Sweep.sweep w now true entries))
     <-> exists file mtimeMs,
           In file entries
           /\ path = Sweep.filePath file
           /\ Sweep.statSync w path = Return mtimeMs
           /\ QArith_base.Qlt mtimeMs (QArith_base.inject_Z (now - 3600000))
           /\ Sweep.unlinkSync w path = None)
  /\ (forall (w : Sweep.World) now entries, Sweep.sweep w now false entries = []).
Proof.
  split; [|reflexivity].
  intros w now entries path. unfold Sweep.sweep.
  change (now - 60 * 60 * 1000)%Z with (now - 3600000)%Z.
  induction entries as [|file entries IH].
  - cbn. split; [intros []|]. intros (file & t & [] & _).
  - cbn [flat_map]. unfold Sweep.unlinked in *. rewrite omap_app, in_app_iff, IH.
    fold (Sweep.unlinked (Sweep.sweepFile w (now - 3600000) file)).
    rewrite sweepFile_unlinked. split.
    + intros [(-> & t & Hstat & Hold & Hunlink)|(f & t & Hin & Hrest)].
      * exists file, t. split; [left; reflexivity|]. repeat split; assumption.
      * exists f, t. split; [right; exact Hin | exact Hrest].
    + intros (f & t & [<-|Hin] & Hpath & Hrest).
      * left. split; [exact Hpath|]. exists t. exact Hrest.
      * right. exists f, t. split; [exact Hin|]. split; [exact Hpath | exact Hrest].
Qed.

(** A directory with a file of two hours ago, one of ten minutes ago and
    one whose [stat] throws, swept at time 10000000: only the first one is
    removed. *)
Example sweep_demo :
  let w := {| Sweep.statSync := fun p =>
                if String.eqb p "temp/a-final.mp4"
                then Return (QArith_base.inject_Z 2800000)
                else if String.eqb p "temp/b-audio.mp3"
                then Return (QArith_base.inject_Z 9400000)
                else Throw "ENOENT";
              Sweep.unlinkSync := fun _ => None |} in
  Sweep.unlinked
    (Sweep.sweep w 10000000 true ["gone.mp4"; "a-final.mp4"; "b-audio.mp3"])
  = ["temp/a-final.mp4"].
Proof. vm_compute. reflexivity. Qed.

(** ** The requests of the stages *)

Lemma strictEq_ne (d : JSVal) (lit : string) :
  d <> JStr lit -> strictEq d lit = false.
Proof.
  destruct d as [| |b|s|r]; intros H; try reflexivity. cbn.
  apply String.eqb_neq. intros ->. apply H. reflexivity.
Qed.

(** The word count in the system prompt of the remote version. *)
Lemma remote_systemPrompt_words (d : JSVal) :
  (d = JStr "30s" -> contains (Remote.systemPrompt d) "Keep it around 75 words.")
  /\ (d = JStr "60s" -> contains (Remote.systemPrompt d) "Keep it around 150 words.")
  /\ (d <> JStr "30s" -> d <> JStr "60s" ->
      contains (Remote.systemPrompt d) "Keep it around 225 words.").
Proof.
  assert (Hwords : forall n, Remote.wordCount d = n ->
             contains (Remote.systemPrompt d)
               ("Keep it around " +:+ natToString n +:+ " words.")).
  { intros n <-. unfold Remote.systemPrompt.
    exists "You are a viral short-form video scriptwriter. Write engaging scripts for TikTok/Reels/Shorts. Start with a hook. ",
      " No emojis. Just spoken words.".
    rewrite !append_assoc. reflexivity. }
  split; [|split].
  - intros ->. apply (Hwords 75). reflexivity.
  - intros ->. apply (Hwords 150). reflexivity.
  - intros H30 H60. apply (Hwords 225). unfold Remote.wordCount.
    rewrite (strictEq_ne _ _ H30), (strictEq_ne _ _ H60). reflexivity.
Qed.

Lemma local_systemPrompt_words (d : JSVal) :
  (d = JStr "30" -> contains (Local.systemPrompt d) "Keep it around 75 words.")
  /\ (d = JStr "60" -> contains (Local.systemPrompt d) "Keep it around 150 words.")
  /\ (d <> JStr "30" -> d <> JStr "60" ->
      contains (Local.systemPrompt d) "Keep it around 225 words.").
Proof.
  assert (Hwords : forall n, Local.wordCount d = n ->
             contains (Local.systemPrompt d)
               ("Keep it around " +:+ natToString n +:+ " words.")).
  { intros n <-. unfold Local.systemPrompt.
    exists "You are a viral TikTok script writer. Write engaging, hook-driven scripts that capture attention in the first 2 seconds. ",
      " No hashtags, no emojis, just the spoken script.".
    rewrite !append_assoc. reflexivity. }
  split; [|split].
  - intros ->. apply (Hwords 75). reflexivity.
  - intros ->. apply (Hwords 150). reflexivity.
  - intros H30 H60. apply (Hwords 225). unfold Local.wordCount.
    rewrite (strictEq_ne _ _ H30), (strictEq_ne _ _ H60). reflexivity.
Qed.

(** C8.  For every job, the one request that the script stage sends to the
    script provider carries a system prompt made from the duration of the
    creation request, which asks for around 75 words for the short bucket
    (['30s'], resp. ['30'] in the local version), 150 for the medium one
    (['60s'], resp. ['60']) and 225 for every other value.  The stage sends
    that request: what the provider answers to it becomes the generated
    script of the job, and the turn of the stage reads no other answer of
    the provider. *)
Theorem word_count_by_duration :
  (forall (w : Remote.World) b jobId now m,
     let system := Remote.systemPrompt (Remote.body_duration b) in
     let user := Remote.userPrompt (Remote.body_script b) in
     ((Remote.body_duration b = JStr "30s" ->
       contains system "Keep it around 75 words.")
      /\ (Remote.body_duration b = JStr "60s" ->
          contains system "Keep it around 150 words.")
      /\ (Remote.body_duration b <> JStr "30s" ->
          Remote.body_duration b <> JStr "60s" ->
          contains system "Keep it around 225 words."))
     /\ (forall content,
           Remote.openai w system user = Ok content ->
           exists job,
             Remote.jobs (fst (RemoteRun.run w b jobId now m 1)) !! jobId
             = Some job
             /\ Remote.status job = generating_voice
             /\ Remote.generatedScript job = Some content)
     /\ (forall f,
           f system user = Remote.openai w system user ->
           RemoteRun.run (RemoteRun.with_openai f w) b jobId now m 1
           = RemoteRun.run w b jobId now m 1))
  /\ (forall (w : Local.World) b jobId now m fs,
     let system := Local.systemPrompt (Local.body_duration b) in
     let user := Local.userPrompt (Local.body_script b) in
     ((Local.body_duration b = JStr "30" ->
       contains system "Keep it around 75 words.")
      /\ (Local.body_duration b = JStr "60" ->
          contains system "Keep it around 150 words.")
      /\ (Local.body_duration b <> JStr "30" ->
          Local.body_duration b <> JStr "60" ->
          contains system "Keep it around 225 words."))
     /\ (forall content,
           Local.openai w system user = Ok content ->
           exists job,
             Local.jobs (fst (LocalRun.run w b jobId now m fs 1)) !! jobId
             = Some job
             /\ Local.status job = generating_voice
             /\ Local.generatedScript job = Some content)
     /\ (forall f,
           f system user = Local.openai w system user ->
           LocalRun.run (LocalRun.with_openai f w) b jobId now m fs 1
           = LocalRun.run w b jobId now m fs 1)).
Proof.
  split.
  - intros w b jobId now m system user.
    split; [apply remote_systemPrompt_words|]. split.
    + intros content Hanswer. unfold RemoteRun.run.
      rewrite RemoteFacts.remote_create_shape. cbv zeta. cbn [fst].
      rewrite RemoteFacts.remote_drive_S.
      rewrite (remote_resume_script _ _ _ _ content);
        [|unfold Remote.generateScript; cbn [Remote.inputScript Remote.duration
            Remote.set_statusMessage Remote.set_status Remote.newJob];
          fold system user; rewrite Hanswer; reflexivity].
      cbv zeta. cbn [Remote.drive fst snd].
      eexists. split; [apply RemoteFacts.remote_lookup_jobsSet|].
      split; reflexivity.
    + intros f Hf. unfold RemoteRun.run.
      rewrite !RemoteFacts.remote_create_shape. cbv zeta. cbn [fst].
      rewrite !RemoteFacts.remote_drive_S. f_equal.
      cbn [Remote.processVideo_resume]. unfold Remote.generateScript.
      cbn [Remote.openai RemoteRun.with_openai Remote.inputScript Remote.duration
           Remote.set_statusMessage Remote.set_status Remote.newJob].
      fold system user. rewrite Hf. reflexivity.
  - intros w b jobId now m fs system user.
    split; [apply local_systemPrompt_words|]. split.
    + intros content Hanswer. unfold LocalRun.run.
      rewrite LocalFacts.local_create_shape. cbv zeta. cbn [fst].
      rewrite local_drive_S.
      rewrite (local_resume_script _ _ _ _ content);
        [|unfold Local.generateScript; cbn [Local.script Local.duration
            Local.set_statusMessage Local.set_status Local.newJob];
          fold system user; rewrite Hanswer; reflexivity].
      cbv zeta. cbn [Local.drive fst snd].
      eexists. split; [apply LocalFacts.local_lookup_jobsSet|].
      split; reflexivity.
    + intros f Hf. unfold LocalRun.run.
      rewrite !LocalFacts.local_create_shape. cbv zeta. cbn [fst].
      rewrite !local_drive_S. f_equal.
      cbn [Local.processVideo_resume]. unfold Local.generateScript.
      cbn [Local.openai LocalRun.with_openai Local.script Local.duration
           Local.set_statusMessage Local.set_status Local.newJob].
      fold system user. rewrite Hf. reflexivity.
Qed.

(** The requests of scenario A, of 30 seconds, and a request whose duration
    is not a string. *)
Lemma word_count_by_duration_witness :
  contains (Remote.systemPrompt (Remote.body_duration Scenario.body))
    "Keep it around 75 words."
  /\ (exists job,
        Remote.jobs (fst (RemoteRun.run Scenario.remoteA Scenario.body "job-1" 0 ∅ 1))
          !! "job-1" = Some job
        /\ Remote.generatedScript job
           = Some "Unlock amazing coffee brewing secrets")
  /\ contains (Local.systemPrompt JUndefined) "Keep it around 225 words.".
Proof.
  destruct word_count_by_duration as [Hremote Hlocal].
  destruct (Hremote Scenario.remoteA Scenario.body "job-1" 0 ∅)
    as ((H30 & _) & Hsent & _).
  split; [apply H30; reflexivity|]. split.
  - destruct (Hsent "Unlock amazing coffee brewing secrets" eq_refl)
      as (job & Hjob & _ & Hscript).
    exists job. split; assumption.
  - destruct (Hlocal Scenario.localA
                {| Local.body_script := JStr "coffee brewing";
                   Local.body_template := JUndefined;
                   Local.body_voice := JUndefined;
                   Local.body_duration := JUndefined |} "job-1" 0 ∅ ∅)
      as ((_ & _ & H225) & _).
    apply H225; discriminate.
Defined.

(** The query that the table gives for a template. *)
Lemma local_query_table (template : JSVal) :
  (forall entry,
     ownProp Local.searchTerms (toString template) = Some entry ->
     propToString (Local.query template) = entry)
  /\ (ownProp Local.searchTerms (toString template) = None ->
      inherited (toString template) = false ->
      propToString (Local.query template) = "aesthetic cinematic").
Proof.
  split.
  - intros entry Hown. unfold Local.query, getProp. rewrite Hown.
    revert Hown. cbn [ownProp Local.searchTerms].
    repeat match goal with
           | |- context [String.eqb ?a (toString template)] =>
               destruct (String.eqb a (toString template));
               [intros [= <-]; reflexivity|]
           end.
    discriminate.
  - intros Hown Hin. unfold Local.query, getProp.
    rewrite Hown, Hin. reflexivity.
Qed.

(** The keywords of a script. *)
Lemma remote_keywords_words (script : string) :
  Remote.keywords script
  = match take 3 (RemoteRun.longWords script) with
    | [] => "business technology"
    | ws => String.concat " " ws
    end.
Proof.
  unfold Remote.keywords. fold (RemoteRun.longWords script).
  assert (Hlong : Forall (fun word => word <> EmptyString)
                    (take 3 (RemoteRun.longWords script))).
  { apply Forall_take. unfold RemoteRun.longWords.
    apply Forall_forall. intros word Hin.
    apply list_elem_of_In, filter_In in Hin. destruct Hin as [_ Hlen].
    intros ->. discriminate Hlen. }
  destruct (take 3 (RemoteRun.longWords script)) as [|word ws];
    [reflexivity|].
  apply Forall_cons in Hlong. destruct Hlong as [Hword _].
  pose proof (concat_nonempty " " word ws Hword) as Hne.
  apply String.eqb_neq in Hne. rewrite Hne. reflexivity.
Qed.

(** C5, as amended.  Take a job whose task waits at the footage stage.  In
    the local version the stage asks the footage provider for one query,
    read from the template of the creation request alone: the entry of the
    static table when the template is one of its keys, and the query of
    ['default'] when the template names no property of the table, own or
    inherited.  In the remote version the stage asks for one query made of
    the job's generated script and not of the template: the first three of
    the script's space-separated words of more than five characters, joined
    by spaces, and ["business technology"] when there is none.  In both
    versions the stage sends that request (when it is rejected the job fails
    with the rejection's message) and its turn reads no other answer of the
    provider. *)
Theorem footage_query_source :
  (forall (w : Local.World) b jobId now m fs turns st job a d,
     LocalRun.run w b jobId now m fs turns
     = (st, Local.Suspended jobId job (Local.PFootage a d)) ->
     let template := Local.body_template b in
     let q := propToString (Local.query template) in
     (forall entry,
        ownProp Local.searchTerms (toString template) = Some entry -> q = entry)
     /\ (ownProp Local.searchTerms (toString template) = None ->
         inherited (toString template) = false ->
         q = "aesthetic cinematic")
     /\ (forall message k,
           Local.pexels w q = Rejected message ->
           exists job',
             Local.jobs
               (fst (Local.drive w (S k)
                       (st, Local.Suspended jobId job (Local.PFootage a d))))
               !! jobId = Some job'
             /\ Local.status job' = failed
             /\ Local.statusMessage job' = "Error: " +:+ message)
     /\ (forall f,
           f q = Local.pexels w q ->
           Local.processVideo_resume (LocalRun.with_pexels f w)
             (Local.Suspended jobId job (Local.PFootage a d)) st
           = Local.processVideo_resume w
               (Local.Suspended jobId job (Local.PFootage a d)) st))
  /\ (forall (w : Remote.World) b jobId now m turns st job script,
     RemoteRun.run w b jobId now m turns
     = (st, Remote.Suspended jobId job (Remote.PFootage script)) ->
     let q := match take 3 (RemoteRun.longWords script) with
              | [] => "business technology"
              | ws => String.concat " " ws
              end in
     Remote.generatedScript job = Some script
     /\ (forall message k,
           Remote.pexels w q = Rejected message ->
           exists job',
             Remote.jobs
               (fst (Remote.drive w (S k)
                       (st, Remote.Suspended jobId job (Remote.PFootage script))))
               !! jobId = Some job'
             /\ Remote.status job' = failed
             /\ Remote.statusMessage job' = "Error: " +:+ message)
     /\ (forall videos,
           Remote.pexels w q = Ok (Some videos) ->
           exists job',
             Remote.jobs
               (fst (Remote.processVideo_resume w
                       (Remote.Suspended jobId job (Remote.PFootage script)) st))
               !! jobId = Some job'
             /\ Remote.status job' = assembling_video
             /\ Remote.clips job' = Some (map Remote.toClip videos))
     /\ (forall f,
           f q = Remote.pexels w q ->
           Remote.processVideo_resume (RemoteRun.with_pexels f w)
             (Remote.Suspended jobId job (Remote.PFootage script)) st
           = Remote.processVideo_resume w
               (Remote.Suspended jobId job (Remote.PFootage script)) st)).
Proof.
  split.
  - intros w b jobId now m fs turns st job a d Hrun template q.
    destruct (local_kept_run w b jobId now m fs turns)
      as (job0 & _ & Hsound & Htask).
    rewrite Hrun in Htask. cbn [snd] in Htask.
    destruct Htask as (_ & -> & _).
    assert (Htemplate : Local.template job0 = template) by apply Hsound.
    destruct (local_query_table template) as (Hentry & Hdefault).
    split; [exact Hentry|]. split; [exact Hdefault|]. split.
    + intros message k Hrejected. apply local_thrown_end.
      unfold LocalRun.thrown, Local.fetchStockFootage.
      rewrite Htemplate. fold q. rewrite Hrejected. reflexivity.
    + intros f Hf. cbn [Local.processVideo_resume].
      unfold Local.fetchStockFootage. cbn [Local.pexels LocalRun.with_pexels
        Local.random Local.fetchFile Local.writeFile]. unfold Local.writeFileSync.
      cbn [Local.writeFile LocalRun.with_pexels].
      rewrite Htemplate. fold q. rewrite Hf. reflexivity.
  - intros w b jobId now m turns st job script Hrun q.
    pose proof (RemoteFacts.remote_inv_run w b jobId now m turns) as Hinv.
    rewrite Hrun in Hinv.
    destruct Hinv as [_ [_ _ _ _ _ (Hscript & _)]].
    assert (Hq : Remote.keywords script = q) by apply remote_keywords_words.
    split; [exact Hscript|]. split; [|split].
    + intros message k Hrejected. apply remote_thrown_end.
      unfold RemoteRun.thrown, Remote.fetchStockFootage.
      rewrite Hq, Hrejected. reflexivity.
    + intros videos Hvideos.
      rewrite (RemoteFacts.remote_resume_footage _ _ _ _ _ (map Remote.toClip videos));
        [|unfold Remote.fetchStockFootage; rewrite Hq, Hvideos; reflexivity].
      cbv zeta. cbn [fst].
      eexists. split; [apply RemoteFacts.remote_lookup_jobsSet|].
      split; reflexivity.
    + intros f Hf. cbn [Remote.processVideo_resume].
      unfold Remote.fetchStockFootage. cbn [Remote.pexels RemoteRun.with_pexels].
      rewrite Hq, Hf. reflexivity.
Qed.

(** The footage stage of scenario A, in both versions: the template
    ["fitness"], and a script with three long words. *)
Lemma footage_query_source_witness :
  (let c0 := LocalRun.run Scenario.localA Scenario.localBody "job-1" 0 ∅ ∅ 3 in
   exists job a d,
     snd c0 = Local.Suspended "job-1" job (Local.PFootage a d)
     /\ propToString (Local.query (Local.body_template Scenario.localBody))
        = "workout gym")
  /\ (let c0 := RemoteRun.run Scenario.remoteA Scenario.body "job-1" 0 ∅ 2 in
      exists job script,
        snd c0 = Remote.Suspended "job-1" job (Remote.PFootage script)
        /\ Remote.generatedScript job = Some script
        /\ Remote.clips
             <$> Remote.jobs
                   (fst (Remote.processVideo_resume Scenario.remoteA
                           (Remote.Suspended "job-1" job (Remote.PFootage script))
                           (fst c0))) !! "job-1"
           = Some (Some [Remote.toClip Scenario.portrait])).
Proof.
  split; cbv zeta.
  - do 3 eexists.
    match goal with
    | |- ?A /\ _ => assert (Hsnd : A) by (vm_compute; reflexivity)
    end.
    split; [exact Hsnd|].
    destruct (proj1 footage_query_source _ _ _ _ _ _ _ _ _ _ _
                (pair_of_snd _ _ Hsnd)) as (Hentry & _).
    apply Hentry. reflexivity.
  - do 2 eexists.
    match goal with
    | |- ?A /\ _ => assert (Hsnd : A) by (vm_compute; reflexivity)
    end.
    split; [exact Hsnd|].
    destruct (proj2 footage_query_source _ _ _ _ _ _ _ _ _
                (pair_of_snd _ _ Hsnd)) as (Hscript & _ & Hclips & _).
    split; [exact Hscript|].
    destruct (Hclips [Scenario.portrait] eq_refl) as (job' & Hjob' & _ & Hcs).
    rewrite Hjob'. cbn [fmap option_fmap option_map]. rewrite Hcs. reflexivity.
Defined.

(** The [-t] option of the encoder's command line. *)
Lemma ffmpegCommand_trim (w : Local.World) audioPath videoPath outputPath
    (audioDuration : Local.Num) :
  contains (Local.ffmpegCommand w audioPath videoPath outputPath audioDuration)
    (" -t " +:+ Local.numToString w audioDuration +:+ " ").
Proof.
  unfold Local.ffmpegCommand.
  exists ("ffmpeg -y " +:+ "    -stream_loop -1 -i " +:+ Local.dq +:+ videoPath
          +:+ Local.dq +:+ " " +:+ "    -i " +:+ Local.dq +:+ audioPath
          +:+ Local.dq +:+ " " +:+ "   "),
    ("    -c:v libx264 -preset fast -crf 23 "
     +:+ "    -c:a aac -b:a 128k "
     +:+ "    -map 0:v:0 -map 1:a:0 "
     +:+ "    -shortest "
     +:+ "    -movflags +faststart "
     +:+ "    " +:+ Local.dq +:+ outputPath +:+ Local.dq).
  rewrite !append_assoc. reflexivity.
Qed.

(** C10, as amended.  In the local version [getAudioDuration] returns 30
    whenever its [ffprobe] invocation fails, and throws nothing.  A job's
    audio is probed twice.  The first probe is the one of [processVideo]:
    whatever it gives, the job goes on to [fetching_footage] and not to
    [failed], and the footage fetch does not read the value.  The second
    probe is the one of [combineAudioVideo], and it alone sets the trim:
    when it fails the encoder is given [-t 30], when it prints a duration
    the encoder is given that duration, whether the first probe failed or
    not; either way the outcome of [combineAudioVideo] is the encoder's
    alone. *)
Theorem probe_failure_defaults_to_30 :
  forall (w : Local.World) (audioPath : string),
    (forall n message,
       Local.ffprobe w n (Local.ffprobeCommand audioPath)
       = Local.ExecFail message ->
       Local.getAudioDuration w n audioPath = Local.NumLit 30)
    /\ (forall jobId job st,
         let c := Local.processVideo_resume w
                    (Local.Suspended jobId job (Local.PProbe audioPath)) st in
         exists job',
           snd c = Local.Suspended jobId job'
                     (Local.PFootage audioPath
                        (Local.getAudioDuration w 0 audioPath))
           /\ Local.jobs (fst c) !! jobId = Some job'
           /\ Local.status job' = fetching_footage
           /\ Local.statusWrites jobId (Local.log (fst c))
              = Local.statusWrites jobId (Local.log st) ++ [fetching_footage])
    /\ (forall template d d' jobId fs,
         Local.fetchStockFootage w template d jobId fs
         = Local.fetchStockFootage w template d' jobId fs)
    /\ (forall videoPath jobId message,
         Local.ffprobe w 1 (Local.ffprobeCommand audioPath)
         = Local.ExecFail message ->
         let outputPath := Local.TEMP_DIR +:+ "/" +:+ jobId +:+ "-final.mp4" in
         let command := Local.ffmpegCommand w audioPath videoPath outputPath
                          (Local.NumLit 30) in
         contains command " -t 30 "
         /\ Local.combineAudioVideo w audioPath videoPath jobId
            = match Local.ffmpeg w command with
              | Local.ExecOk _ => Return outputPath
              | Local.ExecFail _ => Throw "Failed to combine audio and video"
              end)
    /\ (forall videoPath jobId stdout,
         Local.ffprobe w 1 (Local.ffprobeCommand audioPath)
         = Local.ExecOk stdout ->
         let outputPath := Local.TEMP_DIR +:+ "/" +:+ jobId +:+ "-final.mp4" in
         let command := Local.ffmpegCommand w audioPath videoPath outputPath
                          (Local.NumParsed stdout) in
         contains command (" -t " +:+ Local.numberText w stdout +:+ " ")
         /\ Local.combineAudioVideo w audioPath videoPath jobId
            = match Local.ffmpeg w command with
              | Local.ExecOk _ => Return outputPath
              | Local.ExecFail _ => Throw "Failed to combine audio and video"
              end).
Proof.
  intros w audioPath. split; [|split; [|split; [|split]]].
  - intros n message Hfail. unfold Local.getAudioDuration. rewrite Hfail.
    reflexivity.
  - intros jobId job st c. subst c. cbn [Local.processVideo_resume].
    cbn [Local.enter fst snd]. eexists.
    split; [reflexivity|]. split; [apply LocalFacts.local_lookup_jobsSet|].
    split; [reflexivity|]. LocalFacts.trace. reflexivity.
  - reflexivity.
  - intros videoPath jobId message Hfail outputPath command. split.
    + apply (ffmpegCommand_trim w audioPath videoPath outputPath (Local.NumLit 30)).
    + unfold Local.combineAudioVideo, Local.getAudioDuration. rewrite Hfail.
      reflexivity.
  - intros videoPath jobId stdout Hprints outputPath command. split.
    + apply (ffmpegCommand_trim w audioPath videoPath outputPath
               (Local.NumParsed stdout)).
    + unfold Local.combineAudioVideo, Local.getAudioDuration. rewrite Hprints.
      reflexivity.
Qed.

(** The scenario where [ffprobe] is not installed: both probes give 30, the
    encoder is told to stop at 30 seconds, and the job completes. *)
Lemma probe_failure_defaults_to_30_witness :
  Local.getAudioDuration Scenario.localNoProbe 0 "./temp/job-1-audio.mp3"
  = Local.NumLit 30
  /\ Local.combineAudioVideo Scenario.localNoProbe "./temp/job-1-audio.mp3"
       "./temp/job-1-footage.mp4" "job-1"
     = Return "./temp/job-1-final.mp4"
  /\ Local.status
       <$> Local.jobs
             (fst (LocalRun.run Scenario.localNoProbe Scenario.localBody
                     "job-1" 0 ∅ ∅ 5)) !! "job-1"
     = Some completed.
Proof.
  destruct (probe_failure_defaults_to_30 Scenario.localNoProbe
              "./temp/job-1-audio.mp3") as (H30 & _ & _ & Htrim & _).
  split; [apply (H30 0 "ffprobe: not found"); reflexivity|].
  split; [|vm_compute; reflexivity].
  destruct (Htrim "./temp/job-1-footage.mp4" "job-1" "ffprobe: not found" eq_refl)
    as (_ & ->).
  reflexivity.
Defined.

(** C10 fails as stated: in this run the probe of [processVideo] fails and
    gives 30, the probe of [combineAudioVideo] prints 12.345 seconds, and the
    job completes with an encoder that takes [-t 12.345] and refuses
    [-t 30]: the final video has the length of the audio. *)
Lemma first_probe_failure_keeps_audio_length :
  Local.ffprobe Scenario.localProbeOnce 0
    (Local.ffprobeCommand "./temp/job-1-audio.mp3")
  = Local.ExecFail "ffprobe: Resource temporarily unavailable"
  /\ Local.getAudioDuration Scenario.localProbeOnce 0 "./temp/job-1-audio.mp3"
     = Local.NumLit 30
  /\ match snd (LocalRun.run Scenario.localProbeOnce Scenario.localBody
                  "job-1" 0 ∅ ∅ 3) with
     | Local.Suspended _ _ (Local.PFootage a d) =>
         a = "./temp/job-1-audio.mp3" /\ d = Local.NumLit 30
     | _ => False
     end
  /\ Local.status
       <$> Local.jobs
             (fst (LocalRun.run Scenario.localProbeOnce Scenario.localBody
                     "job-1" 0 ∅ ∅ 5)) !! "job-1"
     = Some completed
  /\ Local.numToString Scenario.localProbeOnce
       (Local.getAudioDuration Scenario.localProbeOnce 1 "./temp/job-1-audio.mp3")
     = "12.345"
  /\ Local.ffmpeg Scenario.localProbeOnce
       (Local.ffmpegCommand Scenario.localProbeOnce "./temp/job-1-audio.mp3"
          "./temp/job-1-footage.mp4" "./temp/job-1-final.mp4" (Local.NumLit 30))
     = Local.ExecFail "unexpected duration".
Proof. repeat split; vm_compute; reflexivity. Qed.
